(** * Aiko client: cooperative task scheduler and its job bodies

    A shallow embedding of [AikoClient] (the scheduler [processNextTask],
    the seven job bodies it dispatches to, and the helpers of
    [db/index.ts] and [constants.ts] they rely on), followed by the
    properties of the design document that were checked against it.

    Conventions of the embedding:
    - times ([Date.now()], [new Date()]) are integers in milliseconds;
    - text is a [string]; [String.prototype.trim] and
      [String.prototype.toLowerCase] are the engine's and are taken as given
      (the variables [trim] and [toLowerCase] of the job bodies), and
      [ascii_trim] and [ascii_toLowerCase] are what they do on ASCII text;
    - [Math.random() * length] is a binary64 product, rounded to nearest;
    - every call to an external collaborator (gateway, generation service,
      speech service, agent runtime) is recorded in a trace of [effect]s and
      its result is supplied by a per-invocation record of outcomes
      (a "world"); a collaborator that fails is an outcome [Threw];
    - [console.error] and [console.warn] are recorded in the trace,
      informational [console.log] lines are not;
    - the scheduler's assignments to a task descriptor are recorded in the
      trace as well, so that their order can be stated. *)

From Stdlib Require Import ZArith QArith String Ascii List Bool Lia.
From Stdlib Require Import SpecFloat.
From stdpp Require Import base tactics option list strings.

Local Open Scope string_scope.
Local Open Scope list_scope.
Local Open Scope Z_scope.

(** ** JavaScript values the code relies on *)

(** The result of awaiting a promise: fulfilled with a value, or rejected. *)
Inductive outcome (A : Type) : Type :=
| Returned (a : A)
| Threw (e : string).
Arguments Returned {A} a.
Arguments Threw {A} e.

(** Truthiness of an optional boolean ([undefined] is falsy). *)
Definition truthy_bool (b : option bool) : bool :=
  match b with Some true => true | _ => false end.

(** Truthiness of an optional string ([undefined], [null] and the empty
    string are falsy). *)
Definition truthy_str (s : option string) : bool :=
  match s with
  | Some EmptyString => false
  | Some _ => true
  | None => false
  end.

(** [x || d] on an optional number: [undefined] and [0] give [d]. *)
Definition num_or (x : option Z) (d : Z) : Z :=
  match x with
  | Some v => if v =? 0 then d else v
  | None => d
  end.

(** A value that is a number or a boolean, as [shouldTranscribe] is. *)
Inductive num_or_bool : Type :=
| JNum (q : Q)
| JBool (b : bool).

Definition truthy (v : num_or_bool) : bool :=
  match v with
  | JNum q => negb (Qeq_bool q 0)
  | JBool b => b
  end.

(** [Math.random() < 0.5] for a draw [r]. A comparison rounds nothing, so
    the draw is taken here as the rational number it denotes. *)
Definition lt_half (r : Q) : bool := negb (Qle_bool (1 # 2) r).

(** Numbers are binary64 values ([spec_float] with a mantissa of 53 bits);
    a product is the exact product rounded to the nearest binary64, ties
    to even. *)
Definition binary64_mul (x y : spec_float) : spec_float := SFmul 53 1024 x y.

(** An array length as a number. *)
Definition binary64_of_nat (n : nat) : spec_float :=
  binary_normalize 53 1024 (Z.of_nat n) 0 false.

(** [Math.floor], where the result is an integer: not for [NaN] and the
    infinities. *)
Definition binary64_floor (x : spec_float) : option Z :=
  match x with
  | S754_zero _ => Some 0
  | S754_finite s m e =>
      let v := if s then Z.neg m else Z.pos m in
      Some (if 0 <=? e then v * 2 ^ e else v / 2 ^ (- e))
  | S754_infinity _ | S754_nan => None
  end.

(** A draw of [Math.random()]: a binary64 number in [0, 1). *)
Definition is_draw (r : spec_float) : bool :=
  match r with
  | S754_zero false => true
  | S754_finite false m e => bounded 53 1024 m e && (Z.pos m <? 2 ^ (- e))
  | _ => false
  end.

(** What [String.prototype.trim] and [String.prototype.toLowerCase] do on
    ASCII text: whitespace is the characters 9 to 13 and 32, and the
    letters [A] to [Z] are lowered. *)
Definition is_whitespace (c : ascii) : bool :=
  let n := nat_of_ascii c in
  ((9 <=? n)%nat && (n <=? 13)%nat) || (n =? 32)%nat.

Fixpoint ascii_trimStart (s : string) : string :=
  match s with
  | String c s' => if is_whitespace c then ascii_trimStart s' else s
  | EmptyString => EmptyString
  end.

Fixpoint ascii_trimEnd (s : string) : string :=
  match s with
  | String c s' =>
      match ascii_trimEnd s' with
      | EmptyString => if is_whitespace c then EmptyString else String c EmptyString
      | t => String c t
      end
  | EmptyString => EmptyString
  end.

Definition ascii_trim (s : string) : string := ascii_trimEnd (ascii_trimStart s).

Definition lower_ascii (c : ascii) : ascii :=
  let n := nat_of_ascii c in
  if ((65 <=? n)%nat && (n <=? 90)%nat) then ascii_of_nat (n + 32) else c.

Fixpoint ascii_toLowerCase (s : string) : string :=
  match s with
  | String c s' => String (lower_ascii c) (ascii_toLowerCase s')
  | EmptyString => EmptyString
  end.

(** [Array.prototype.includes] on strings. *)
Definition includes (l : list string) (x : string) : bool :=
  existsb (String.eqb x) l.

(** ** types.ts *)

Record TaskPriority : Type := mkTask {
  name : string;
  priority : Z;
  minInterval : Z;
  lastRun : option Z;
  isRunning : option bool
}.

Definition set_isRunning (b : bool) (t : TaskPriority) : TaskPriority :=
  mkTask (name t) (priority t) (minInterval t) (lastRun t) (Some b).

Definition set_lastRun (now : Z) (t : TaskPriority) : TaskPriority :=
  mkTask (name t) (priority t) (minInterval t) (Some now) (isRunning t).

(** An assignment to a field of a task descriptor. *)
Inductive task_write : Type :=
| WIsRunning (b : bool)
| WLastRun (now : Z).

Definition apply_write (w : task_write) : TaskPriority -> TaskPriority :=
  match w with
  | WIsRunning b => set_isRunning b
  | WLastRun now => set_lastRun now
  end.

(** The outbound record posted to the presentation layer. The [id] (a UUID
    derived from the agent id and the clock) and [agentId] are built the
    same way on every path and are left out, and so is the [giftName: null]
    of the chat reply. *)
Record AIResponse : Type := mkResponse {
  text : option string;
  replyToUser : option string;
  replyToMessageId : option string;
  replyToMessage : option string;
  replyToHandle : option string;
  replyToPfp : option string;
  thought : option bool;
  isGiftResponse : option bool;
  giftId : option string;
  isTopLikerResponse : option bool;
  animation : option string;
  audioUrl : option string
}.

(** ** constants.ts *)

Module ANIMATION_OPTIONS.
Definition IDLE : list string :=
    ["idle"; "idle-2"; "idle_basic"; "idle_dwarf"; "offensive_idle"].
Definition HEAD : list string :=
    ["acknowledging"; "hard_head_nod"; "head_nod_yes"; "lengthy_head_nod";
     "sarcastic_head_nod"; "shaking_head_no"; "thoughtful_head_shake";
     "annoyed_head_shake"].
Definition GESTURES : list string :=
    ["angry_gesture"; "being_cocky"; "dismissing_gesture";
     "happy_hand_gesture"; "look_away_gesture"; "relieved_sigh";
     "standing_clap"].
Definition DANCING : list string :=
    ["dancing_twerk"; "hip_hop_dancing"; "rumba_dancing"; "silly_dancing";
     "capoeira"].
Definition SITTING : list string :=
    ["sitting"; "sitting_disbelief"; "sitting_legs_swinging"; "sitting_yell"].
Definition SPECIAL : list string :=
    ["appearing"; "floating"; "joyful_jump"; "laughing"; "super_excited";
     "walk_with_rifle"; "weight_shift"].
End ANIMATION_OPTIONS.

Definition getAllAnimations : list string :=
  ANIMATION_OPTIONS.IDLE ++ ANIMATION_OPTIONS.HEAD ++
  ANIMATION_OPTIONS.GESTURES ++ ANIMATION_OPTIONS.DANCING ++
  ANIMATION_OPTIONS.SPECIAL.

(** ** db/index.ts: records exchanged with the data gateway *)

Module IComment.
Record t : Type := mk {
  id : string;
  user : string;
  message : string;
  avatar : option string;
  handle : option string
}.
End IComment.

Module Gift.
Record t : Type := mk {
  _id : string;
  giftName : string;
  giftCount : Z;
  coinsTotal : Z;
  senderPublicKey : string;
  handle : option string;
  avatar : option string
}.
End Gift.

Module TopLiker.
Record t : Type := mk {
  publicKey : string;
  likeCount : Z;
  handle : option string;
  pfp : option string
}.
End TopLiker.

(** A message of the shared peer-agent room. *)
Module RoomMessage.
Record t : Type := mk {
  id : string;
  agentId : string;
  agentName : string;
  message : string
}.
End RoomMessage.

(** What [parseJSONObjectFromText] yields for a structured answer. *)
Module Parsed.
Record t : Type := mk {
  text : option string;
  animation : option string
}.
End Parsed.

(** The [Content] of a message: its [text] and, of its other keys, those
    that bear the name of a field of [AIResponse]; such a key is absent
    ([None]) or present with a value. Keys of any other name ([action],
    [source], ...) are not inspected by the client and are left out. *)
Module Content.
Record t : Type := mk {
  text : option string;
  replyToUser : option (option string);
  replyToMessageId : option (option string);
  replyToMessage : option (option string);
  replyToHandle : option (option string);
  replyToPfp : option (option string);
  thought : option (option bool);
  isGiftResponse : option (option bool);
  giftId : option (option string);
  isTopLikerResponse : option (option bool);
  animation : option (option string);
  audioUrl : option (option string)
}.

(** A content that has a [text] and none of the other keys. *)
Definition of_text (text : option string) : t :=
  mk text None None None None None None None None None None None.
End Content.

(** [{ ...body, ...responseContent }] on the fields of [AIResponse] (the
    spread that ends the body of the chat reply): a key that the content
    carries replaces the field of that name. The [text] of the content is
    the one the body was built with. *)
Definition spread_content (responseContent : Content.t) (body : AIResponse)
    : AIResponse :=
  {| text := text body;
     replyToUser := default (replyToUser body) (Content.replyToUser responseContent);
     replyToMessageId :=
       default (replyToMessageId body) (Content.replyToMessageId responseContent);
     replyToMessage :=
       default (replyToMessage body) (Content.replyToMessage responseContent);
     replyToHandle :=
       default (replyToHandle body) (Content.replyToHandle responseContent);
     replyToPfp := default (replyToPfp body) (Content.replyToPfp responseContent);
     thought := default (thought body) (Content.thought responseContent);
     isGiftResponse :=
       default (isGiftResponse body) (Content.isGiftResponse responseContent);
     giftId := default (giftId body) (Content.giftId responseContent);
     isTopLikerResponse :=
       default (isTopLikerResponse body) (Content.isTopLikerResponse responseContent);
     animation := default (animation body) (Content.animation responseContent);
     audioUrl := default (audioUrl body) (Content.audioUrl responseContent) |}.

(** The decoded body of the unread-comments endpoint, as [readChatAndReply]
    destructures it: [null], or a value whose [comments] field, if it has
    one, is an array of comments. *)
Inductive comments_body : Type :=
| BodyNull
| BodyObject (comments : option (list IComment.t)).

(** ** The client object *)

(** The parts of [IAgentRuntime] the client reads. [isInChat] is the
    truthiness of [character.settings?.secrets?.isInChat]. *)
Record Runtime : Type := mkRuntime {
  agentId : string;
  characterName : string;
  isInChat : bool
}.

Record AikoClient : Type := mkClient {
  runtime : Runtime;
  taskQueue : list TaskPriority;
  lastProcessedTimestamp : option Z;
  lastAgentChatMessageId : option string
}.

(** ** Observable effects *)

(** The call sites of [generateText]. *)
Inductive gen_purpose : Type :=
| GSelectComment
| GGiftResponse
| GTopLiker
| GFreshThought
| GPeriodicAnimation
| GMessageAnimation
| GAgentChat.

Inductive effect : Type :=
| EConsoleError (msg : string)
| EConsoleWarn (msg : string)
| EFetchUnreadComments (since : Z)
| EMarkCommentsAsRead (ids : list string)
| EFetchUnreadGifts
| EMarkGiftsAsRead (ids : list string)
| EFetchTopLikers (timeframe : string)
| EFetchRoomMessages
| EPostRoomMessage (msg : string) (audio : option string)
| EComposeState
| EEnsureConnection (userId : string)
| ECreateMemory (key : string) (body : option string)
| ECreateGiftMemory (g : Gift.t)
| EDatabaseLog
| EGenerateText (p : gen_purpose)
| EGenerateMessageResponse
| EGenerateSpeech (txt : option string)
| EPostAIResponse (body : AIResponse)
| EPostAnimation (anim : string)
| EPutStatus
| ETaskWrite (i : nat) (w : task_write).

(** ** A monad for job bodies: client state, effect trace, exceptions *)

Record M (A : Type) : Type := mkM {
  run : AikoClient -> list effect * AikoClient * outcome A
}.
Arguments mkM {A} run.
Arguments run {A} m c.

Definition ret {A} (a : A) : M A :=
  mkM (fun c => ([], c, Returned a)).

#[global] Instance M_ret : MRet M := fun A a => ret a.

Definition bind {A B} (m : M A) (k : A -> M B) : M B :=
  mkM (fun c =>
    match run m c with
    | (tr1, c1, Returned a) =>
        match run (k a) c1 with
        | (tr2, c2, r) => (tr1 ++ tr2, c2, r)
        end
    | (tr1, c1, Threw e) => (tr1, c1, Threw e)
    end).

#[global] Instance M_bind : MBind M := fun A B k m => bind m k.

Notation "'let*' x ':=' m 'in' k" := (bind m (fun x => k))
  (at level 10, x pattern, m at level 100, k at level 200).

Definition throw {A} (e : string) : M A :=
  mkM (fun c => ([], c, Threw e)).

Definition emit (e : effect) : M unit :=
  mkM (fun c => ([e], c, Returned tt)).

(** An awaited call to a collaborator: recorded, then settled as given. *)
Definition call {A} (e : effect) (o : outcome A) : M A :=
  mkM (fun c => ([e], c, o)).

Definition get_client : M AikoClient :=
  mkM (fun c => ([], c, Returned c)).

Definition modify_client (f : AikoClient -> AikoClient) : M unit :=
  mkM (fun c => ([], f c, Returned tt)).

(** [try { m } catch (error) { h error }]. *)
Definition try_catch {A} (m : M A) (h : string -> M A) : M A :=
  mkM (fun c =>
    match run m c with
    | (tr1, c1, Returned a) => (tr1, c1, Returned a)
    | (tr1, c1, Threw e) =>
        match run (h e) c1 with
        | (tr2, c2, r) => (tr1 ++ tr2, c2, r)
        end
    end).

(** [try { m } finally { f }], for a [finally] block that completes
    normally: the outcome of [m] is kept. *)
Definition try_finally {A} (m : M A) (f : M unit) : M A :=
  mkM (fun c =>
    match run m c with
    | (tr1, c1, r) =>
        match run f c1 with
        | (tr2, c2, Returned _) => (tr1 ++ tr2, c2, r)
        | (tr2, c2, Threw e) => (tr1 ++ tr2, c2, Threw e)
        end
    end).

Definition console_error (msg : string) : M unit := emit (EConsoleError msg).
Definition console_warn (msg : string) : M unit := emit (EConsoleWarn msg).

(** [Promise.allSettled] over tasks started in order: each task runs to its
    settlement, a rejection is kept as a value, and the combined promise
    always fulfils. *)
Fixpoint allSettled {A} (tasks : list (M A)) : M (list (outcome A)) :=
  match tasks with
  | [] => mret []
  | t :: rest =>
      mkM (fun c =>
        match run t c with
        | (tr1, c1, r) =>
            match run (allSettled rest) c1 with
            | (tr2, c2, Returned rs) => (tr1 ++ tr2, c2, Returned (r :: rs))
            | (tr2, c2, Threw e) => (tr1 ++ tr2, c2, Threw e)
            end
        end)
  end.

(** A [const] binding, which cannot be read before its declaration has
    been evaluated (temporal dead zone). *)
Inductive binding (A : Type) : Type :=
| Uninitialized
| Initialized (a : A).
Arguments Uninitialized {A}.
Arguments Initialized {A} a.

Definition tdz_error (x : string) : string :=
  "ReferenceError: Cannot access " +:+ x +:+ " before initialization".

Definition read_binding {A} (x : string) (b : binding A) : M A :=
  match b with
  | Uninitialized => throw (tdz_error x)
  | Initialized a => mret a
  end.

(** ** db/index.ts: gateway helpers

    Each helper takes the outcome of its HTTP exchange ([fetch] followed by
    [response.json()]): [Threw] is a network or decoding failure, otherwise
    the [ok] flag of the response and the decoded body. *)

(** [fetchUnreadComments] hands back the decoded body as it is. *)
Definition fetchUnreadComments (since : option Z)
    (http : outcome (bool * comments_body)) : M comments_body :=
  try_catch
    (match since with
     | None => throw "TypeError: Cannot read properties of undefined"
     | Some t =>
         let* (ok, data) := call (EFetchUnreadComments t) http in
         if negb ok then throw "HTTP error!" else mret data
     end)
    (fun _ => console_error "Error fetching unread comments:" ;;
              mret (BodyObject (Some []))).

Definition markCommentsAsRead (commentIds : list string) (http : outcome bool)
    : M bool :=
  try_catch
    (call (EMarkCommentsAsRead commentIds) http)
    (fun _ => console_error "Error marking comments as read:" ;; mret false).

Definition fetchUnreadGifts (http : outcome (bool * option (list Gift.t)))
    : M (option (list Gift.t)) :=
  try_catch
    (let* (ok, gifts) := call EFetchUnreadGifts http in
     mret (if ok then gifts else None))
    (fun _ => console_error "Error fetching unread gifts:" ;; mret None).

Definition markGiftsAsRead (giftIds : list string) (http : outcome bool)
    : M bool :=
  try_catch
    (call (EMarkGiftsAsRead giftIds) http)
    (fun _ => console_error "Error marking gifts as read:" ;; mret false).

(** Returns the pair [(success, topLikers)]. *)
Definition fetchTopLikers (timeframe : string)
    (http : outcome (bool * option (list TopLiker.t)))
    : M (bool * option (list TopLiker.t)) :=
  try_catch
    (let* (ok, topLikers) := call (EFetchTopLikers timeframe) http in
     mret (if ok then (true, topLikers) else (false, None)))
    (fun _ => console_error "Error fetching top likers:" ;; mret (false, None)).

(** [Math.floor(Math.random() * topLikers.length)] for a draw [r]. *)
Definition randomIndex (r : spec_float) (topLikers : list TopLiker.t)
    : option Z :=
  binary64_floor (binary64_mul r (binary64_of_nat (length topLikers))).

(** [getRandomTopLiker] for a draw [r]: an empty list gives [null], and an
    index that is no position of the list gives [undefined]. *)
Definition getRandomTopLiker (topLikers : list TopLiker.t) (r : spec_float)
    : option TopLiker.t :=
  match topLikers with
  | [] => None
  | _ =>
      match randomIndex r topLikers with
      | Some i => if i <? 0 then None else topLikers !! Z.to_nat i
      | None => None
      end
  end.

(** ** Outcomes of the collaborators, per job invocation *)

Record GiftWorld : Type := mkGiftWorld {
  gw_createMemory : outcome unit;
  gw_composeState : outcome unit;
  gw_generateText : outcome string;
  gw_random : Q;
  gw_speech : outcome string;
  gw_post : outcome bool;
  gw_markRead : outcome bool
}.

Record GiftsWorld : Type := mkGiftsWorld {
  rg_fetch : outcome (bool * option (list Gift.t));
  rg_gift : nat -> GiftWorld
}.

Record CommentsWorld : Type := mkCommentsWorld {
  cw_markRead : outcome bool;
  cw_loop_createMemory : IComment.t -> outcome unit;
  cw_select_composeState : outcome unit;
  cw_select_generateText : outcome string;
  cw_ensureConnection : outcome unit;
  cw_createMemory : outcome unit;
  cw_composeState : outcome unit;
  cw_generateMessageResponse : outcome (option Content.t);
  cw_databaseLog : outcome unit;
  cw_animation : outcome string;
  cw_speech : outcome string;
  cw_post : outcome Z
}.

Record ChatWorld : Type := mkChatWorld {
  rc_fetch : outcome (bool * comments_body);
  rc_comments : CommentsWorld;
  rc_now : Z
}.

Record TopLikersWorld : Type := mkTopLikersWorld {
  tl_random_window : Q;
  tl_fetch : outcome (bool * option (list TopLiker.t));
  tl_random_index : spec_float;
  tl_composeState : outcome unit;
  tl_generateText : outcome string;
  tl_post : outcome bool
}.

Record ThoughtWorld : Type := mkThoughtWorld {
  th_composeState : outcome unit;
  th_generateText : outcome string;
  th_speech : outcome string;
  th_post : outcome bool
}.

Record AgentChatWorld : Type := mkAgentChatWorld {
  ac_fetch : outcome (bool * option (list RoomMessage.t));
  ac_composeState : outcome unit;
  ac_generateText : outcome string;
  ac_speech : outcome string;
  ac_post : outcome unit;
  ac_now : Z
}.

Record AnimationWorld : Type := mkAnimationWorld {
  an_composeState : outcome unit;
  an_generateText : outcome string;
  an_post : outcome bool
}.

Record World : Type := mkWorld {
  w_readGifts : GiftsWorld;
  w_readChatAndReply : ChatWorld;
  w_readAndRespondToTopLikers : TopLikersWorld;
  w_generateFreshThought : ThoughtWorld;
  w_readAgentChatAndReply : AgentChatWorld;
  w_generatePeriodicAnimation : AnimationWorld;
  w_heartbeat : outcome (bool * bool)
}.

(** ** Job bodies *)

Section Jobs.

(** [parseJSONObjectFromText] of the agent framework: the JSON object found
    in a generated text, if any. *)
Variable parseJSONObjectFromText : string -> option Parsed.t.

(** [String.prototype.trim] and [String.prototype.toLowerCase] of the
    JavaScript engine. *)
Variable trim : string -> string.
Variable toLowerCase : string -> string.

(** [generateSpeech]: synthesis and upload, settling as [speech]. *)
Definition generateSpeech (txt : option string) (speech : outcome string)
    : M string :=
  call (EGenerateSpeech txt) speech.

Definition updateStreamingStatus (http : outcome (bool * bool)) : M unit :=
  try_catch
    (let* (ok, success) := call EPutStatus http in
     if negb ok then
       console_error "aiko: updateStreamingStatus: response" ;;
       throw "Failed to update streaming status"
     else if negb success then throw "Failed to update streaming status"
     else mret tt)
    (fun error => console_error "Failed to update streaming status:" ;; throw error).

Definition heartbeat (http : outcome (bool * bool)) : M unit :=
  updateStreamingStatus http.

Definition readAndRespondToTopLikers (w : TopLikersWorld) : M unit :=
  try_catch
    (let use5MinWindow := lt_half (tl_random_window w) in
     let timeframe := if use5MinWindow then "5m" else "all" in
     let* r := fetchTopLikers timeframe (tl_fetch w) in
     match r with
     | (true, Some topLikers) =>
         match getRandomTopLiker topLikers (tl_random_index w) with
         | None => mret tt
         | Some selectedLiker =>
             call EComposeState (tl_composeState w) ;;
             let* responseText := call (EGenerateText GTopLiker) (tl_generateText w) in
             match parseJSONObjectFromText responseText with
             | None => console_error "Failed to parse top liker response:"
             | Some parsedResponse =>
                 let body := {|
                   text := Parsed.text parsedResponse;
                   replyToUser := TopLiker.handle selectedLiker;
                   replyToMessageId := None;
                   replyToMessage := None;
                   replyToHandle := TopLiker.handle selectedLiker;
                   replyToPfp := TopLiker.pfp selectedLiker;
                   thought := None;
                   isGiftResponse := None;
                   giftId := None;
                   isTopLikerResponse := Some true;
                   animation := Parsed.animation parsedResponse;
                   audioUrl := None |} in
                 let* ok := call (EPostAIResponse body) (tl_post w) in
                 if ok then mret tt
                 else console_error "Failed to post top liker response:"
             end
         end
     | _ => console_error "Failed to fetch top likers:"
     end)
    (fun _ => console_error "Error in readAndRespondToTopLikers:").

(** [gift.giftName === 'Ice Cream' ? 0.5 : Math.random() < 0.5]. *)
Definition shouldTranscribe (gift : Gift.t) (random : Q) : num_or_bool :=
  if String.eqb (Gift.giftName gift) "Ice Cream" then JNum (1 # 2)
  else JBool (lt_half random).

Definition processGift (gift : Gift.t) (w : GiftWorld) : M bool :=
  try_catch
    (call (ECreateGiftMemory gift) (gw_createMemory w))
    (fun _ => console_error "Failed to create gift memory") ;;
  call EComposeState (gw_composeState w) ;;
  let* responseText := call (EGenerateText GGiftResponse) (gw_generateText w) in
  match parseJSONObjectFromText responseText with
  | None => console_error "Failed to parse gift response:" ;; mret false
  | Some parsedResponse =>
      let shouldTranscribe := shouldTranscribe gift (gw_random w) in
      let* speechUrl :=
        (if truthy shouldTranscribe then
           let* url := generateSpeech (Parsed.text parsedResponse) (gw_speech w) in
           mret (Some url)
         else mret None) in
      let body := {|
        text := Parsed.text parsedResponse;
        replyToUser := Some (Gift.senderPublicKey gift);
        replyToMessageId := None;
        replyToMessage := None;
        replyToHandle := Gift.handle gift;
        replyToPfp := Gift.avatar gift;
        thought := None;
        isGiftResponse := Some true;
        giftId := Some (Gift._id gift);
        isTopLikerResponse := None;
        animation := Parsed.animation parsedResponse;
        audioUrl := if truthy shouldTranscribe then speechUrl else None |} in
      try_catch
        (let* ok := call (EPostAIResponse body) (gw_post w) in
         (if ok then markGiftsAsRead [Gift._id gift] (gw_markRead w) ;; mret tt
          else mret tt) ;;
         mret ok)
        (fun _ => console_error "Failed to post AI response:" ;; mret false)
  end.

(** [for (const gift of gifts) await this.processGift(gift)], the gift at
    position [i] meeting the collaborators' outcomes [ws i]. *)
Fixpoint processGifts (gifts : list Gift.t) (ws : nat -> GiftWorld) (i : nat)
    : M unit :=
  match gifts with
  | [] => mret tt
  | gift :: rest => processGift gift (ws i) ;; processGifts rest ws (S i)
  end.

Definition readGifts (w : GiftsWorld) : M unit :=
  let* gifts := fetchUnreadGifts (rg_fetch w) in
  match gifts with
  | Some ((_ :: _) as gifts) => processGifts gifts (rg_gift w) 0%nat
  | _ => mret tt
  end.

Definition generateFreshThought (w : ThoughtWorld) : M string :=
  call EComposeState (th_composeState w) ;;
  call (EGenerateText GFreshThought) (th_generateText w).

Definition generateAndShareFreshThought (w : ThoughtWorld) : M unit :=
  try_catch
    (let* thoughtText := generateFreshThought w in
     if negb (truthy_str (Some thoughtText)) then mret tt
     else
       let* speechUrl :=
         try_catch
           (let* url := generateSpeech (Some thoughtText) (th_speech w) in
            mret (Some url))
           (fun _ => console_error "Error generating speech:" ;; mret None) in
       let body := {|
         text := Some thoughtText;
         replyToUser := None;
         replyToMessageId := None;
         replyToMessage := None;
         replyToHandle := None;
         replyToPfp := None;
         thought := Some true;
         isGiftResponse := None;
         giftId := None;
         isTopLikerResponse := None;
         animation := None;
         audioUrl := speechUrl |} in
       let* ok := call (EPostAIResponse body) (th_post w) in
       if ok then mret tt else console_error "Failed to post fresh thought:")
    (fun _ => console_error "Error in generateAndShareFreshThought:").

Definition generateAndSharePeriodicAnimation (w : AnimationWorld) : M unit :=
  try_catch
    (call EComposeState (an_composeState w) ;;
     let* animation := call (EGenerateText GPeriodicAnimation) (an_generateText w) in
     let cleanAnimation := toLowerCase (trim animation) in
     if negb (includes getAllAnimations cleanAnimation) then
       console_warn ("Invalid animation generated: " +:+ cleanAnimation +:+
                     ", defaulting to 'idle'")
     else
       let* ok := call (EPostAnimation cleanAnimation) (an_post w) in
       if ok then mret tt
       else console_error "Failed to post periodic animation:")
    (fun _ => console_error "Error in generateAndSharePeriodicAnimation:").

Definition _generateResponse (w : CommentsWorld) : M (option Content.t) :=
  let* response := call EGenerateMessageResponse (cw_generateMessageResponse w) in
  match response with
  | None => console_error "No response from generateMessageResponse" ;; mret None
  | Some r => call EDatabaseLog (cw_databaseLog w) ;; mret (Some r)
  end.

Definition selectCommentToRespondTo (comments : list IComment.t)
    (w : CommentsWorld) : M (option string) :=
  if (length comments =? 0)%nat then mret None
  else
    call EComposeState (cw_select_composeState w) ;;
    let* selectedCommentId :=
      call (EGenerateText GSelectComment) (cw_select_generateText w) in
    mret (if String.eqb selectedCommentId "NONE" then None
          else Some selectedCommentId).

(** The key handed to [stringToUuid] for the memory of a comment. *)
Definition memory_key (agent : string) (comment : IComment.t) : string :=
  IComment.id comment +:+ "-" +:+ agent.

(** The callback of the [Promise.allSettled] step of [processComments]
    (lines 922-938 of the client), closed over the bindings [userMessage],
    [userIdUUID] and [content] of the enclosing function. It answers
    whether [memoriesCreated] was incremented. *)
Definition comment_memory_task
    (userMessage : binding (Content.t * string))
    (userIdUUID : binding string)
    (content : binding Content.t)
    (agent : string) (createMemory : IComment.t -> outcome unit)
    (comment : IComment.t) : M bool :=
  let key := memory_key agent comment in
  let* _ := read_binding "userMessage" userMessage in
  let* _ := read_binding "userIdUUID" userIdUUID in
  let* content := read_binding "content" content in
  if truthy_str (Content.text content) then
    call (ECreateMemory key (Content.text content)) (createMemory comment) ;;
    mret true
  else mret false.

(** Lines 941-947 of [processComments]: the value of [selectedCommentId]. *)
Definition chooseCommentId (comments : list IComment.t) (w : CommentsWorld)
    : M (option string) :=
  match comments with
  | [only] => mret (Some (IComment.id only))
  | _ => selectCommentToRespondTo comments w
  end.

(** Lines 961-1100 of [processComments]: record the selected comment,
    generate the reply, its animation and its speech, and publish. *)
Definition respondToSelected (selectedComment : IComment.t) (w : CommentsWorld)
    : M unit :=
  let* c := get_client in
  let content := Content.of_text (Some (IComment.message selectedComment)) in
  let userIdUUID := IComment.user selectedComment in
  call (EEnsureConnection userIdUUID) (cw_ensureConnection w) ;;
  (if truthy_str (Content.text content) then
     call (ECreateMemory (memory_key (agentId (runtime c)) selectedComment)
             (Content.text content)) (cw_createMemory w)
   else mret tt) ;;
  call EComposeState (cw_composeState w) ;;
  let shouldRespond := true in
  if shouldRespond then
    let* responseContent := _generateResponse w in
    match responseContent with
    | None => throw "TypeError: Cannot read properties of undefined (reading 'text')"
    | Some responseContent =>
        let responseText := trim <$> Content.text responseContent in
        let* animationResponse :=
          call (EGenerateText GMessageAnimation) (cw_animation w) in
        let* speechUrl :=
          try_catch
            (let* url := generateSpeech responseText (cw_speech w) in
             mret (Some url))
            (fun _ => console_error "Failed to generate speech" ;; mret None) in
        let body := spread_content responseContent {|
          text := responseText;
          replyToUser := Some (IComment.user selectedComment);
          replyToMessageId := Some (IComment.id selectedComment);
          replyToMessage := Some (IComment.message selectedComment);
          replyToHandle := IComment.handle selectedComment;
          replyToPfp := IComment.avatar selectedComment;
          thought := None;
          isGiftResponse := Some false;
          giftId := None;
          isTopLikerResponse := None;
          animation := Some animationResponse;
          audioUrl := speechUrl |} in
        let* status := call (EPostAIResponse body) (cw_post w) in
        if status =? 200 then mret tt
        else console_error "Failed to post response to api"
    end
  else mret tt.

(** [processComments]. The array it returns is only used for its length in
    a log line; the identifiers of the batch stand for it. *)
Definition processComments (comments : list IComment.t) (w : CommentsWorld)
    : M (list string) :=
  let commentIds := map IComment.id comments in
  if (length commentIds =? 0)%nat then mret commentIds
  else
    let* c := get_client in
    try_catch
      (markCommentsAsRead commentIds (cw_markRead w) ;; mret tt)
      (fun _ => console_error "aiko: Failed to mark comments as read") ;;
    (* the three bindings are declared further down: lines 962, 967, 977 *)
    allSettled
      (map (comment_memory_task Uninitialized Uninitialized Uninitialized
              (agentId (runtime c)) (cw_loop_createMemory w))
         comments) ;;
    let* selectedCommentId := chooseCommentId comments w in
    if negb (truthy_str selectedCommentId) then mret commentIds
    else
      match find (fun comment =>
                    bool_decide (Some (IComment.id comment) = selectedCommentId))
              comments with
      | None => console_error "Selected comment not found:" ;; mret commentIds
      | Some selectedComment =>
          respondToSelected selectedComment w ;; mret commentIds
      end.

Definition set_lastProcessedTimestamp (t : option Z) (c : AikoClient)
    : AikoClient :=
  mkClient (runtime c) (taskQueue c) t (lastAgentChatMessageId c).

Definition set_lastAgentChatMessageId (i : option string) (c : AikoClient)
    : AikoClient :=
  mkClient (runtime c) (taskQueue c) (lastProcessedTimestamp c) i.

(** [const { comments } = body]: destructuring [null] throws. *)
Definition destructure_comments (body : comments_body)
    : M (option (list IComment.t)) :=
  match body with
  | BodyNull =>
      throw "TypeError: Cannot destructure property 'comments' of null"
  | BodyObject comments => mret comments
  end.

Definition readChatAndReply (w : ChatWorld) : M unit :=
  try_catch
    (let* c := get_client in
     let* body :=
       fetchUnreadComments (lastProcessedTimestamp c) (rc_fetch w) in
     let* comments := destructure_comments body in
     match comments with
     | Some ((_ :: _) as comments) =>
         processComments comments (rc_comments w) ;; mret tt
     | _ => mret tt
     end ;;
     modify_client (set_lastProcessedTimestamp (Some (rc_now w))))
    (fun _ => console_error "Error in readChatAndReply:").

(** [readAgentChatAndReply]. [fetchRoomMessages] and [postRoomMessage] are
    gateway calls whose outcomes are [ac_fetch] (the pair of [success] and
    [messages]) and [ac_post]. *)
Definition readAgentChatAndReply (w : AgentChatWorld) : M unit :=
  let* c := get_client in
  if negb (isInChat (runtime c)) then mret tt
  else
    try_catch
      (let* (success, messages) := call EFetchRoomMessages (ac_fetch w) in
       let incomingMessages := default [] messages in
       match success, last incomingMessages with
       | true, Some latestMessage =>
           if bool_decide (lastAgentChatMessageId c
                           = Some (RoomMessage.id latestMessage)) then mret tt
           else if String.eqb (RoomMessage.agentId latestMessage)
                     (agentId (runtime c)) then
             modify_client
               (set_lastAgentChatMessageId (Some (RoomMessage.id latestMessage)))
           else if (0 <? length incomingMessages)%nat then
             call EComposeState (ac_composeState w) ;;
             let* responseText :=
               call (EGenerateText GAgentChat) (ac_generateText w) in
             match parseJSONObjectFromText responseText with
             | Some parsedResponse =>
                 if truthy_str (Parsed.text parsedResponse) then
                   let* speechUrl :=
                     try_catch
                       (let* url := generateSpeech (Parsed.text parsedResponse)
                                      (ac_speech w) in
                        mret (Some url))
                       (fun _ => console_error "Failed to generate speech" ;;
                                 mret None) in
                   call (EPostRoomMessage
                           (default "" (Parsed.text parsedResponse)) speechUrl)
                     (ac_post w) ;;
                   modify_client
                     (set_lastAgentChatMessageId
                        (Some (RoomMessage.id latestMessage))) ;;
                   modify_client (set_lastProcessedTimestamp (Some (ac_now w)))
                 else console_error "Failed to parse response:"
             | None => console_error "Failed to parse response:"
             end
           else modify_client (set_lastProcessedTimestamp (Some (ac_now w)))
       | _, _ => mret tt
       end)
      (fun _ => console_error "Error in readAgentChatAndReply:").

(** ** The scheduler *)

(** The callback of [taskQueue.find] in [processNextTask]. *)
Definition eligible (now : Z) (task : TaskPriority) : bool :=
  let timeElapsed := now - num_or (lastRun task) 0 in
  negb (truthy_bool (isRunning task)) && (minInterval task <=? timeElapsed).

(** [taskQueue.find(...)]: the first eligible task and its position. The
    task object is shared with the array, so later writes to it are writes
    at that position. *)
Definition find_eligible (now : Z) (q : list TaskPriority)
    : option (nat * TaskPriority) :=
  list_find (fun task => eligible now task = true) q.

Definition set_taskQueue (q : list TaskPriority) (c : AikoClient)
    : AikoClient :=
  mkClient (runtime c) q (lastProcessedTimestamp c) (lastAgentChatMessageId c).

(** An assignment to the task object found at position [i]. *)
Definition write_task (i : nat) (w : task_write) : M unit :=
  emit (ETaskWrite i w) ;;
  modify_client (fun c => set_taskQueue (alter (apply_write w) i (taskQueue c)) c).

(** The [switch] over [eligibleTask.name]. *)
Definition dispatch (task_name : string) (w : World) : M unit :=
  if String.eqb task_name "readGifts" then readGifts (w_readGifts w)
  else if String.eqb task_name "readChatAndReply" then
    readChatAndReply (w_readChatAndReply w)
  else if String.eqb task_name "readAndRespondToTopLikers" then
    readAndRespondToTopLikers (w_readAndRespondToTopLikers w)
  else if String.eqb task_name "generateFreshThought" then
    generateAndShareFreshThought (w_generateFreshThought w)
  else if String.eqb task_name "readAgentChatAndReply" then
    readAgentChatAndReply (w_readAgentChatAndReply w)
  else if String.eqb task_name "generatePeriodicAnimation" then
    generateAndSharePeriodicAnimation (w_generatePeriodicAnimation w)
  else if String.eqb task_name "heartbeat" then heartbeat (w_heartbeat w)
  else mret tt.

(** The synchronous prefix of [processNextTask], up to the first [await]:
    pick the first eligible task and mark it running. *)
Definition tick_start (now : Z) : M (option (nat * TaskPriority)) :=
  let* c := get_client in
  match find_eligible now (taskQueue c) with
  | None => mret None
  | Some (i, eligibleTask) =>
      write_task i (WIsRunning true) ;;
      mret (Some (i, eligibleTask))
  end.

(** The [finally] block, entered at clock reading [done]. *)
Definition tick_finally (i : nat) (done : Z) : M unit :=
  write_task i (WLastRun done) ;;
  write_task i (WIsRunning false).

(** [processNextTask], for a tick at clock reading [now] whose job body
    settles at clock reading [done]. *)
Definition processNextTask (now : Z) (w : World) (done : Z) : M unit :=
  let* started := tick_start now in
  match started with
  | None => mret tt
  | Some (i, eligibleTask) =>
      try_finally
        (try_catch
           (dispatch (name eligibleTask) w)
           (fun _ => console_error ("Error executing task " +:+ name eligibleTask)))
        (tick_finally i done)
  end.

End Jobs.

(** The registry as the class declares it. *)
Definition initial_taskQueue : list TaskPriority :=
  [ mkTask "readGifts" 1 (1000 * 25) None None;
    mkTask "readChatAndReply" 2 (1000 * 20) None None;
    mkTask "readAndRespondToTopLikers" 3 (1000 * 90) None None;
    mkTask "generateFreshThought" 4 (1000 * 30 * 1) None None;
    mkTask "readAgentChatAndReply" 4 (1000 * 60 * 1) None None;
    mkTask "generatePeriodicAnimation" 5 (1000 * 20) None None;
    mkTask "heartbeat" 5 (1000 * 5) None None ].

(** The constructor, run at clock reading [now]. *)
Definition new_AikoClient (rt : Runtime) (now : Z) : AikoClient :=
  mkClient rt initial_taskQueue (Some now) None.

(** ** The scheduler under the timer

    [setInterval] fires [processNextTask] every second whether or not an
    earlier call has settled. A run of the client is a sequence of events:
    a timer tick at some clock reading, or the settlement of the job body
    started by an earlier tick, which is followed by that tick's [catch]
    and [finally] blocks. The state pairs the client with the positions of
    the tasks whose body is still outstanding. *)

Inductive event : Type :=
| Timer (now : Z)
| Settle (i : nat) (done : Z).

Definition sched_state : Type := AikoClient * list nat.

Definition sched_step (s : sched_state) (e : event) : option sched_state :=
  match e with
  | Timer now =>
      match run (tick_start now) s.1 with
      | (_, c', Returned (Some (i, _))) => Some (c', i :: s.2)
      | (_, c', _) => Some (c', s.2)
      end
  | Settle i done =>
      if bool_decide (i ∈ s.2) then
        match run (tick_finally i done) s.1 with
        | (_, c', _) => Some (c', filter (fun j => j ≠ i) s.2)
        end
      else None
  end.

Fixpoint sched_run (s : sched_state) (es : list event) : option sched_state :=
  match es with
  | [] => Some s
  | e :: rest =>
      match sched_step s e with
      | Some s' => sched_run s' rest
      | None => None
      end
  end.

(** The number of descriptors marked running. *)
Definition running_count (q : list TaskPriority) : nat :=
  length (filter (fun t => truthy_bool (isRunning t) = true) q).

(** ** Eligibility as the design document words it

    Follows the words of the specification, for comparison with [eligible]:
    not running, and the interval elapsed since [lastRun], a missing
    [lastRun] counting as minus infinity. *)
Definition spec_eligible (now : Z) (task : TaskPriority) : bool :=
  negb (truthy_bool (isRunning task)) &&
  match lastRun task with
  | None => true
  | Some l => minInterval task <=? now - l
  end.

(** ** Vocabulary of the statements *)

(** The client a computation leaves behind, and its trace and outcome. *)
Definition final_client {A} (m : M A) (c : AikoClient) : AikoClient :=
  (run m c).1.2.

Definition trace_of {A} (m : M A) (c : AikoClient) : list effect :=
  (run m c).1.1.

Definition result_of {A} (m : M A) (c : AikoClient) : outcome A :=
  (run m c).2.

(** [m] takes every client to one related to it by [R]. *)
Definition preserves (R : relation AikoClient) {A} (m : M A) : Prop :=
  forall c, R c (final_client m c).

(** Every effect [m] can leave in its trace satisfies [P]. *)
Definition emits (P : effect -> Prop) {A} (m : M A) : Prop :=
  forall c, Forall P (trace_of m c).

Definition same_taskQueue : relation AikoClient :=
  fun c c' => taskQueue c' = taskQueue c.

Definition same_lastProcessedTimestamp : relation AikoClient :=
  fun c c' => lastProcessedTimestamp c' = lastProcessedTimestamp c.

Definition same_lastAgentChatMessageId : relation AikoClient :=
  fun c c' => lastAgentChatMessageId c' = lastAgentChatMessageId c.



(** In a state of the interleaved run, the descriptors marked running are
    exactly those whose body is outstanding. *)
Definition running_iff_outstanding (s : sched_state) : Prop :=
  forall i t, taskQueue s.1 !! i = Some t ->
    (truthy_bool (isRunning t) = true <-> i ∈ s.2).

(** What the [catch] block of [processNextTask] prints. *)
Definition error_log {A} (task_name : string) (r : outcome A) : list effect :=
  match r with
  | Returned _ => []
  | Threw _ => [EConsoleError ("Error executing task " +:+ task_name)]
  end.

(** What [markCommentsAsRead] leaves in the trace. *)
Definition mark_trace (ids : list string) (http : outcome bool) : list effect :=
  EMarkCommentsAsRead ids ::
  match http with
  | Returned _ => []
  | Threw _ => [EConsoleError "Error marking comments as read:"]
  end.

Definition is_publish (e : effect) : bool :=
  match e with
  | EPostAIResponse _ | EPostRoomMessage _ _ => true
  | _ => false
  end.

(** The line the [catch] of [readChatAndReply] prints. *)
Definition is_chat_job_error (e : effect) : bool :=
  match e with
  | EConsoleError msg => String.eqb msg "Error in readChatAndReply:"
  | _ => false
  end.

Definition is_createMemory (e : effect) : bool :=
  match e with
  | ECreateMemory _ _ => true
  | _ => false
  end.

(** The memory records created along a trace. *)
Definition memories_created (tr : list effect) : list effect :=
  filter (fun e => is_createMemory e = true) tr.

(** ** Sample inputs *)

Definition sample_runtime : Runtime := mkRuntime "agent-1" "Aiko" true.

(** A stand-in for [parseJSONObjectFromText]: any text but ["not json"] is
    read as an object whose [text] is that text. *)
Definition sample_parse (s : string) : option Parsed.t :=
  if String.eqb s "not json" then None
  else Some (Parsed.mk (Some s) (Some "idle")).

Definition sample_gift : Gift.t :=
  Gift.mk "gift-1" "Ice Cream" 1 10 "sender-key" (Some "fan") None.

Definition sample_rose : Gift.t :=
  Gift.mk "gift-2" "Rose" 2 4 "sender-key" (Some "fan") None.

Definition sample_comment_a : IComment.t :=
  IComment.mk "c-1" "user-a" "hello" None (Some "a").

Definition sample_comment_b : IComment.t :=
  IComment.mk "c-2" "user-b" "how are you" None (Some "b").

Definition sample_message : RoomMessage.t :=
  RoomMessage.mk "m-1" "agent-2" "Peer" "hi there".


(** The draws 0.25 and 0.7 as binary64 numbers, and a ranking of ten
    supporters told apart by their like counts, 0 to 9. *)
Definition quarter : spec_float := S754_finite false 4503599627370496 (-54).
Definition seven_tenths : spec_float := S754_finite false 6305039478318694 (-53).

Definition ten_likers : list TopLiker.t :=
  (fun i => TopLiker.mk "fan" (Z.of_nat i) None None) <$> seq 0 10.

(** Collaborators that all succeed. *)
Definition calm_gift : GiftWorld :=
  mkGiftWorld (Returned tt) (Returned tt) (Returned "thank you") (3 # 4)
    (Returned "https://cdn/audio.mp3") (Returned true) (Returned true).

Definition calm_comments : CommentsWorld :=
  mkCommentsWorld (Returned true) (fun _ => Returned tt) (Returned tt)
    (Returned "c-2") (Returned tt) (Returned tt) (Returned tt)
    (Returned (Some (Content.of_text (Some " fine, thanks "))))
    (Returned tt) (Returned "idle") (Returned "https://cdn/audio.mp3")
    (Returned 200).

Definition calm_world : World :=
  mkWorld
    (mkGiftsWorld (Returned (true, Some [sample_gift])) (fun _ => calm_gift))
    (mkChatWorld (Returned (true, BodyObject (Some [sample_comment_a])))
       calm_comments 2000)
    (mkTopLikersWorld (1 # 4) (Returned (true, Some [])) quarter (Returned tt)
       (Returned "thanks") (Returned true))
    (mkThoughtWorld (Returned tt) (Returned "a thought")
       (Returned "https://cdn/audio.mp3") (Returned true))
    (mkAgentChatWorld (Returned (true, Some [sample_message])) (Returned tt)
       (Returned "hello peer") (Returned "https://cdn/audio.mp3")
       (Returned tt) 3000)
    (mkAnimationWorld (Returned tt) (Returned "floating") (Returned true))
    (Returned (true, true)).


(** The no-break space U+00A0 in UTF-8, and a stand-in for the [trim] of
    an engine, which strips it from the end of ["idle"]. *)
Definition no_break_space : string :=
  String (ascii_of_nat 194) (String (ascii_of_nat 160) EmptyString).

Definition trim_no_break_space (s : string) : string :=
  if String.eqb s ("idle" +:+ no_break_space) then "idle" else ascii_trim s.

(** Collaborators among which the speech service is down. *)
Definition mute_gift : GiftWorld :=
  mkGiftWorld (Returned tt) (Returned tt) (Returned "thank you") (3 # 4)
    (Threw "speech service unavailable") (Returned true) (Returned true).

Definition mute_thought : ThoughtWorld :=
  mkThoughtWorld (Returned tt) (Returned "a thought")
    (Threw "speech service unavailable") (Returned true).

Definition mute_comments : CommentsWorld :=
  mkCommentsWorld (Returned true) (fun _ => Returned tt) (Returned tt)
    (Returned "c-2") (Returned tt) (Returned tt) (Returned tt)
    (Returned (Some (Content.of_text (Some " fine, thanks "))))
    (Returned tt) (Returned "idle") (Threw "speech service unavailable")
    (Returned 200).

Definition mute_agent_chat : AgentChatWorld :=
  mkAgentChatWorld (Returned (true, Some [sample_message])) (Returned tt)
    (Returned "hello peer") (Threw "speech service unavailable")
    (Returned tt) 3000.

Definition mute_world : World :=
  mkWorld
    (mkGiftsWorld (Returned (true, Some [sample_gift; sample_rose]))
       (fun _ => mute_gift))
    (mkChatWorld (Returned (true, BodyObject (Some [sample_comment_a])))
       mute_comments 2000)
    (w_readAndRespondToTopLikers calm_world)
    mute_thought mute_agent_chat
    (w_generatePeriodicAnimation calm_world)
    (w_heartbeat calm_world).

(** Collaborators that all succeed, the generated content carrying an
    [animation] key of its own. *)
Definition dancing_comments : CommentsWorld :=
  mkCommentsWorld (Returned true) (fun _ => Returned tt) (Returned tt)
    (Returned "c-2") (Returned tt) (Returned tt) (Returned tt)
    (Returned (Some (Content.mk (Some " fine, thanks ") None None None None
                       None None None None None (Some (Some "silly_dancing"))
                       None)))
    (Returned tt) (Returned "idle") (Returned "https://cdn/audio.mp3")
    (Returned 200).

(** A batch of two comments meeting a generation service that fails when
    asked to select one of them. *)
Definition failing_selection : CommentsWorld :=
  mkCommentsWorld (Returned true) (fun _ => Returned tt) (Returned tt)
    (Threw "generation service unavailable") (Returned tt) (Returned tt)
    (Returned tt) (Returned None) (Returned tt) (Returned "idle")
    (Returned "https://cdn/audio.mp3") (Returned 200).

Definition failing_selection_chat : ChatWorld :=
  mkChatWorld
    (Returned (true, BodyObject (Some [sample_comment_a; sample_comment_b])))
    failing_selection 2000.

(** The gateway answering the comment fetch with an HTTP error. *)
Definition failing_fetch_chat : ChatWorld :=
  mkChatWorld (Returned (false, BodyObject None)) calm_comments 2000.

(** The gateway answering the comment fetch ok, with the body [null]. *)
Definition null_body_chat : ChatWorld :=
  mkChatWorld (Returned (true, BodyNull)) calm_comments 2000.

(** The room as this agent left it: its own message is the latest. *)
Definition own_message : RoomMessage.t :=
  RoomMessage.mk "m-2" "agent-1" "Aiko" "mine".

Definition own_message_chat : AgentChatWorld :=
  mkAgentChatWorld (Returned (true, Some [sample_message; own_message]))
    (Returned tt) (Returned "hello peer") (Returned "https://cdn/audio.mp3")
    (Returned tt) 3000.

(** ** Further vocabulary *)

(** The last step of [binary_round_aux] in binary64: a rounded mantissa [q]
    with exponent [fe] is brought back to at most 53 digits. *)
Definition renormalize (q fe : Z) : spec_float :=
  let '(mrs, e) := shr_fexp 53 1024 q fe loc_Exact in
  match shr_m mrs with
  | Z0 => S754_zero false
  | Zpos m => if e <=? 1024 - 53 then S754_finite false m e else S754_infinity false
  | Zneg _ => S754_nan
  end.

(** The fields of a descriptor that the registry declares once. *)
Definition static_fields (t : TaskPriority) : string * Z * Z :=
  (name t, priority t, minInterval t).

(** Two descriptors that agree on everything the eligibility test reads. *)
Definition same_timing (t t' : TaskPriority) : Prop :=
  minInterval t = minInterval t' /\ lastRun t = lastRun t' /\
  isRunning t = isRunning t'.

(** A computation that fulfils from every client state. *)
Definition never_rejects {A} (m : M A) : Prop :=
  forall c, exists a, result_of m c = Returned a.

Definition is_markGiftsAsRead (e : effect) : bool :=
  match e with
  | EMarkGiftsAsRead _ => true
  | _ => false
  end.

Definition is_markCommentsAsRead (e : effect) : bool :=
  match e with
  | EMarkCommentsAsRead _ => true
  | _ => false
  end.

Definition is_giftMemory (e : effect) : bool :=
  match e with
  | ECreateGiftMemory _ => true
  | _ => false
  end.

Definition is_putStatus (e : effect) : bool :=
  match e with
  | EPutStatus => true
  | _ => false
  end.

Definition is_databaseLog (e : effect) : bool :=
  match e with
  | EDatabaseLog => true
  | _ => false
  end.

(** The request for the animation that goes with a chat reply. *)
Definition is_animationRequest (e : effect) : bool :=
  match e with
  | EGenerateText GMessageAnimation => true
  | _ => false
  end.

Definition is_speech (e : effect) : bool :=
  match e with
  | EGenerateSpeech _ => true
  | _ => false
  end.

(** The registry with its priorities reversed (5 for [readGifts], 1 for
    [heartbeat]), in the declared order. *)
Definition reprioritized_taskQueue : list TaskPriority :=
  [ mkTask "readGifts" 5 (1000 * 25) None None;
    mkTask "readChatAndReply" 5 (1000 * 20) None None;
    mkTask "readAndRespondToTopLikers" 4 (1000 * 90) None None;
    mkTask "generateFreshThought" 4 (1000 * 30 * 1) None None;
    mkTask "readAgentChatAndReply" 3 (1000 * 60 * 1) None None;
    mkTask "generatePeriodicAnimation" 2 (1000 * 20) None None;
    mkTask "heartbeat" 1 (1000 * 5) None None ].

(** Text made of whitespace only. *)
Fixpoint all_whitespace (s : string) : bool :=
  match s with
  | String c s' => is_whitespace c && all_whitespace s'
  | EmptyString => true
  end.

(** [animation.trim().toLowerCase()], as the periodic-animation job cleans
    the generated text, on ASCII text. *)
Definition clean_animation (animation : string) : string :=
  ascii_toLowerCase (ascii_trim animation).

Definition is_postAnimation (e : effect) : bool :=
  match e with
  | EPostAnimation _ => true
  | _ => false
  end.

(** The [identifier] of the status update (line 511 of the client):
    [name.toLowerCase().replace(/[^\w\s]/g, '').replace(/\s+/g, '_')], on
    ASCII text. [\w] is a letter, a digit or the underscore. *)
Definition is_word_char (c : ascii) : bool :=
  let n := nat_of_ascii c in
  ((48 <=? n)%nat && (n <=? 57)%nat) || ((65 <=? n)%nat && (n <=? 90)%nat) ||
  ((97 <=? n)%nat && (n <=? 122)%nat) || (n =? 95)%nat.

(** [replace(/[^\w\s]/g, '')]. *)
Fixpoint strip_non_word (s : string) : string :=
  match s with
  | String c s' =>
      if is_word_char c || is_whitespace c then String c (strip_non_word s')
      else strip_non_word s'
  | EmptyString => EmptyString
  end.

(** [replace(/\s+/g, '_')]: every maximal run of whitespace becomes one
    underscore. [in_run] tells that the previous character was whitespace. *)
Fixpoint collapse_whitespace (in_run : bool) (s : string) : string :=
  match s with
  | String c s' =>
      if is_whitespace c then
        if in_run then collapse_whitespace true s'
        else String "_" (collapse_whitespace true s')
      else String c (collapse_whitespace false s')
  | EmptyString => EmptyString
  end.

Definition stream_identifier (characterName : string) : string :=
  collapse_whitespace false (strip_non_word (ascii_toLowerCase characterName)).

(** A lowercase letter, a digit or the underscore. *)
Definition is_slug_char (c : ascii) : bool :=
  let n := nat_of_ascii c in
  ((48 <=? n)%nat && (n <=? 57)%nat) || ((97 <=? n)%nat && (n <=? 122)%nat) ||
  (n =? 95)%nat.

Fixpoint all_slug (s : string) : bool :=
  match s with
  | String c s' => is_slug_char c && all_slug s'
  | EmptyString => true
  end.

(** The effects each job can have: its own gateway endpoints, the
    services it calls, and the console. *)
Definition job_footprint (task_name : string) (e : effect) : bool :=
  if String.eqb task_name "readGifts" then
    match e with
    | EFetchUnreadGifts | ECreateGiftMemory _ | EComposeState
    | EGenerateText GGiftResponse | EGenerateSpeech _ | EPostAIResponse _
    | EMarkGiftsAsRead _ | EConsoleError _ => true
    | _ => false
    end
  else if String.eqb task_name "readChatAndReply" then
    match e with
    | EFetchUnreadComments _ | EMarkCommentsAsRead _ | EComposeState
    | EGenerateText GSelectComment | EGenerateText GMessageAnimation
    | EEnsureConnection _ | ECreateMemory _ _ | EGenerateMessageResponse
    | EDatabaseLog | EGenerateSpeech _ | EPostAIResponse _
    | EConsoleError _ => true
    | _ => false
    end
  else if String.eqb task_name "readAndRespondToTopLikers" then
    match e with
    | EFetchTopLikers _ | EComposeState | EGenerateText GTopLiker
    | EPostAIResponse _ | EConsoleError _ => true
    | _ => false
    end
  else if String.eqb task_name "generateFreshThought" then
    match e with
    | EComposeState | EGenerateText GFreshThought | EGenerateSpeech _
    | EPostAIResponse _ | EConsoleError _ => true
    | _ => false
    end
  else if String.eqb task_name "readAgentChatAndReply" then
    match e with
    | EFetchRoomMessages | EComposeState | EGenerateText GAgentChat
    | EGenerateSpeech _ | EPostRoomMessage _ _ | EConsoleError _ => true
    | _ => false
    end
  else if String.eqb task_name "generatePeriodicAnimation" then
    match e with
    | EComposeState | EGenerateText GPeriodicAnimation | EPostAnimation _
    | EConsoleWarn _ | EConsoleError _ => true
    | _ => false
    end
  else if String.eqb task_name "heartbeat" then
    match e with
    | EPutStatus | EConsoleError _ => true
    | _ => false
    end
  else false.

(** * Properties *)

(** ** Frame rules of the job monad *)

Section Frame.

Context (R : relation AikoClient) `{!PreOrder R}.

Lemma preserves_ret {A} (a : A) : preserves R (ret a).
Proof. intros c. unfold final_client. simpl. reflexivity. Qed.

Lemma preserves_throw {A} e : preserves R (@throw A e).
Proof. intros c. unfold final_client. simpl. reflexivity. Qed.

Lemma preserves_emit e : preserves R (emit e).
Proof. intros c. unfold final_client. simpl. reflexivity. Qed.

Lemma preserves_call {A} e (o : outcome A) : preserves R (call e o).
Proof. intros c. unfold final_client. simpl. reflexivity. Qed.

Lemma preserves_get_client : preserves R get_client.
Proof. intros c. unfold final_client. simpl. reflexivity. Qed.

Lemma preserves_modify_client f :
  (forall c, R c (f c)) -> preserves R (modify_client f).
Proof. intros Hf c. unfold final_client. simpl. apply Hf. Qed.

Lemma preserves_bind {A B} (m : M A) (k : A -> M B) :
  preserves R m -> (forall a, preserves R (k a)) -> preserves R (bind m k).
Proof.
  unfold preserves, final_client. intros Hm Hk c. specialize (Hm c). simpl.
  destruct (run m c) as [[tr1 c1] [a | e]]; simpl in *; [| exact Hm].
  specialize (Hk a c1).
  destruct (run (k a) c1) as [[tr2 c2] r]; simpl in *.
  by transitivity c1.
Qed.

Lemma preserves_try_catch {A} (m : M A) (h : string -> M A) :
  preserves R m -> (forall e, preserves R (h e)) -> preserves R (try_catch m h).
Proof.
  unfold preserves, final_client. intros Hm Hh c. specialize (Hm c). simpl.
  destruct (run m c) as [[tr1 c1] [a | e]]; simpl in *; [exact Hm |].
  specialize (Hh e c1).
  destruct (run (h e) c1) as [[tr2 c2] r]; simpl in *.
  by transitivity c1.
Qed.

Lemma preserves_try_finally {A} (m : M A) (f : M unit) :
  preserves R m -> preserves R f -> preserves R (try_finally m f).
Proof.
  unfold preserves, final_client. intros Hm Hf c. specialize (Hm c). simpl.
  destruct (run m c) as [[tr1 c1] r]; simpl in *.
  specialize (Hf c1).
  destruct (run f c1) as [[tr2 c2] [[] | e]]; simpl in *; by transitivity c1.
Qed.

Lemma preserves_read_binding {A} x (b : binding A) :
  preserves R (read_binding x b).
Proof. destruct b; [apply preserves_throw | apply preserves_ret]. Qed.

Lemma preserves_allSettled {A} (tasks : list (M A)) :
  Forall (preserves R) tasks -> preserves R (allSettled tasks).
Proof.
  induction 1 as [| t rest Ht _ IH]; [apply preserves_ret |].
  unfold preserves, final_client in *. intros c. specialize (Ht c). simpl.
  destruct (run t c) as [[tr1 c1] r]; simpl in *.
  specialize (IH c1).
  destruct (run (allSettled rest) c1) as [[tr2 c2] [rs | e]]; simpl in *;
    by transitivity c1.
Qed.

End Frame.

Create HintDb frame.

#[local] Hint Resolve preserves_ret preserves_throw preserves_emit
  preserves_call preserves_get_client preserves_read_binding : frame.

(** One step of a frame proof: peel the outermost construct of the body. *)
Ltac frame_step :=
  lazymatch goal with
  | |- preserves _ (bind _ _) => refine (preserves_bind _ _ _ _ _); [| intros ?]
  | |- preserves _ (try_catch _ _) =>
      refine (preserves_try_catch _ _ _ _ _); [| intros ?]
  | |- preserves _ (try_finally _ _) => refine (preserves_try_finally _ _ _ _ _)
  | |- preserves _ (if ?b then _ else _) => destruct b
  | |- preserves _ (match ?x with _ => _ end) => destruct x
  | |- preserves _ (let _ := _ in _) => cbv zeta
  | |- preserves _ _ => solve [eauto with frame typeclass_instances]
  end.

Ltac frame :=
  unfold mbind, M_bind, mret, M_ret, console_error, console_warn,
    generateSpeech in *;
  repeat frame_step.

Section JobFrames.

Context (R : relation AikoClient) `{!PreOrder R}.
Variable parseJSONObjectFromText : string -> option Parsed.t.
Variables trim toLowerCase : string -> string.

Lemma heartbeat_preserves http : preserves R (heartbeat http).
Proof. unfold heartbeat, updateStreamingStatus. frame. Qed.

Lemma readAndRespondToTopLikers_preserves w :
  preserves R (readAndRespondToTopLikers parseJSONObjectFromText w).
Proof. unfold readAndRespondToTopLikers, fetchTopLikers. frame. Qed.

Lemma processGift_preserves gift w :
  preserves R (processGift parseJSONObjectFromText gift w).
Proof. unfold processGift, markGiftsAsRead. frame. Qed.

#[local] Hint Resolve processGift_preserves : frame.

Lemma processGifts_preserves gifts ws i :
  preserves R (processGifts parseJSONObjectFromText gifts ws i).
Proof.
  revert i. induction gifts as [| g rest IH]; intros i; cbn [processGifts]; frame.
Qed.

#[local] Hint Resolve processGifts_preserves : frame.

Lemma readGifts_preserves w :
  preserves R (readGifts parseJSONObjectFromText w).
Proof. unfold readGifts, fetchUnreadGifts. frame. Qed.

Lemma generateAndShareFreshThought_preserves w :
  preserves R (generateAndShareFreshThought w).
Proof. unfold generateAndShareFreshThought, generateFreshThought. frame. Qed.

Lemma generateAndSharePeriodicAnimation_preserves w :
  preserves R (generateAndSharePeriodicAnimation trim toLowerCase w).
Proof. unfold generateAndSharePeriodicAnimation. frame. Qed.

Lemma comment_memory_task_preserves um uid ct agent cm comment :
  preserves R (comment_memory_task um uid ct agent cm comment).
Proof. unfold comment_memory_task. frame. Qed.

#[local] Hint Resolve comment_memory_task_preserves : frame.

Lemma comment_memory_tasks_preserve um uid ct agent cm comments :
  preserves R
    (allSettled (map (comment_memory_task um uid ct agent cm) comments)).
Proof.
  apply preserves_allSettled; [done |]. apply Forall_forall. intros t Ht.
  apply list_elem_of_fmap in Ht as (x & -> & _).
  apply comment_memory_task_preserves.
Qed.

#[local] Hint Resolve comment_memory_tasks_preserve : frame.

Lemma processComments_preserves comments w :
  preserves R (processComments trim comments w).
Proof.
  unfold processComments, markCommentsAsRead, chooseCommentId,
    selectCommentToRespondTo, respondToSelected, _generateResponse.
  frame.
Qed.

#[local] Hint Resolve processComments_preserves : frame.

Section Marks.

Hypothesis R_set_lastProcessedTimestamp :
  forall t c, R c (set_lastProcessedTimestamp t c).

Lemma set_lastProcessedTimestamp_preserves t :
  preserves R (modify_client (set_lastProcessedTimestamp t)).
Proof. apply preserves_modify_client. intros c. apply R_set_lastProcessedTimestamp. Qed.

#[local] Hint Resolve set_lastProcessedTimestamp_preserves : frame.

Lemma readChatAndReply_preserves w : preserves R (readChatAndReply trim w).
Proof.
  unfold readChatAndReply, fetchUnreadComments, destructure_comments. frame.
Qed.

Hypothesis R_set_lastAgentChatMessageId :
  forall i c, R c (set_lastAgentChatMessageId i c).

Lemma set_lastAgentChatMessageId_preserves i :
  preserves R (modify_client (set_lastAgentChatMessageId i)).
Proof. apply preserves_modify_client. intros c. apply R_set_lastAgentChatMessageId. Qed.

#[local] Hint Resolve set_lastAgentChatMessageId_preserves : frame.

Lemma readAgentChatAndReply_preserves w :
  preserves R (readAgentChatAndReply parseJSONObjectFromText w).
Proof. unfold readAgentChatAndReply. frame. Qed.

#[local] Hint Resolve readGifts_preserves readChatAndReply_preserves
  readAndRespondToTopLikers_preserves generateAndShareFreshThought_preserves
  readAgentChatAndReply_preserves generateAndSharePeriodicAnimation_preserves
  heartbeat_preserves : frame.

Lemma dispatch_preserves task_name w :
  preserves R (dispatch parseJSONObjectFromText trim toLowerCase task_name w).
Proof. unfold dispatch. frame. Qed.

End Marks.

End JobFrames.

(** ** The scheduler: selection *)

Lemma eligible_spec now t :
  eligible now t = true <->
  isRunning t ≠ Some true /\ minInterval t <= now - default 0 (lastRun t).
Proof.
  unfold eligible, num_or, truthy_bool.
  destruct t as [n p mi [l |] [[] |]]; simpl;
    try destruct (Z.eqb_spec l 0); subst; simpl;
    rewrite ?Z.leb_le; split; intros; try done; try (split; [done | lia]);
    try (destruct H; done); try lia.
Qed.

Lemma find_eligible_Some now q i t :
  find_eligible now q = Some (i, t) <->
  q !! i = Some t /\ eligible now t = true /\
  forall j t', q !! j = Some t' -> (j < i)%nat -> eligible now t' = false.
Proof.
  unfold find_eligible. rewrite list_find_Some.
  split; intros (Hi & Ht & Hfirst); split_and!; try done; intros j t' Hj Hlt.
  - specialize (Hfirst j t' Hj Hlt). by destruct (eligible now t').
  - rewrite (Hfirst j t' Hj Hlt). done.
Qed.

Lemma find_eligible_None now q :
  find_eligible now q = None <-> Forall (fun t => eligible now t = false) q.
Proof.
  unfold find_eligible. rewrite list_find_None.
  apply Forall_proper; [| done]. intros t. by destruct (eligible now t).
Qed.

Lemma run_tick_start now c :
  run (tick_start now) c =
  match find_eligible now (taskQueue c) with
  | None => ([], c, Returned None)
  | Some (i, t) =>
      ([ETaskWrite i (WIsRunning true)],
       set_taskQueue (alter (set_isRunning true) i (taskQueue c)) c,
       Returned (Some (i, t)))
  end.
Proof.
  unfold tick_start. cbn -[find_eligible].
  by destruct (find_eligible now (taskQueue c)) as [[i t] |].
Qed.

Lemma run_tick_finally i done c :
  run (tick_finally i done) c =
  ([ETaskWrite i (WLastRun done); ETaskWrite i (WIsRunning false)],
   set_taskQueue
     (alter (set_isRunning false) i (alter (set_lastRun done) i (taskQueue c))) c,
   Returned tt).
Proof. by destruct c. Qed.

Lemma run_processNextTask_idle parse trim toLowerCase now w done c :
  find_eligible now (taskQueue c) = None ->
  run (processNextTask parse trim toLowerCase now w done) c = ([], c, Returned tt).
Proof.
  intros Hnone. unfold processNextTask.
  change (run (bind ?m ?k) c) with
    (match run m c with
     | (tr1, c1, Returned a) =>
         match run (k a) c1 with (tr2, c2, r) => (tr1 ++ tr2, c2, r) end
     | (tr1, c1, Threw e) => (tr1, c1, Threw e)
     end).
  by rewrite run_tick_start, Hnone.
Qed.

Lemma run_processNextTask_started parse trim toLowerCase now w done c i t :
  find_eligible now (taskQueue c) = Some (i, t) ->
  run (processNextTask parse trim toLowerCase now w done) c =
  let started := set_taskQueue (alter (set_isRunning true) i (taskQueue c)) c in
  let body := dispatch parse trim toLowerCase (name t) w in
  let settled := final_client body started in
  (ETaskWrite i (WIsRunning true) ::
     trace_of body started ++ error_log (name t) (result_of body started) ++
     [ETaskWrite i (WLastRun done); ETaskWrite i (WIsRunning false)],
   set_taskQueue
     (alter (set_isRunning false) i
        (alter (set_lastRun done) i (taskQueue settled))) settled,
   Returned tt).
Proof.
  intros Hsome. unfold processNextTask.
  change (run (bind ?m ?k) c) with
    (match run m c with
     | (tr1, c1, Returned a) =>
         match run (k a) c1 with (tr2, c2, r) => (tr1 ++ tr2, c2, r) end
     | (tr1, c1, Threw e) => (tr1, c1, Threw e)
     end).
  rewrite run_tick_start, Hsome.
  cbn -[dispatch tick_finally]. unfold trace_of, result_of, final_client.
  destruct (run (dispatch parse trim toLowerCase (name t) w) _) as [[tr c2] [[] | e]];
    cbn -[tick_finally]; rewrite run_tick_finally; simpl.
  - done.
  - by rewrite <- app_assoc.
Qed.

(** ** The scheduler under the timer: running flags and outstanding bodies *)

Lemma running_iff_outstanding_init rt now :
  running_iff_outstanding (new_AikoClient rt now, []).
Proof.
  intros i t Hi. simpl in *. rewrite elem_of_nil.
  assert (Hin : t ∈ initial_taskQueue) by (eapply list_elem_of_lookup_2; eauto).
  unfold initial_taskQueue in Hin.
  repeat (apply elem_of_cons in Hin as [-> | Hin]; [by simpl |]).
  by apply elem_of_nil in Hin.
Qed.

Lemma running_iff_outstanding_step s e s' :
  running_iff_outstanding s -> sched_step s e = Some s' ->
  running_iff_outstanding s'.
Proof.
  destruct s as [c outs]. intros Hinv Hstep.
  destruct e as [now | i done]; cbn -[tick_start tick_finally] in Hstep.
  - rewrite run_tick_start in Hstep.
    destruct (find_eligible now (taskQueue c)) as [[i t] |] eqn:Hfind;
      simplify_eq; [| done].
    apply find_eligible_Some in Hfind as (Hi & Hel & _).
    intros j t' Hj. simpl in *. destruct (decide (i = j)) as [<- | Hne].
    + rewrite list_lookup_alter_eq, Hi in Hj. simplify_eq/=.
      split; [intros _; apply list_elem_of_here | done].
    + rewrite list_lookup_alter_ne in Hj by done.
      rewrite elem_of_cons, (Hinv j t' Hj). simpl.
      split; [by right | by intros [-> | ?]].
  - case_bool_decide; [| done]. rewrite run_tick_finally in Hstep. simplify_eq.
    intros j t' Hj. simpl in *. rewrite list_elem_of_filter.
    destruct (decide (i = j)) as [<- | Hne].
    + rewrite !list_lookup_alter_eq in Hj.
      destruct (taskQueue c !! i) as [t |]; simplify_eq/=.
      split; [done | by intros [? _]].
    + rewrite !list_lookup_alter_ne in Hj by done.
      rewrite (Hinv j t' Hj). simpl.
      split; [by split; [congruence |] | by intros [_ ?]].
Qed.

Lemma running_iff_outstanding_run es : forall s s',
  running_iff_outstanding s -> sched_run s es = Some s' ->
  running_iff_outstanding s'.
Proof.
  induction es as [| e es IH]; intros s s' Hinv Hrun; simpl in Hrun.
  - by simplify_eq.
  - destruct (sched_step s e) as [s1 |] eqn:Hstep; [| done].
    eapply IH; [| done]. by eapply running_iff_outstanding_step.
Qed.


(** ** The scheduler: bookkeeping of one tick *)

Lemma dispatch_same_taskQueue parse trim toLowerCase task_name w c :
  taskQueue (final_client (dispatch parse trim toLowerCase task_name w) c) = taskQueue c.
Proof.
  assert (Hpre : PreOrder same_taskQueue).
  { split; [done |]. intros x y z Hxy Hyz. unfold same_taskQueue in *. congruence. }
  by apply (dispatch_preserves same_taskQueue parse trim toLowerCase).
Qed.


(** ** Properties of the scheduler *)

(** C1 (defect). Global mutual exclusion does not hold. From the fresh
    registry, a tick at 1700000000000 starts [readGifts]; while its body is
    still outstanding the next tick, one second later, starts
    [readChatAndReply]. Two descriptors are then marked running and two job
    bodies are outstanding, against the sequential execution that the
    documentation of [processNextTask] promises. *)
Theorem second_job_starts_while_first_is_outstanding :
  exists c,
    sched_run (new_AikoClient sample_runtime 1699999999000, [])
      [Timer 1700000000000; Timer 1700000001000] = Some (c, [1; 0]%nat) /\
    name <$> taskQueue c !! 0%nat = Some "readGifts" /\
    isRunning <$> taskQueue c !! 0%nat = Some (Some true) /\
    name <$> taskQueue c !! 1%nat = Some "readChatAndReply" /\
    isRunning <$> taskQueue c !! 1%nat = Some (Some true) /\
    running_count (taskQueue c) = 2%nat.
Proof. eexists. split; [vm_compute; reflexivity |]. by vm_compute. Qed.

(** C2, counterexample. One second after the epoch the fresh registry has
    every [lastRun] missing; were a missing [lastRun] to make a job eligible
    immediately, the tick would select [readGifts]. The code reads the
    missing [lastRun] as 0, finds no job eligible and the tick does
    nothing. *)
Lemma missing_lastRun_not_eligible_at_1000 :
  lastRun (mkTask "readGifts" 1 25000 None None) = None /\
  spec_eligible 1000 (mkTask "readGifts" 1 25000 None None) = true /\
  list_find (fun t => spec_eligible 1000 t = true) initial_taskQueue
    = Some (0%nat, mkTask "readGifts" 1 25000 None None) /\
  eligible 1000 (mkTask "readGifts" 1 25000 None None) = false /\
  find_eligible 1000 initial_taskQueue = None /\
  run (processNextTask sample_parse ascii_trim ascii_toLowerCase 1000 calm_world 1500)
      (new_AikoClient sample_runtime 0)
    = ([], new_AikoClient sample_runtime 0, Returned tt).
Proof. by vm_compute. Qed.

(** C2 (amended). For every client state and clock reading [now], a tick
    selects the first task in registry order that is not marked running and
    for which [now - (lastRun or 0) >= minInterval]: a missing [lastRun] is
    read as 0, so a task that never ran is eligible once
    [now >= minInterval]. If no task satisfies the predicate the tick
    returns without any effect and leaves the client as it was. Whenever all
    tasks of a registry in the fixed order are eligible, [readGifts] is
    selected, and that is the case of the fresh registry at any clock
    reading of at least 90000. *)
Theorem tick_selects_first_eligible (now : Z) (c : AikoClient) :
  (forall t, eligible now t = true <->
     isRunning t ≠ Some true /\ minInterval t <= now - default 0 (lastRun t)) /\
  result_of (tick_start now) c = Returned (find_eligible now (taskQueue c)) /\
  (forall i t, find_eligible now (taskQueue c) = Some (i, t) <->
     taskQueue c !! i = Some t /\ eligible now t = true /\
     forall j t', taskQueue c !! j = Some t' -> (j < i)%nat ->
       eligible now t' = false) /\
  (Forall (fun t => eligible now t = false) (taskQueue c) ->
   forall parse trim toLowerCase w done,
     run (processNextTask parse trim toLowerCase now w done) c
       = ([], c, Returned tt)) /\
  (name <$> taskQueue c = name <$> initial_taskQueue ->
   Forall (fun t => eligible now t = true) (taskQueue c) ->
   exists t, find_eligible now (taskQueue c) = Some (0%nat, t) /\
             name t = "readGifts") /\
  (90000 <= now -> Forall (fun t => eligible now t = true) initial_taskQueue).
Proof.
  split_and!.
  - apply eligible_spec.
  - unfold result_of. rewrite run_tick_start.
    by destruct (find_eligible now (taskQueue c)) as [[i t] |].
  - apply find_eligible_Some.
  - intros Hnone parse trim toLowerCase w done. apply run_processNextTask_idle.
    by apply find_eligible_None.
  - intros Hnames Hall. destruct (taskQueue c) as [| t rest]; [done |].
    exists t. apply Forall_cons in Hall as [Ht _]. split.
    + apply find_eligible_Some. split_and!; [done | done | intros; lia].
    + by simplify_eq/=.
  - intros Hnow. unfold initial_taskQueue.
    repeat (apply Forall_cons; split; [apply eligible_spec; simpl; split; [done | lia] |]).
    apply Forall_nil_2.
Qed.

(** The fresh registry at a present-day clock reading: [readGifts] is the
    first eligible task. *)
Lemma tick_selects_first_eligible_witness :
  find_eligible 1700000000000 initial_taskQueue
    = Some (0%nat, mkTask "readGifts" 1 25000 None None) /\
  (exists t, find_eligible 1700000000000 initial_taskQueue = Some (0%nat, t) /\
             name t = "readGifts").
Proof.
  destruct (tick_selects_first_eligible 1700000000000
              (new_AikoClient sample_runtime 1700000000000))
    as (_ & _ & Hfirst & _ & Hhead & Hall).
  split.
  - apply Hfirst. split_and!; [reflexivity | reflexivity |]. intros j t' _ Hlt. lia.
  - apply Hhead; [reflexivity |]. apply Hall. lia.
Defined.




(** ** Comment processing *)

Lemma run_bind {A B} (m : M A) (k : A -> M B) c :
  run (bind m k) c =
  match run m c with
  | (tr1, c1, Returned a) =>
      match run (k a) c1 with (tr2, c2, r) => (tr1 ++ tr2, c2, r) end
  | (tr1, c1, Threw e) => (tr1, c1, Threw e)
  end.
Proof. reflexivity. Qed.

Lemma run_try_catch {A} (m : M A) (h : string -> M A) c :
  run (try_catch m h) c =
  match run m c with
  | (tr1, c1, Returned a) => (tr1, c1, Returned a)
  | (tr1, c1, Threw e) =>
      match run (h e) c1 with (tr2, c2, r) => (tr1 ++ tr2, c2, r) end
  end.
Proof. reflexivity. Qed.

(** Every callback of the [allSettled] step is rejected on reading
    [userMessage], before it reaches [createMemory]. *)
Lemma run_comment_memory_task agent cm comment c :
  run (comment_memory_task Uninitialized Uninitialized Uninitialized agent cm comment) c
  = ([], c, Threw (tdz_error "userMessage")).
Proof. reflexivity. Qed.

Lemma run_comment_memory_loop agent cm comments c :
  run (allSettled
         (map (comment_memory_task Uninitialized Uninitialized Uninitialized agent cm)
            comments)) c
  = ([], c, Returned (map (fun _ => Threw (tdz_error "userMessage")) comments)).
Proof.
  induction comments as [| x xs IH]; [reflexivity |].
  cbn [map allSettled run]. rewrite run_comment_memory_task, IH. reflexivity.
Qed.

Lemma run_processComments trim x xs w c :
  let comments := x :: xs in
  let ids := map IComment.id comments in
  run (processComments trim comments w) c =
  match run (chooseCommentId comments w) c with
  | (tr_sel, c1, Threw e) => (mark_trace ids (cw_markRead w) ++ tr_sel, c1, Threw e)
  | (tr_sel, c1, Returned selectedCommentId) =>
      if negb (truthy_str selectedCommentId) then
        (mark_trace ids (cw_markRead w) ++ tr_sel, c1, Returned ids)
      else
        match find (fun comment =>
                      bool_decide (Some (IComment.id comment) = selectedCommentId))
                comments with
        | None =>
            (mark_trace ids (cw_markRead w) ++ tr_sel ++
               [EConsoleError "Selected comment not found:"], c1, Returned ids)
        | Some selectedComment =>
            match run (respondToSelected trim selectedComment w) c1 with
            | (tr_r, c2, Returned _) =>
                (mark_trace ids (cw_markRead w) ++ tr_sel ++ tr_r, c2, Returned ids)
            | (tr_r, c2, Threw e) =>
                (mark_trace ids (cw_markRead w) ++ tr_sel ++ tr_r, c2, Threw e)
            end
        end
  end.
Proof.
  intros comments ids. unfold processComments. fold comments. fold ids.
  change (length ids =? 0)%nat with false. cbv iota.
  unfold mbind, M_bind.
  rewrite run_bind. change (run get_client c) with ([] : list effect, c, Returned c).
  cbv iota. rewrite run_bind.
  assert (Hmark : run (try_catch
            (bind (markCommentsAsRead ids (cw_markRead w)) (fun _ => mret tt))
            (fun _ => console_error "aiko: Failed to mark comments as read")) c
          = (mark_trace ids (cw_markRead w), c, Returned tt)).
  { unfold markCommentsAsRead, mark_trace. by destruct (cw_markRead w). }
  rewrite Hmark. cbv iota. rewrite run_bind, run_comment_memory_loop. cbv iota.
  rewrite run_bind.
  destruct (run (chooseCommentId comments w) c) as [[tr_sel c1] [sel | e]];
    [| done].
  destruct (negb (truthy_str sel)); [by cbn; rewrite app_nil_r |].
  destruct (find _ comments) as [sc |].
  - rewrite run_bind.
    destruct (run (respondToSelected trim sc w) c1) as [[tr_r c2] [[] | e]];
      cbn; by rewrite ?app_nil_r.
  - done.
Qed.

(** *** Effect rules of the job monad *)

Section Emits.

Context (P : effect -> Prop).

Lemma emits_ret {A} (a : A) : emits P (ret a).
Proof. intros c. constructor. Qed.

Lemma emits_throw {A} e : emits P (@throw A e).
Proof. intros c. constructor. Qed.

Lemma emits_get_client : emits P get_client.
Proof. intros c. constructor. Qed.

Lemma emits_modify_client f : emits P (modify_client f).
Proof. intros c. constructor. Qed.

Lemma emits_emit e : P e -> emits P (emit e).
Proof. intros He c. by repeat constructor. Qed.

Lemma emits_call {A} e (o : outcome A) : P e -> emits P (call e o).
Proof. intros He c. by repeat constructor. Qed.

Lemma emits_bind {A B} (m : M A) (k : A -> M B) :
  emits P m -> (forall a, emits P (k a)) -> emits P (bind m k).
Proof.
  unfold emits, trace_of. intros Hm Hk c. specialize (Hm c). simpl.
  destruct (run m c) as [[tr1 c1] [a | e]]; simpl in *; [| exact Hm].
  specialize (Hk a c1).
  destruct (run (k a) c1) as [[tr2 c2] r]; simpl in *.
  by apply Forall_app.
Qed.

Lemma emits_try_catch {A} (m : M A) (h : string -> M A) :
  emits P m -> (forall e, emits P (h e)) -> emits P (try_catch m h).
Proof.
  unfold emits, trace_of. intros Hm Hh c. specialize (Hm c). simpl.
  destruct (run m c) as [[tr1 c1] [a | e]]; simpl in *; [exact Hm |].
  specialize (Hh e c1).
  destruct (run (h e) c1) as [[tr2 c2] r]; simpl in *.
  by apply Forall_app.
Qed.

End Emits.

Create HintDb emits.

#[local] Hint Resolve emits_ret emits_throw emits_get_client
  emits_modify_client : emits.

Ltac emits_step :=
  lazymatch goal with
  | |- emits _ (bind _ _) => refine (emits_bind _ _ _ _ _); [| intros ?]
  | |- emits _ (try_catch _ _) => refine (emits_try_catch _ _ _ _ _); [| intros ?]
  | |- emits _ (emit _) => refine (emits_emit _ _ _); try done
  | |- emits _ (call _ _) => refine (emits_call _ _ _ _); try done
  | |- emits _ (if ?b then _ else _) => destruct b
  | |- emits _ (match ?x with _ => _ end) => destruct x
  | |- emits _ (let _ := _ in _) => cbv zeta
  | |- emits _ _ => solve [eauto with emits]
  end.

Ltac emits_tac :=
  unfold mbind, M_bind, mret, M_ret, console_error, console_warn,
    generateSpeech in *;
  repeat emits_step.

Lemma comment_memory_tasks_emit P agent cm comments :
  emits P
    (allSettled
       (map (comment_memory_task Uninitialized Uninitialized Uninitialized agent cm)
          comments)).
Proof.
  intros c. unfold trace_of. rewrite run_comment_memory_loop. constructor.
Qed.

#[local] Hint Resolve comment_memory_tasks_emit : emits.

Lemma filter_none {A} (p : A -> bool) (l : list A) :
  Forall (fun x => p x = false) l -> filter (fun x => p x = true) l = [].
Proof.
  induction 1 as [| x l Hx _ IH]; [done |].
  rewrite filter_cons_False; [done |]. congruence.
Qed.

Lemma respondToSelected_no_selection_call trim selectedComment w :
  emits (fun e => e ≠ EGenerateText GSelectComment)
    (respondToSelected trim selectedComment w).
Proof. unfold respondToSelected, _generateResponse. emits_tac. Qed.

Lemma run_chooseCommentId_single x w c :
  run (chooseCommentId [x] w) c = ([], c, Returned (Some (IComment.id x))).
Proof. reflexivity. Qed.

Lemma run_chooseCommentId_many x y rest w c s :
  cw_select_composeState w = Returned tt ->
  cw_select_generateText w = Returned s ->
  run (chooseCommentId (x :: y :: rest) w) c =
  ([EComposeState; EGenerateText GSelectComment], c,
   Returned (if String.eqb s "NONE" then None else Some s)).
Proof.
  intros Hcs Hgen. unfold chooseCommentId, selectCommentToRespondTo.
  cbn. by rewrite Hcs, Hgen.
Qed.

Lemma find_comment_None s (comments : list IComment.t) :
  Forall (fun comment => IComment.id comment ≠ s) comments ->
  find (fun comment => bool_decide (Some (IComment.id comment) = Some s)) comments
  = None.
Proof.
  induction 1 as [| x xs Hx _ IH]; [done |]. simpl.
  rewrite bool_decide_eq_false_2; [done |]. congruence.
Qed.

Lemma find_comment_single x :
  find (fun comment =>
          bool_decide (Some (IComment.id comment) = Some (IComment.id x))) [x]
  = Some x.
Proof. simpl. by rewrite bool_decide_eq_true_2. Qed.

Lemma mark_trace_no_selection_call ids http :
  Forall (fun e => e ≠ EGenerateText GSelectComment) (mark_trace ids http).
Proof. unfold mark_trace. destruct http; by repeat constructor. Qed.

(** C7. Comment selection. An empty batch has no effect at all. For a batch
    of one comment [selectedCommentId] is that comment's id, obtained
    without any effect, and no selection request reaches the generation
    service anywhere in [processComments]; when the id is non-empty, that
    comment is the one answered. For a batch of two or more the generation
    service is asked once for an id; if it answers ["NONE"] or an id that no
    comment of the batch carries, [processComments] returns after the
    selection, at most logging that the comment was not found: nothing is
    recorded, generated or published. *)
Theorem comment_selection
    (trim : string -> string) (w : CommentsWorld) (c : AikoClient) :
  run (processComments trim [] w) c = ([], c, Returned []) /\
  (forall x,
     run (chooseCommentId [x] w) c = ([], c, Returned (Some (IComment.id x))) /\
     (EGenerateText GSelectComment ∉ trace_of (processComments trim [x] w) c) /\
     (IComment.id x ≠ "" ->
      trace_of (processComments trim [x] w) c =
        mark_trace [IComment.id x] (cw_markRead w) ++
        trace_of (respondToSelected trim x w) c)) /\
  (forall x y rest s,
     cw_select_composeState w = Returned tt ->
     cw_select_generateText w = Returned s ->
     let comments := x :: y :: rest in
     trace_of (chooseCommentId comments w) c
       = [EComposeState; EGenerateText GSelectComment] /\
     (s = "NONE" \/ Forall (fun comment => IComment.id comment ≠ s) comments ->
      result_of (processComments trim comments w) c
        = Returned (map IComment.id comments) /\
      exists tail,
        trace_of (processComments trim comments w) c =
          mark_trace (map IComment.id comments) (cw_markRead w) ++
          [EComposeState; EGenerateText GSelectComment] ++ tail /\
        (tail = [] \/ tail = [EConsoleError "Selected comment not found:"]))).
Proof.
  split_and!.
  - reflexivity.
  - intros x. split_and!.
    + reflexivity.
    + unfold trace_of. rewrite run_processComments, run_chooseCommentId_single.
      pose proof (mark_trace_no_selection_call [IComment.id x] (cw_markRead w)) as Hm.
      pose proof (respondToSelected_no_selection_call trim x w c) as Hr.
      unfold trace_of in Hr.
      assert (Hall : forall tr : list effect,
        Forall (fun e => e ≠ EGenerateText GSelectComment) tr ->
        EGenerateText GSelectComment ∉ tr).
      { intros tr Htr Hin. by eapply (proj1 (Forall_forall _ _) Htr). }
      destruct (negb (truthy_str (Some (IComment.id x)))).
      { apply Hall. cbn [fst snd]. by rewrite app_nil_r. }
      rewrite find_comment_single.
      destruct (run (respondToSelected trim x w) c) as [[tr_r c2] [[] | e]];
        apply Hall; cbn [fst snd app] in *; by apply Forall_app.
    + intros Hid. unfold trace_of.
      rewrite run_processComments, run_chooseCommentId_single.
      assert (Htruthy : truthy_str (Some (IComment.id x)) = true)
        by (by destruct (IComment.id x)).
      rewrite Htruthy, find_comment_single. cbn [negb].
      by destruct (run (respondToSelected trim x w) c) as [[tr_r c2] [[] | e]].
  - intros x y rest s Hcs Hgen comments. split.
    + unfold trace_of. subst comments.
      by rewrite (run_chooseCommentId_many _ _ _ _ _ _ Hcs Hgen).
    + intros Hnone. unfold trace_of, result_of. subst comments.
      rewrite run_processComments,
        (run_chooseCommentId_many _ _ _ _ _ _ Hcs Hgen).
      destruct (String.eqb_spec s "NONE") as [-> | Hs].
      { cbn [truthy_str negb]. split; [done |]. exists []. by split; [| left]. }
      destruct Hnone as [-> | Hnone]; [done |].
      destruct (negb (truthy_str (Some s))).
      { split; [done |]. exists []. by split; [| left]. }
      rewrite (find_comment_None s _ Hnone).
      split; [done |]. exists [EConsoleError "Selected comment not found:"].
      by split; [| right].
Qed.

Lemma respondToSelected_memories trim selectedComment w c :
  memories_created (trace_of (respondToSelected trim selectedComment w) c) =
  match cw_ensureConnection w with
  | Returned _ =>
      if truthy_str (Some (IComment.message selectedComment)) then
        [ECreateMemory (memory_key (agentId (runtime c)) selectedComment)
           (Some (IComment.message selectedComment))]
      else []
  | Threw _ => []
  end.
Proof.
  unfold respondToSelected, _generateResponse, generateSpeech, trace_of,
    memories_created.
  destruct w as [mr lcm scs sgt ec cm cs gmr dl an sp po]. cbn.
  destruct ec as [[] | ?]; [| done].
  destruct (IComment.message selectedComment) as [| ch msg] eqn:Hmsg; cbn.
  - destruct cs as [[] | ?]; [| done].
    destruct gmr as [[rc |] | ?]; cbn; [| done | done].
    destruct dl as [[] | ?]; [| done].
    destruct an as [a | ?]; [| done].
    destruct sp as [u | ?], po as [st | ?]; cbn; try done;
      by destruct (st =? 200).
  - destruct cm as [[] | ?]; [| done].
    destruct cs as [[] | ?]; [| done].
    destruct gmr as [[rc |] | ?]; cbn; [| done | done].
    destruct dl as [[] | ?]; [| done].
    destruct an as [a | ?]; [| done].
    destruct sp as [u | ?], po as [st | ?]; cbn; try done;
      by destruct (st =? 200).
Qed.

Lemma memories_created_app tr1 tr2 :
  memories_created (tr1 ++ tr2) = memories_created tr1 ++ memories_created tr2.
Proof. apply filter_app. Qed.

Lemma memories_created_none tr :
  Forall (fun e => is_createMemory e = false) tr -> memories_created tr = [].
Proof.
  induction 1 as [| e tr He _ IH]; [done |].
  unfold memories_created in *. rewrite filter_cons_False; [done |]. congruence.
Qed.

Lemma chooseCommentId_no_memory comments w :
  emits (fun e => is_createMemory e = false) (chooseCommentId comments w).
Proof.
  unfold chooseCommentId, selectCommentToRespondTo.
  destruct comments as [| x [| y rest]]; emits_tac.
Qed.

Lemma chooseCommentId_same_client comments w c :
  final_client (chooseCommentId comments w) c = c.
Proof.
  assert (Hpre : preserves eq (chooseCommentId comments w)).
  { unfold chooseCommentId, selectCommentToRespondTo.
    destruct comments as [| x [| y rest]]; frame. }
  symmetry. apply Hpre.
Qed.

Lemma mark_trace_no_memory ids http : memories_created (mark_trace ids http) = [].
Proof. by destruct http. Qed.

Lemma find_comment_Some (comments : list IComment.t) sel sc :
  find (fun comment => bool_decide (Some (IComment.id comment) = sel)) comments
    = Some sc ->
  sc ∈ comments /\ sel = Some (IComment.id sc).
Proof.
  induction comments as [| x xs IH]; [done |]. simpl.
  case_bool_decide as Hx.
  - intros [= <-]. split; [left | done].
  - intros Hfind. destruct (IH Hfind) as [Hin Hsel]. split; [by right | done].
Qed.

(** C10. The [Promise.allSettled] step of [processComments] reads
    [userMessage], [userIdUUID] and [content] before their declarations:
    for every batch each of its callbacks is rejected with a
    [ReferenceError], the rejections are swallowed, and the step has no
    effect at all, so it creates no memory. Over the whole of
    [processComments] the only memory ever created is the one built
    separately for the selected comment. *)
Theorem comment_memory_loop_creates_nothing
    (trim : string -> string)
    (comments : list IComment.t) (w : CommentsWorld) (c : AikoClient) :
  let agent := agentId (runtime c) in
  run (allSettled
         (map (comment_memory_task Uninitialized Uninitialized Uninitialized
                 agent (cw_loop_createMemory w)) comments)) c
    = ([], c, Returned (map (fun _ => Threw (tdz_error "userMessage")) comments)) /\
  (memories_created (trace_of (processComments trim comments w) c) = [] \/
   exists selectedComment,
     selectedComment ∈ comments /\
     result_of (chooseCommentId comments w) c
       = Returned (Some (IComment.id selectedComment)) /\
     memories_created (trace_of (processComments trim comments w) c)
       = [ECreateMemory (memory_key agent selectedComment)
            (Some (IComment.message selectedComment))]).
Proof.
  intros agent. split; [apply run_comment_memory_loop |].
  destruct comments as [| x xs]; [by left |].
  unfold trace_of. rewrite run_processComments. cbv zeta.
  pose proof (chooseCommentId_no_memory (x :: xs) w c) as Hsel.
  pose proof (chooseCommentId_same_client (x :: xs) w c) as Hsame.
  unfold trace_of, final_client, result_of in *.
  destruct (run (chooseCommentId (x :: xs) w) c) as [[tr_sel c1] [sel | e]];
    cbn [fst snd] in *; subst c1.
  2: { left. by rewrite memories_created_app, mark_trace_no_memory,
         (memories_created_none _ Hsel). }
  destruct (negb (truthy_str sel)).
  { left. cbn [fst snd]. by rewrite memories_created_app, mark_trace_no_memory,
      (memories_created_none _ Hsel). }
  destruct (find _ (x :: xs)) as [sc |] eqn:Hfind.
  - apply find_comment_Some in Hfind as [Hin ->].
    pose proof (respondToSelected_memories trim sc w c) as Hmem. unfold trace_of in Hmem.
    assert (Htrace : forall tr_r,
      memories_created (mark_trace (map IComment.id (x :: xs)) (cw_markRead w)
                        ++ tr_sel ++ tr_r) = memories_created tr_r).
    { intros tr_r. by rewrite !memories_created_app, mark_trace_no_memory,
        (memories_created_none _ Hsel). }
    destruct (run (respondToSelected trim sc w) c) as [[tr_r c2] [[] | e]];
      cbn [fst snd] in *; rewrite Htrace, Hmem;
      (destruct (cw_ensureConnection w); [| by left]);
      (destruct (truthy_str (Some (IComment.message sc))); [| by left]);
      right; by exists sc.
  - left. cbn [fst snd].
    rewrite !memories_created_app, mark_trace_no_memory,
      (memories_created_none _ Hsel). done.
Qed.

(** ** The comment watermark *)

Lemma run_fetchUnreadComments since http c :
  exists tr body,
    run (fetchUnreadComments since http) c = (tr, c, Returned body) /\
    ((since = None \/ (exists e, http = Threw e) \/ (exists d, http = Returned (false, d))) ->
     body = BodyObject (Some [])) /\
    (forall d, since ≠ None -> http = Returned (true, d) -> body = d) /\
    Forall (fun e => is_chat_job_error e = false) tr /\
    (forall t, since = Some t -> head tr = Some (EFetchUnreadComments t)).
Proof.
  unfold fetchUnreadComments.
  destruct since as [t |], http as [[[] d] | e]; cbn; do 2 eexists;
    (split; [reflexivity |]); split_and!; try done;
    try (intros [? | [[? ?] | [? ?]]]; done); try (intros; by simplify_eq);
    by repeat constructor.
Qed.

Lemma processComments_same_client trim comments w c :
  final_client (processComments trim comments w) c = c.
Proof. symmetry. apply (processComments_preserves eq). Qed.

Lemma processComments_no_job_error trim comments w :
  emits (fun e => is_chat_job_error e = false) (processComments trim comments w).
Proof.
  unfold processComments, markCommentsAsRead, chooseCommentId,
    selectCommentToRespondTo, respondToSelected, _generateResponse.
  emits_tac.
Qed.

(** The run of [readChatAndReply], by what the gateway sent. *)
Lemma run_readChatAndReply trim w c :
  exists tr body,
    run (fetchUnreadComments (lastProcessedTimestamp c) (rc_fetch w)) c
      = (tr, c, Returned body) /\
    Forall (fun e => is_chat_job_error e = false) tr /\
    (forall t, lastProcessedTimestamp c = Some t ->
       head tr = Some (EFetchUnreadComments t)) /\
    run (readChatAndReply trim w) c =
    match body with
    | BodyNull => (tr ++ [EConsoleError "Error in readChatAndReply:"], c, Returned tt)
    | BodyObject (Some (x :: xs)) =>
        match run (processComments trim (x :: xs) (rc_comments w)) c with
        | (tr_p, c1, Returned _) =>
            (tr ++ tr_p, set_lastProcessedTimestamp (Some (rc_now w)) c1, Returned tt)
        | (tr_p, c1, Threw _) =>
            (tr ++ tr_p ++ [EConsoleError "Error in readChatAndReply:"], c1, Returned tt)
        end
    | BodyObject _ => (tr, set_lastProcessedTimestamp (Some (rc_now w)) c, Returned tt)
    end.
Proof.
  destruct (run_fetchUnreadComments (lastProcessedTimestamp c) (rc_fetch w) c)
    as (tr & body & Hrun & _ & _ & Htr & Hhead).
  exists tr, body. split; [exact Hrun |]. split; [exact Htr |].
  split; [exact Hhead |].
  unfold readChatAndReply, mbind, M_bind.
  rewrite run_try_catch, run_bind.
  change (run get_client c) with ([] : list effect, c, Returned c). cbv iota.
  rewrite run_bind, Hrun. cbv iota. rewrite run_bind.
  destruct body as [| [[| x xs] |]].
  - cbn. by rewrite app_nil_r.
  - cbn. by rewrite !app_nil_r.
  - change (run (destructure_comments (BodyObject (Some (x :: xs)))) c)
      with ([] : list effect, c, Returned (Some (x :: xs))).
    cbv iota. rewrite run_bind, run_bind.
    destruct (run (processComments trim (x :: xs) (rc_comments w)) c)
      as [[tr_p c1] [ids | e]]; cbn; rewrite ?app_nil_r; try done.
    by rewrite <- app_assoc.
  - cbn. by rewrite !app_nil_r.
Qed.

(** C6, counterexample. The gateway hands out two unread comments and the
    generation service fails when asked to pick one: [processComments]
    throws, the [catch] of [readChatAndReply] logs the error, and the
    watermark keeps its old value 1000 although the job ran at 2000. *)
Lemma watermark_not_advanced_when_selection_throws :
  rc_now failing_selection_chat = 2000 /\
  result_of (readChatAndReply ascii_trim failing_selection_chat)
    (new_AikoClient sample_runtime 1000) = Returned tt /\
  lastProcessedTimestamp
    (final_client (readChatAndReply ascii_trim failing_selection_chat)
       (new_AikoClient sample_runtime 1000)) = Some 1000 /\
  EConsoleError "Error in readChatAndReply:"
    ∈ trace_of (readChatAndReply ascii_trim failing_selection_chat)
        (new_AikoClient sample_runtime 1000).
Proof.
  split_and!; try by vm_compute.
  vm_compute. repeat first [apply list_elem_of_here | apply list_elem_of_further].
Qed.

(** C6 (amended). [readChatAndReply] never rejects, and what becomes of the
    watermark is decided by whether its [try] block runs to its end. The
    block runs to its end, the watermark is set to the current time and
    nothing is logged by the [catch], for a batch of any size, an empty or
    missing batch included, and also when the fetch fails, because
    [fetchUnreadComments] answers a failed fetch (no response, an
    undecodable body, an HTTP error status) with an empty batch. An
    exception inside the block is caught: when the gateway answers ok with
    the body [null], so that destructuring it throws, or when
    [processComments] throws, the [catch] logs the error as the last thing
    the job does and the watermark is left as it was. *)
Theorem watermark_advances_unless_an_exception_is_caught
    (trim : string -> string) (w : ChatWorld) (c : AikoClient) :
  let job := readChatAndReply trim w in
  let logged := filter (fun e => is_chat_job_error e = true) (trace_of job c) in
  let advanced :=
    lastProcessedTimestamp (final_client job c) = Some (rc_now w) /\
    logged = [] in
  let caught :=
    lastProcessedTimestamp (final_client job c) = lastProcessedTimestamp c /\
    logged = [EConsoleError "Error in readChatAndReply:"] /\
    last (trace_of job c) = Some (EConsoleError "Error in readChatAndReply:") in
  result_of job c = Returned tt /\
  exists body,
    result_of (fetchUnreadComments (lastProcessedTimestamp c) (rc_fetch w)) c
      = Returned body /\
    (((exists e, rc_fetch w = Threw e) \/ (exists d, rc_fetch w = Returned (false, d))) ->
     body = BodyObject (Some [])) /\
    (forall d, lastProcessedTimestamp c ≠ None -> rc_fetch w = Returned (true, d) ->
     body = d) /\
    match body with
    | BodyNull => caught
    | BodyObject (Some (x :: xs)) =>
        match result_of (processComments trim (x :: xs) (rc_comments w)) c with
        | Returned _ => advanced
        | Threw _ => caught
        end
    | BodyObject _ => advanced
    end.
Proof.
  intros job logged advanced caught. subst job logged advanced caught.
  destruct (run_fetchUnreadComments (lastProcessedTimestamp c) (rc_fetch w) c)
    as (tr0 & body0 & Hfetch & Hfail & Hok & _ & _).
  destruct (run_readChatAndReply trim w c) as (tr & body & Hrun & Htr & _ & Hjob).
  rewrite Hfetch in Hrun. simplify_eq.
  apply (filter_none is_chat_job_error) in Htr.
  assert (Hlast : forall l : list effect,
    last (l ++ [EConsoleError "Error in readChatAndReply:"])
    = Some (EConsoleError "Error in readChatAndReply:")) by (intros; apply last_snoc).
  unfold final_client, result_of, trace_of. rewrite Hjob, Hfetch. clear Hjob Hfetch.
  pose proof (processComments_same_client trim) as Hsame.
  pose proof (processComments_no_job_error trim) as Hquiet.
  unfold emits, final_client, trace_of in Hsame, Hquiet.
  split.
  { destruct body as [| [[| x xs] |]]; try done.
    by destruct (run (processComments trim (x :: xs) (rc_comments w)) c)
      as [[tr_p c1] [ids | e]]. }
  exists body. split; [done |]. split; [intros H; apply Hfail; by right |].
  split; [exact Hok |]. clear Hfail Hok.
  destruct body as [| [[| x xs] |]].
  - cbn [fst snd]. rewrite filter_app, Htr. split_and!; [done | done | apply Hlast].
  - cbn [fst snd]. by rewrite Htr.
  - specialize (Hsame (x :: xs) (rc_comments w) c).
    specialize (Hquiet (x :: xs) (rc_comments w) c).
    apply (filter_none is_chat_job_error) in Hquiet.
    destruct (run (processComments trim (x :: xs) (rc_comments w)) c)
      as [[tr_p c1] [ids | e]]; cbn [fst snd] in *; subst c1.
    + by rewrite filter_app, Htr, Hquiet.
    + rewrite !filter_app, Htr, Hquiet.
      split_and!; [done | done | rewrite app_assoc; apply Hlast].
  - cbn [fst snd]. by rewrite Htr.
Qed.

(** A failed fetch still advances the watermark, from 1000 to 2000; an ok
    answer with the body [null] does not. *)
Lemma watermark_advances_unless_an_exception_is_caught_witness :
  lastProcessedTimestamp
    (final_client (readChatAndReply ascii_trim failing_fetch_chat)
       (new_AikoClient sample_runtime 1000)) = Some 2000 /\
  lastProcessedTimestamp
    (final_client (readChatAndReply ascii_trim null_body_chat)
       (new_AikoClient sample_runtime 1000)) = Some 1000.
Proof.
  split.
  - destruct (watermark_advances_unless_an_exception_is_caught ascii_trim
                failing_fetch_chat (new_AikoClient sample_runtime 1000))
      as (_ & body & _ & Hfail & _ & Hmark).
    rewrite (Hfail (or_intror (ex_intro _ (BodyObject None) eq_refl))) in Hmark.
    exact (proj1 Hmark).
  - destruct (watermark_advances_unless_an_exception_is_caught ascii_trim
                null_body_chat (new_AikoClient sample_runtime 1000))
      as (_ & body & _ & _ & Hok & Hmark).
    rewrite (Hok BodyNull ltac:(discriminate) eq_refl) in Hmark.
    exact (proj1 Hmark).
Defined.

(** ** Ownership of the two marks *)

#[local] Instance same_lastProcessedTimestamp_preorder :
  PreOrder same_lastProcessedTimestamp.
Proof.
  split; [done |]. intros x y z Hxy Hyz.
  unfold same_lastProcessedTimestamp in *. congruence.
Qed.

#[local] Instance same_lastAgentChatMessageId_preorder :
  PreOrder same_lastAgentChatMessageId.
Proof.
  split; [done |]. intros x y z Hxy Hyz.
  unfold same_lastAgentChatMessageId in *. congruence.
Qed.

(** The peer-room job moves the comment watermark only to its own clock
    reading, and only after it has posted to the room. *)
Lemma readAgentChatAndReply_watermark parse w c :
  let job := readAgentChatAndReply parse w in
  lastProcessedTimestamp (final_client job c) = lastProcessedTimestamp c \/
  (lastProcessedTimestamp (final_client job c) = Some (ac_now w) /\
   exists msg audio, EPostRoomMessage msg audio ∈ trace_of job c).
Proof.
  intros job. subst job.
  unfold readAgentChatAndReply, final_client, trace_of, generateSpeech.
  destruct w as [fe cs gt sp po now0]. cbn -[last].
  destruct (isInChat (runtime c)); cbn -[last]; [| by left].
  destruct fe as [[[] [[| m0 ms] |]] | ?]; cbn -[last]; try by left.
  destruct (last (m0 :: ms)) as [latest |]; cbn; [| by left].
  case_bool_decide; cbn; [by left |].
  destruct (String.eqb _ _); cbn; [by left |].
  destruct cs as [[] | ?]; cbn; [| by left].
  destruct gt as [responseText | ?]; cbn; [| by left].
  destruct (parse responseText) as [[txt anim] |]; cbn; [| by left].
  destruct (truthy_str txt); cbn; [| by left].
  destruct sp as [url | ?], po as [[] | ?]; cbn; try by left.
  - right. split; [done |]. do 2 eexists.
    repeat first [apply list_elem_of_here | apply list_elem_of_further].
  - right. split; [done |]. do 2 eexists.
    repeat first [apply list_elem_of_here | apply list_elem_of_further].
Qed.

(** C5, counterexample. The peer-room job, answering a message of another
    agent, sets the comment watermark: 1000 before the job, 3000 after. *)
Lemma peer_room_job_moves_comment_watermark :
  lastProcessedTimestamp (new_AikoClient sample_runtime 1000) = Some 1000 /\
  lastProcessedTimestamp
    (final_client (dispatch sample_parse ascii_trim ascii_toLowerCase
          "readAgentChatAndReply" calm_world)
       (new_AikoClient sample_runtime 1000)) = Some 3000 /\
  lastProcessedTimestamp
    (final_client
       (readAgentChatAndReply sample_parse (w_readAgentChatAndReply calm_world))
       (new_AikoClient sample_runtime 1000)) = Some 3000.
Proof. by vm_compute. Qed.

(** C5 (amended). The last-processed peer-message id is written only by the
    peer-room job. The comment watermark is written by the comment-ingestion
    job and also by the peer-room job, which sets it to the current time
    once it has posted its reply to the room. Every other job invocation
    (gifts, top likers, fresh thought, periodic animation, heartbeat)
    leaves both fields unchanged, and the comment-ingestion job leaves the
    peer-message id unchanged. *)
Theorem marks_are_written_by_their_jobs
    (parse : string -> option Parsed.t)
    (trim toLowerCase : string -> string) (task_name : string) (w : World)
    (c : AikoClient) :
  let job := dispatch parse trim toLowerCase task_name w in
  (task_name ≠ "readAgentChatAndReply" ->
   lastAgentChatMessageId (final_client job c) = lastAgentChatMessageId c) /\
  (task_name ≠ "readChatAndReply" -> task_name ≠ "readAgentChatAndReply" ->
   lastProcessedTimestamp (final_client job c) = lastProcessedTimestamp c) /\
  (task_name = "readAgentChatAndReply" ->
   lastProcessedTimestamp (final_client job c) = lastProcessedTimestamp c \/
   (lastProcessedTimestamp (final_client job c)
      = Some (ac_now (w_readAgentChatAndReply w)) /\
    exists msg audio, EPostRoomMessage msg audio ∈ trace_of job c)).
Proof.
  intros job. subst job. unfold dispatch. split_and!.
  - intros Hpeer.
    repeat lazymatch goal with
           | |- context [String.eqb task_name ?s] =>
               destruct (String.eqb_spec task_name s); [subst |]
           end; try done.
    + apply (readGifts_preserves same_lastAgentChatMessageId).
    + by apply (readChatAndReply_preserves same_lastAgentChatMessageId).
    + apply (readAndRespondToTopLikers_preserves same_lastAgentChatMessageId).
    + apply (generateAndShareFreshThought_preserves same_lastAgentChatMessageId).
    + apply (generateAndSharePeriodicAnimation_preserves same_lastAgentChatMessageId).
    + apply (heartbeat_preserves same_lastAgentChatMessageId).
  - intros Hchat Hpeer.
    repeat lazymatch goal with
           | |- context [String.eqb task_name ?s] =>
               destruct (String.eqb_spec task_name s); [subst |]
           end; try done.
    + apply (readGifts_preserves same_lastProcessedTimestamp).
    + apply (readAndRespondToTopLikers_preserves same_lastProcessedTimestamp).
    + apply (generateAndShareFreshThought_preserves same_lastProcessedTimestamp).
    + apply (generateAndSharePeriodicAnimation_preserves same_lastProcessedTimestamp).
    + apply (heartbeat_preserves same_lastProcessedTimestamp).
  - intros ->. apply readAgentChatAndReply_watermark.
Qed.

(** The comment job leaves the peer-message id alone, the gift job leaves
    the watermark alone. *)
Lemma marks_are_written_by_their_jobs_witness :
  lastAgentChatMessageId
    (final_client (dispatch sample_parse ascii_trim ascii_toLowerCase "readChatAndReply" calm_world)
       (new_AikoClient sample_runtime 1000)) = None /\
  lastProcessedTimestamp
    (final_client (dispatch sample_parse ascii_trim ascii_toLowerCase "readGifts" calm_world)
       (new_AikoClient sample_runtime 1000)) = Some 1000.
Proof.
  split.
  - exact (proj1 (marks_are_written_by_their_jobs sample_parse ascii_trim
                    ascii_toLowerCase "readChatAndReply"
                    calm_world (new_AikoClient sample_runtime 1000))
             ltac:(discriminate)).
  - exact (proj1 (proj2 (marks_are_written_by_their_jobs sample_parse ascii_trim
                    ascii_toLowerCase "readGifts"
                           calm_world (new_AikoClient sample_runtime 1000)))
             ltac:(discriminate) ltac:(discriminate)).
Defined.

(** ** Speech synthesis in the job bodies *)

Lemma shouldTranscribe_special gift random :
  Gift.giftName gift = "Ice Cream" -> shouldTranscribe gift random = JNum (1 # 2).
Proof. unfold shouldTranscribe. by intros ->. Qed.

(** In [processGift] the call to [generateSpeech] is not guarded: when it is
    made and fails, the gift is not answered. *)
Lemma processGift_speech_failure parse gift w c responseText parsedResponse e :
  gw_composeState w = Returned tt ->
  gw_generateText w = Returned responseText ->
  parse responseText = Some parsedResponse ->
  truthy (shouldTranscribe gift (gw_random w)) = true ->
  gw_speech w = Threw e ->
  result_of (processGift parse gift w) c = Threw e /\
  Forall (fun ef => is_publish ef = false) (trace_of (processGift parse gift w) c).
Proof.
  intros Hcs Hgen Hparse Hdraw Hspeech.
  unfold result_of, trace_of, processGift, generateSpeech.
  destruct w as [cm cs gt rnd sp po mr]. cbn in *. subst cs gt sp.
  destruct cm as [[] | ?]; cbn; rewrite Hparse; cbn; rewrite Hdraw; cbn;
    split; try done; by repeat constructor.
Qed.

(** C4 (defect). A speech failure is fatal to the gift job. For an
    ['Ice Cream'] gift, for which speech is always requested, with the
    speech service down, [processGift]
    throws out of the unguarded [generateSpeech] call: the response is never
    published, the gift is not marked read, the following gift of the batch
    is not processed, and [readGifts] as a whole is rejected. The fresh
    thought, the chat reply and the peer-room reply guard the same call and
    publish without audio. *)
Theorem gift_job_aborts_when_speech_fails :
  run (processGift sample_parse sample_gift mute_gift)
      (new_AikoClient sample_runtime 1000)
    = ([ECreateGiftMemory sample_gift; EComposeState;
        EGenerateText GGiftResponse; EGenerateSpeech (Some "thank you")],
       new_AikoClient sample_runtime 1000,
       Threw "speech service unavailable") /\
  run (readGifts sample_parse (w_readGifts mute_world))
      (new_AikoClient sample_runtime 1000)
    = ([EFetchUnreadGifts; ECreateGiftMemory sample_gift; EComposeState;
        EGenerateText GGiftResponse; EGenerateSpeech (Some "thank you")],
       new_AikoClient sample_runtime 1000,
       Threw "speech service unavailable") /\
  filter (fun e => is_publish e = true)
    (trace_of (generateAndShareFreshThought mute_thought)
       (new_AikoClient sample_runtime 1000))
    = [EPostAIResponse
         (mkResponse (Some "a thought") None None None None None (Some true)
            None None None None None)] /\
  length (filter (fun e => is_publish e = true)
            (trace_of (processComments ascii_trim [sample_comment_a] mute_comments)
               (new_AikoClient sample_runtime 1000))) = 1%nat /\
  filter (fun e => is_publish e = true)
    (trace_of (readAgentChatAndReply sample_parse mute_agent_chat)
       (new_AikoClient sample_runtime 1000))
    = [EPostRoomMessage "hello peer" None].
Proof. by vm_compute. Qed.

(** C8. For a gift named ['Ice Cream'], whatever the random draw: once the
    thank-you text has been generated and parsed, speech synthesis is
    requested for it, and when synthesis yields a URL that URL is the
    [audioUrl] of the response posted for the gift. *)
Theorem special_gift_always_speaks
    (parse : string -> option Parsed.t) (gift : Gift.t) (w : GiftWorld)
    (c : AikoClient) (responseText : string) (parsedResponse : Parsed.t)
    (url : string) :
  Gift.giftName gift = "Ice Cream" ->
  gw_composeState w = Returned tt ->
  gw_generateText w = Returned responseText ->
  parse responseText = Some parsedResponse ->
  gw_speech w = Returned url ->
  (forall random, truthy (shouldTranscribe gift random) = true) /\
  EGenerateSpeech (Parsed.text parsedResponse)
    ∈ trace_of (processGift parse gift w) c /\
  exists body,
    EPostAIResponse body ∈ trace_of (processGift parse gift w) c /\
    audioUrl body = Some url /\
    giftId body = Some (Gift._id gift) /\
    text body = Parsed.text parsedResponse.
Proof.
  intros Hname Hcs Hgen Hparse Hspeech. split.
  { intros random. by rewrite shouldTranscribe_special. }
  unfold trace_of, processGift, generateSpeech, markGiftsAsRead.
  rewrite (shouldTranscribe_special _ _ Hname).
  destruct w as [cm cs gt rnd sp po mr]. cbn in *. subst cs gt sp.
  destruct cm as [[] | ?]; cbn; rewrite Hparse; cbn;
    destruct po as [[] | ?]; cbn; try destruct mr as [? | ?]; cbn;
    (split; [repeat first [apply list_elem_of_here | apply list_elem_of_further] |]);
    eexists; (split; [repeat first [apply list_elem_of_here | apply list_elem_of_further] |]);
    done.
Qed.

(** An ['Ice Cream'] gift with a draw of 3/4, which would deny speech to
    any other gift. *)
Lemma special_gift_always_speaks_witness :
  EGenerateSpeech (Some "thank you")
    ∈ trace_of (processGift sample_parse sample_gift calm_gift)
        (new_AikoClient sample_runtime 1000) /\
  exists body,
    EPostAIResponse body
      ∈ trace_of (processGift sample_parse sample_gift calm_gift)
          (new_AikoClient sample_runtime 1000) /\
    audioUrl body = Some "https://cdn/audio.mp3".
Proof.
  destruct (special_gift_always_speaks sample_parse sample_gift calm_gift
              (new_AikoClient sample_runtime 1000) "thank you"
              (Parsed.mk (Some "thank you") (Some "idle"))
              "https://cdn/audio.mp3"
              eq_refl eq_refl eq_refl eq_refl eq_refl)
    as (_ & Hspeech & body & Hpost & Haudio & _).
  split; [exact Hspeech |]. exists body. split; [exact Hpost | exact Haudio].
Defined.

(** ** Validation of the periodic animation *)

Lemma includes_elem_of l x : includes l x = true <-> x ∈ l.
Proof.
  unfold includes. rewrite existsb_exists, list_elem_of_In. split.
  - intros (y & Hy & Heq). apply String.eqb_eq in Heq. by subst.
  - intros Hin. exists x. split; [done |]. apply String.eqb_refl.
Qed.

(** C9. For every generated animation string, the periodic-animation job
    trims and lowercases it and looks the result up in the catalog. If it
    is not there, the job only prints the warning and makes no publish
    call; in particular no fallback animation is published. If it is there,
    the job publishes exactly the cleaned value, and anything that follows
    is an error line about the publish call. ["flying"] is not in the
    catalog. [trim] and [toLowerCase] are the engine's, whatever they do to
    a text, ASCII or not: the statement is about the string
    [toLowerCase (trim generated)] they yield. *)
Theorem animation_is_validated
    (trim toLowerCase : string -> string) (w : AnimationWorld) (c : AikoClient)
    (generated : string) :
  an_composeState w = Returned tt ->
  an_generateText w = Returned generated ->
  let cleanAnimation := toLowerCase (trim generated) in
  let job := generateAndSharePeriodicAnimation trim toLowerCase w in
  (cleanAnimation ∉ getAllAnimations ->
   run job c =
     ([EComposeState; EGenerateText GPeriodicAnimation;
       EConsoleWarn ("Invalid animation generated: " +:+ cleanAnimation +:+
                     ", defaulting to 'idle'")],
      c, Returned tt)) /\
  (cleanAnimation ∈ getAllAnimations ->
   exists tail,
     run job c =
       ([EComposeState; EGenerateText GPeriodicAnimation;
         EPostAnimation cleanAnimation] ++ tail, c, Returned tt) /\
     Forall (fun e => exists msg, e = EConsoleError msg) tail) /\
  "flying" ∉ getAllAnimations.
Proof.
  intros Hcs Hgen cleanAnimation job. subst job.
  unfold generateAndSharePeriodicAnimation.
  destruct w as [cs gt po]. cbn in Hcs, Hgen. subst cs gt.
  split_and!.
  - intros Hout. apply (not_iff_compat (includes_elem_of _ _)) in Hout.
    apply not_true_is_false in Hout. cbn -[includes getAllAnimations].
    fold cleanAnimation. by rewrite Hout.
  - intros Hin. apply includes_elem_of in Hin. cbn -[includes getAllAnimations].
    fold cleanAnimation. rewrite Hin. cbn.
    destruct po as [[] | e]; cbn.
    + exists []. by split.
    + exists [EConsoleError "Failed to post periodic animation:"].
      split; [done |]. repeat constructor. by eexists.
    + exists [EConsoleError "Error in generateAndSharePeriodicAnimation:"].
      split; [done |]. repeat constructor. by eexists.
  - intros Hin. apply includes_elem_of in Hin. by vm_compute in Hin.
Qed.

(** ["  Flying "] is cleaned to ["flying"], which is not in the catalog;
    ["idle"] followed by a no-break space is trimmed to ["idle"] by an
    engine that strips the no-break space, and ["idle"] is published. *)
Lemma animation_is_validated_witness :
  run (generateAndSharePeriodicAnimation ascii_trim ascii_toLowerCase
         (mkAnimationWorld (Returned tt) (Returned "  Flying ") (Returned true)))
      (new_AikoClient sample_runtime 1000)
  = ([EComposeState; EGenerateText GPeriodicAnimation;
      EConsoleWarn "Invalid animation generated: flying, defaulting to 'idle'"],
     new_AikoClient sample_runtime 1000, Returned tt) /\
  run (generateAndSharePeriodicAnimation trim_no_break_space ascii_toLowerCase
         (mkAnimationWorld (Returned tt) (Returned ("idle" +:+ no_break_space))
            (Returned true)))
      (new_AikoClient sample_runtime 1000)
  = ([EComposeState; EGenerateText GPeriodicAnimation; EPostAnimation "idle"],
     new_AikoClient sample_runtime 1000, Returned tt).
Proof.
  split.
  - destruct (animation_is_validated ascii_trim ascii_toLowerCase
                (mkAnimationWorld (Returned tt) (Returned "  Flying ") (Returned true))
                (new_AikoClient sample_runtime 1000) "  Flying " eq_refl eq_refl)
      as (Hout & _ & Hflying).
    exact (Hout Hflying).
  - destruct (animation_is_validated trim_no_break_space ascii_toLowerCase
                (mkAnimationWorld (Returned tt) (Returned ("idle" +:+ no_break_space))
                   (Returned true))
                (new_AikoClient sample_runtime 1000) ("idle" +:+ no_break_space)
                eq_refl eq_refl)
      as (_ & Hin & _).
    destruct (Hin ltac:(apply list_elem_of_here)) as (tail & Hrun & _).
    rewrite Hrun. vm_compute in Hrun. by simplify_eq.
Defined.

(** Two comments and the answer ["NONE"]: nothing is selected. *)
Lemma comment_selection_witness :
  result_of
    (processComments ascii_trim [sample_comment_a; sample_comment_b]
       (mkCommentsWorld (Returned true) (fun _ => Returned tt) (Returned tt)
          (Returned "NONE") (Returned tt) (Returned tt) (Returned tt)
          (Returned None) (Returned tt) (Returned "idle") (Returned "u")
          (Returned 200)))
    (new_AikoClient sample_runtime 1000)
  = Returned ["c-1"; "c-2"].
Proof.
  destruct (comment_selection ascii_trim
              (mkCommentsWorld (Returned true) (fun _ => Returned tt) (Returned tt)
                 (Returned "NONE") (Returned tt) (Returned tt) (Returned tt)
                 (Returned None) (Returned tt) (Returned "idle") (Returned "u")
                 (Returned 200))
              (new_AikoClient sample_runtime 1000))
    as (_ & _ & Hmany).
  destruct (Hmany sample_comment_a sample_comment_b [] "NONE" eq_refl eq_refl)
    as (_ & Hnone).
  exact (proj1 (Hnone (or_introl eq_refl))).
Defined.

(** * Further properties of the code *)

(** ** The scheduler *)

Lemma processNextTask_taskQueue parse trim toLowerCase now w done c i t :
  find_eligible now (taskQueue c) = Some (i, t) ->
  taskQueue (final_client (processNextTask parse trim toLowerCase now w done) c) =
  alter (set_isRunning false) i
    (alter (set_lastRun done) i (alter (set_isRunning true) i (taskQueue c))).
Proof.
  intros Hsome. unfold final_client.
  rewrite (run_processNextTask_started _ _ _ _ _ _ _ _ _ Hsome). cbn -[dispatch].
  by rewrite dispatch_same_taskQueue.
Qed.

(** X1. Re-fire interval. After a tick that ran the task at position [i]
    and whose body settled at clock reading [done], that task is eligible
    again exactly from [done + minInterval] on: the interval is counted from
    the completion of the run, not from its start, and before it has
    elapsed no tick selects the task. *)
Theorem task_refires_after_interval_from_completion
    (parse : string -> option Parsed.t)
    (trim toLowerCase : string -> string) (now done later : Z) (w : World)
    (c : AikoClient) (i : nat) (t : TaskPriority) :
  find_eligible now (taskQueue c) = Some (i, t) ->
  let c' := final_client (processNextTask parse trim toLowerCase now w done) c in
  (exists t', taskQueue c' !! i = Some t' /\
     (eligible later t' = true <-> done + minInterval t <= later)) /\
  (later < done + minInterval t ->
   forall t', find_eligible later (taskQueue c') ≠ Some (i, t')).
Proof.
  intros Hsome c'. subst c'.
  assert (Hi : taskQueue (final_client (processNextTask parse trim toLowerCase now w done) c) !! i
               = Some (mkTask (name t) (priority t) (minInterval t)
                         (Some done) (Some false))).
  { rewrite (processNextTask_taskQueue _ _ _ _ _ _ _ _ _ Hsome), !list_lookup_alter_eq.
    apply find_eligible_Some in Hsome as (-> & _). done. }
  assert (Hel : eligible later (mkTask (name t) (priority t) (minInterval t)
                                  (Some done) (Some false)) = true
                <-> done + minInterval t <= later).
  { rewrite eligible_spec. simpl. split; [intros [_ ?]; lia | intros; split; [done | lia]]. }
  split.
  - eexists. split; [exact Hi | exact Hel].
  - intros Hearly t' Hfind. apply find_eligible_Some in Hfind as (Hi' & Ht' & _).
    rewrite Hi in Hi'. simplify_eq. apply Hel in Ht'. lia.
Qed.

(** The gift job, run at 1700000000000 and settled 2.5 s later: its
    descriptor is eligible again exactly from 1700000027500 on. *)
Lemma task_refires_after_interval_from_completion_witness :
  exists t',
    taskQueue
      (final_client
         (processNextTask sample_parse ascii_trim ascii_toLowerCase
               1700000000000 calm_world 1700000002500)
         (new_AikoClient sample_runtime 1699999999000)) !! 0%nat = Some t' /\
    (eligible 1700000022500 t' = true <-> 1700000002500 + 25000 <= 1700000022500).
Proof.
  exact (proj1 (task_refires_after_interval_from_completion sample_parse ascii_trim
                    ascii_toLowerCase
                  1700000000000 1700000002500 1700000022500 calm_world
                  (new_AikoClient sample_runtime 1699999999000) 0%nat
                  (mkTask "readGifts" 1 25000 None None) eq_refl)).
Defined.

Lemma static_fields_alter f i (q : list TaskPriority) :
  (forall t, static_fields (f t) = static_fields t) ->
  static_fields <$> alter f i q = static_fields <$> q.
Proof.
  intros Hf. revert i. induction q as [| t q IH]; intros [| i]; csimpl; try done.
  - by rewrite Hf.
  - by rewrite IH.
Qed.

Lemma sched_step_static s e s' :
  sched_step s e = Some s' ->
  static_fields <$> taskQueue s'.1 = static_fields <$> taskQueue s.1.
Proof.
  destruct s as [c outs]. destruct e as [now | i done];
    cbn -[tick_start tick_finally]; intros Hstep.
  - rewrite run_tick_start in Hstep.
    destruct (find_eligible now (taskQueue c)) as [[i t] |]; simplify_eq; [| done].
    simpl. by apply static_fields_alter.
  - case_bool_decide; [| done]. rewrite run_tick_finally in Hstep. simplify_eq.
    simpl. by rewrite !static_fields_alter.
Qed.

Lemma sched_run_static es : forall s s',
  sched_run s es = Some s' ->
  static_fields <$> taskQueue s'.1 = static_fields <$> taskQueue s.1.
Proof.
  induction es as [| e es IH]; intros s s' Hrun; simpl in Hrun.
  - by simplify_eq.
  - destruct (sched_step s e) as [s1 |] eqn:Hstep; [| done].
    rewrite (IH _ _ Hrun). by eapply sched_step_static.
Qed.

(** X2. The registry is fixed. Neither a tick nor the job body it runs ever
    adds, removes or reorders a descriptor or changes its [name],
    [priority] or [minInterval]: after one whole tick, and after any run of
    ticks and settlements under the timer, the registry holds the same
    descriptors in the same order with only [lastRun] and [isRunning]
    possibly changed. *)
Theorem registry_is_fixed
    (parse : string -> option Parsed.t)
    (trim toLowerCase : string -> string) (now done : Z) (w : World) (c : AikoClient) :
  static_fields <$> taskQueue (final_client (processNextTask parse trim toLowerCase now w done) c)
    = static_fields <$> taskQueue c /\
  (forall es s', sched_run (c, []) es = Some s' ->
     static_fields <$> taskQueue s'.1 = static_fields <$> taskQueue c).
Proof.
  split.
  - destruct (find_eligible now (taskQueue c)) as [[i t] |] eqn:Hfind.
    + rewrite (processNextTask_taskQueue _ _ _ _ _ _ _ _ _ Hfind).
      by rewrite !static_fields_alter.
    + unfold final_client. by rewrite run_processNextTask_idle.
  - intros es s' Hrun. by rewrite (sched_run_static _ _ _ Hrun).
Qed.

Lemma registry_is_fixed_witness :
  name <$> taskQueue
    (final_client
       (processNextTask sample_parse ascii_trim ascii_toLowerCase
             1700000000000 mute_world 1700000002500)
       (new_AikoClient sample_runtime 1699999999000))
  = ["readGifts"; "readChatAndReply"; "readAndRespondToTopLikers";
     "generateFreshThought"; "readAgentChatAndReply";
     "generatePeriodicAnimation"; "heartbeat"].
Proof.
  pose proof (proj1 (registry_is_fixed sample_parse ascii_trim
                    ascii_toLowerCase 1700000000000 1700000002500
                       mute_world (new_AikoClient sample_runtime 1699999999000)))
    as Hfixed.
  apply (f_equal (fmap (fun x : string * Z * Z => x.1.1))) in Hfixed.
  rewrite <- !list_fmap_compose in Hfixed. exact Hfixed.
Defined.

Lemma sched_step_NoDup s e s' :
  running_iff_outstanding s -> NoDup s.2 -> sched_step s e = Some s' ->
  NoDup s'.2.
Proof.
  destruct s as [c outs]. intros Hinv Hnd Hstep.
  destruct e as [now | i done]; cbn -[tick_start tick_finally] in Hstep.
  - rewrite run_tick_start in Hstep.
    destruct (find_eligible now (taskQueue c)) as [[i t] |] eqn:Hfind;
      simplify_eq; [| done].
    apply find_eligible_Some in Hfind as (Hi & Hel & _).
    simpl. apply NoDup_cons. split; [| done]. intros Hin.
    apply (Hinv i t Hi) in Hin. unfold eligible in Hel.
    rewrite Hin in Hel. done.
  - case_bool_decide; [| done]. rewrite run_tick_finally in Hstep. simplify_eq.
    simpl. by apply NoDup_filter.
Qed.

Lemma sched_run_NoDup es : forall s s',
  running_iff_outstanding s -> NoDup s.2 -> sched_run s es = Some s' ->
  NoDup s'.2.
Proof.
  induction es as [| e es IH]; intros s s' Hinv Hnd Hrun; simpl in Hrun.
  - by simplify_eq.
  - destruct (sched_step s e) as [s1 |] eqn:Hstep; [| done].
    eapply (IH s1); [| | done].
    + by eapply running_iff_outstanding_step.
    + by eapply sched_step_NoDup.
Qed.

Lemma sched_step_outstanding_running s e s' :
  Forall (fun i => exists t, taskQueue s.1 !! i = Some t /\ isRunning t = Some true) s.2 ->
  sched_step s e = Some s' ->
  Forall (fun i => exists t, taskQueue s'.1 !! i = Some t /\ isRunning t = Some true) s'.2.
Proof.
  destruct s as [c outs]. intros Hall Hstep.
  destruct e as [now | i done]; cbn -[tick_start tick_finally] in Hstep.
  - rewrite run_tick_start in Hstep.
    destruct (find_eligible now (taskQueue c)) as [[i t] |] eqn:Hfind;
      simplify_eq; [| done].
    apply find_eligible_Some in Hfind as (Hi & _). simpl in *.
    apply Forall_cons. split.
    + exists (set_isRunning true t). by rewrite list_lookup_alter_eq, Hi.
    + eapply Forall_impl; [exact Hall |]. intros j (tj & Hj & Hrun). simpl in *.
      destruct (decide (i = j)) as [<- | Hne].
      * exists (set_isRunning true t). by rewrite list_lookup_alter_eq, Hi.
      * exists tj. by rewrite list_lookup_alter_ne.
  - case_bool_decide; [| done]. rewrite run_tick_finally in Hstep. simplify_eq.
    simpl in *. apply Forall_forall. intros j Hj.
    apply list_elem_of_filter in Hj as [Hne Hj].
    destruct (proj1 (Forall_forall _ _) Hall j Hj) as (tj & Hlook & Hrun).
    exists tj. by rewrite !list_lookup_alter_ne.
Qed.

Lemma sched_run_outstanding_running es : forall s s',
  Forall (fun i => exists t, taskQueue s.1 !! i = Some t /\ isRunning t = Some true) s.2 ->
  sched_run s es = Some s' ->
  Forall (fun i => exists t, taskQueue s'.1 !! i = Some t /\ isRunning t = Some true) s'.2.
Proof.
  induction es as [| e es IH]; intros s s' Hall Hrun; simpl in Hrun.
  - by simplify_eq.
  - destruct (sched_step s e) as [s1 |] eqn:Hstep; [| done].
    eapply (IH s1); [| done]. by eapply sched_step_outstanding_running.
Qed.

(** X3. Per-task exclusion under the timer. However the one-second ticks
    interleave with the settlements of job bodies, a task is never started
    again while its own body is outstanding: the outstanding bodies belong
    to pairwise distinct descriptors, each of them marked running, and a
    tick that finds a task eligible starts one that is not outstanding. *)
Theorem task_never_overlaps_itself
    (rt : Runtime) (t0 : Z) (es : list event) (s : sched_state) :
  sched_run (new_AikoClient rt t0, []) es = Some s ->
  NoDup s.2 /\
  (forall i, i ∈ s.2 ->
     exists t, taskQueue s.1 !! i = Some t /\ isRunning t = Some true) /\
  (forall now i t, find_eligible now (taskQueue s.1) = Some (i, t) -> i ∉ s.2).
Proof.
  intros Hrun.
  assert (Hinv : running_iff_outstanding s).
  { eapply running_iff_outstanding_run; [| done]. apply running_iff_outstanding_init. }
  split_and!.
  - eapply sched_run_NoDup; [| | done]; [apply running_iff_outstanding_init | constructor].
  - apply Forall_forall. eapply sched_run_outstanding_running; [| done]. constructor.
  - intros now i t Hfind Hin. apply find_eligible_Some in Hfind as (Hi & Hel & _).
    apply (Hinv i t Hi) in Hin. unfold eligible in Hel. rewrite Hin in Hel. done.
Qed.

(** Two ticks one second apart and the settlement of the first body: the
    one body still outstanding is that of [readChatAndReply]. *)
Lemma task_never_overlaps_itself_witness :
  exists c,
    sched_run (new_AikoClient sample_runtime 1699999999000, [])
      [Timer 1700000000000; Timer 1700000001000; Settle 0 1700000001500]
      = Some (c, [1%nat]) /\
    NoDup [1%nat].
Proof.
  eexists. split; [vm_compute; reflexivity |].
  exact (proj1 (task_never_overlaps_itself sample_runtime 1699999999000
                  [Timer 1700000000000; Timer 1700000001000; Settle 0 1700000001500]
                  _ eq_refl)).
Defined.

Lemma find_eligible_same_timing now (q q' : list TaskPriority) :
  Forall2 same_timing q q' ->
  fst <$> find_eligible now q = fst <$> find_eligible now q'.
Proof.
  unfold find_eligible. induction 1 as [| t t' q q' (Hmi & Hlr & Hir) _ IH]; [done |].
  assert (Hel : eligible now t = eligible now t').
  { unfold eligible. by rewrite Hmi, Hlr, Hir. }
  csimpl. rewrite <- Hel. destruct (decide (eligible now t = true)); [done |].
  destruct (list_find _ q) as [[i x] |], (list_find _ q') as [[i' x'] |];
    simplify_eq/=; done.
Qed.

(** X4. The [priority] field plays no part in scheduling. The task a tick
    selects is determined by the position of the descriptors in the array
    and by their [minInterval], [lastRun] and [isRunning]: two registries
    that agree on those select the task at the same position, whatever
    their priorities and names. *)
Theorem priority_is_not_consulted (now : Z) (q q' : list TaskPriority) :
  Forall2 same_timing q q' ->
  fst <$> find_eligible now q = fst <$> find_eligible now q' /\
  (forall c c',
     taskQueue c = q -> taskQueue c' = q' ->
     trace_of (tick_start now) c = trace_of (tick_start now) c').
Proof.
  intros Hsame. pose proof (find_eligible_same_timing now q q' Hsame) as Hfind.
  split; [done |]. intros c c' <- <-. unfold trace_of.
  rewrite !run_tick_start.
  destruct (find_eligible now (taskQueue c)) as [[i t] |],
    (find_eligible now (taskQueue c')) as [[i' t'] |]; by simplify_eq/=.
Qed.

(** With the priorities reversed, the first task of the array is still the
    one selected. *)
Lemma priority_is_not_consulted_witness :
  fst <$> find_eligible 1700000000000 reprioritized_taskQueue = Some 0%nat.
Proof.
  rewrite <- (proj1 (priority_is_not_consulted 1700000000000 initial_taskQueue
                       reprioritized_taskQueue
                       ltac:(repeat constructor))).
  reflexivity.
Defined.

(** ** Which job bodies can reject *)

Lemma never_rejects_ret {A} (a : A) : never_rejects (ret a).
Proof. intros c. by eexists. Qed.

Lemma never_rejects_emit e : never_rejects (emit e).
Proof. intros c. by eexists. Qed.

Lemma never_rejects_get_client : never_rejects get_client.
Proof. intros c. by eexists. Qed.

Lemma never_rejects_bind {A B} (m : M A) (k : A -> M B) :
  never_rejects m -> (forall a, never_rejects (k a)) -> never_rejects (bind m k).
Proof.
  unfold never_rejects, result_of. intros Hm Hk c. simpl.
  destruct (Hm c) as [a Ha]. destruct (run m c) as [[tr1 c1] r]. simpl in Ha. subst r.
  destruct (Hk a c1) as [b Hb]. destruct (run (k a) c1) as [[tr2 c2] r2].
  simpl in *. by exists b.
Qed.

(** A [try] whose [catch] block cannot throw never rejects, whatever its
    body does. *)
Lemma never_rejects_try_catch {A} (m : M A) (h : string -> M A) :
  (forall e, never_rejects (h e)) -> never_rejects (try_catch m h).
Proof.
  unfold never_rejects, result_of. intros Hh c. simpl.
  destruct (run m c) as [[tr1 c1] [a | e]]; [by exists a |].
  destruct (Hh e c1) as [b Hb]. destruct (run (h e) c1) as [[tr2 c2] r2].
  simpl in *. by exists b.
Qed.

(** X5. Error isolation at the job boundary. Five of the seven job bodies
    catch everything themselves: the chat job, the top-liker job, the fresh
    thought, the peer-room job and the periodic animation fulfil whatever
    the gateway, the generation service, the speech service and the agent
    runtime do. Only [readGifts] and [heartbeat] can reject into
    [processNextTask]. *)
Theorem five_jobs_never_reject
    (parse : string -> option Parsed.t)
    (trim toLowerCase : string -> string) (w : World) :
  never_rejects (readChatAndReply trim (w_readChatAndReply w)) /\
  never_rejects (readAndRespondToTopLikers parse (w_readAndRespondToTopLikers w)) /\
  never_rejects (generateAndShareFreshThought (w_generateFreshThought w)) /\
  never_rejects (readAgentChatAndReply parse (w_readAgentChatAndReply w)) /\
  never_rejects (generateAndSharePeriodicAnimation trim toLowerCase
        (w_generatePeriodicAnimation w)) /\
  (exists w' c e, result_of (readGifts parse w') c = Threw e) /\
  (exists http c e, result_of (heartbeat http) c = Threw e).
Proof.
  split_and!.
  - apply never_rejects_try_catch. intros e. apply never_rejects_emit.
  - apply never_rejects_try_catch. intros e. apply never_rejects_emit.
  - apply never_rejects_try_catch. intros e. apply never_rejects_emit.
  - unfold readAgentChatAndReply. apply never_rejects_bind.
    + apply never_rejects_get_client.
    + intros c. destruct (negb (isInChat (runtime c))).
      * apply never_rejects_ret.
      * apply never_rejects_try_catch. intros e. apply never_rejects_emit.
  - apply never_rejects_try_catch. intros e. apply never_rejects_emit.
  - exists (mkGiftsWorld (Returned (true, Some [sample_gift]))
              (fun _ => mkGiftWorld (Returned tt) (Threw "composeState failed")
                          (Returned "") (1 # 2) (Returned "") (Returned true)
                          (Returned true))),
      (new_AikoClient sample_runtime 0), "composeState failed".
    reflexivity.
  - exists (Threw "network unreachable"), (new_AikoClient sample_runtime 0),
      "network unreachable".
    reflexivity.
Qed.

(** X6. The heartbeat. [heartbeat] makes exactly one status request and
    touches nothing of the client. It fulfils exactly when the request is
    answered with an ok response whose body reports success; in every other
    case (network failure, HTTP error, [success] false) it logs the failure
    and rejects, so that the error surfaces in [processNextTask]. *)
Theorem heartbeat_rejects_unless_acknowledged
    (http : outcome (bool * bool)) (c : AikoClient) :
  final_client (heartbeat http) c = c /\
  filter (fun e => is_putStatus e = true) (trace_of (heartbeat http) c)
    = [EPutStatus] /\
  (result_of (heartbeat http) c = Returned tt <-> http = Returned (true, true)) /\
  (http ≠ Returned (true, true) ->
   (exists e, result_of (heartbeat http) c = Threw e) /\
   EConsoleError "Failed to update streaming status:" ∈ trace_of (heartbeat http) c).
Proof.
  unfold heartbeat, updateStreamingStatus, final_client, trace_of, result_of.
  destruct http as [[[] []] | e]; cbn; split_and!; try done;
    try (intros _; split; [by eexists |];
         repeat first [apply list_elem_of_here | apply list_elem_of_further]).
Qed.

Lemma heartbeat_rejects_unless_acknowledged_witness :
  (exists e, result_of (heartbeat (Returned (true, false)))
               (new_AikoClient sample_runtime 0) = Threw e) /\
  EConsoleError "Failed to update streaming status:"
    ∈ trace_of (heartbeat (Returned (true, false))) (new_AikoClient sample_runtime 0).
Proof.
  apply (proj2 (proj2 (proj2 (heartbeat_rejects_unless_acknowledged
                                (Returned (true, false))
                                (new_AikoClient sample_runtime 0))))).
  discriminate.
Defined.

(** ** The gateway helpers of db/index.ts *)

(** X7. The gateway helpers never reject and never touch the client. A
    failed exchange (network failure, undecodable body, HTTP error) is
    turned into the helper's fallback: an empty batch of comments, no gifts,
    no top likers with [success] false, [success] false for the two
    mark-read calls. [fetchUnreadComments] without a watermark makes no
    request at all. On an ok response each helper hands back what the
    gateway sent; [fetchUnreadComments] hands back the whole decoded body,
    be it [null]. *)
Theorem gateway_helpers_fall_back (c : AikoClient) :
  (forall since http,
     exists tr body,
       run (fetchUnreadComments since http) c = (tr, c, Returned body) /\
       (since = None -> tr = [EConsoleError "Error fetching unread comments:"] /\
                        body = BodyObject (Some [])) /\
       (forall t, since = Some t ->
          head tr = Some (EFetchUnreadComments t) /\
          (forall d, http = Returned (true, d) -> body = d) /\
          ((forall d, http ≠ Returned (true, d)) -> body = BodyObject (Some [])))) /\
  (forall http,
     exists tr gifts,
       run (fetchUnreadGifts http) c = (EFetchUnreadGifts :: tr, c, Returned gifts) /\
       (forall d, http = Returned (true, d) -> gifts = d) /\
       ((forall d, http ≠ Returned (true, d)) -> gifts = None)) /\
  (forall timeframe http,
     exists tr success topLikers,
       run (fetchTopLikers timeframe http) c
         = (EFetchTopLikers timeframe :: tr, c, Returned (success, topLikers)) /\
       (forall d, http = Returned (true, d) -> success = true /\ topLikers = d) /\
       ((forall d, http ≠ Returned (true, d)) -> success = false /\ topLikers = None)) /\
  (forall ids http,
     exists tr,
       run (markCommentsAsRead ids http) c
         = (EMarkCommentsAsRead ids :: tr, c,
            Returned (match http with Returned ok => ok | Threw _ => false end))) /\
  (forall ids http,
     exists tr,
       run (markGiftsAsRead ids http) c
         = (EMarkGiftsAsRead ids :: tr, c,
            Returned (match http with Returned ok => ok | Threw _ => false end))).
Proof.
  split_and!.
  - intros since http. unfold fetchUnreadComments.
    destruct since as [t |], http as [[[] d] | e]; cbn; do 2 eexists;
      (split; [reflexivity |]); (split; [try done; by intros _ |]);
      intros t' Ht'; simplify_eq; split_and!; try done;
      try (by intros ? ?; simplify_eq); try (intros H; by destruct (H d)).
  - intros http. unfold fetchUnreadGifts.
    destruct http as [[[] d] | e]; cbn; do 2 eexists;
      (split; [reflexivity |]); split; try (by intros ? ?; simplify_eq);
      try done; intros H; by destruct (H d).
  - intros timeframe http. unfold fetchTopLikers.
    destruct http as [[[] d] | e]; cbn; do 3 eexists;
      (split; [reflexivity |]); split; try (by intros ? ?; simplify_eq);
      try done; intros H; by destruct (H d).
  - intros ids http. unfold markCommentsAsRead.
    destruct http as [[] | e]; cbn; by eexists.
  - intros ids http. unfold markGiftsAsRead.
    destruct http as [[] | e]; cbn; by eexists.
Qed.

Lemma gateway_helpers_fall_back_witness :
  result_of
    (fetchUnreadComments None
       (Returned (true, BodyObject (Some [sample_comment_a]))))
    (new_AikoClient sample_runtime 0) = Returned (BodyObject (Some [])).
Proof.
  destruct (proj1 (gateway_helpers_fall_back (new_AikoClient sample_runtime 0))
              None (Returned (true, BodyObject (Some [sample_comment_a]))))
    as (tr & comments & Hrun & Hnone & _).
  unfold result_of. rewrite Hrun. simpl. by rewrite (proj2 (Hnone eq_refl)).
Defined.

(** *** Binary64 products

    What [SFmul] does to a mantissa: the number of its digits, the shift
    that brings it down to 53 digits, and the rounding of what is shifted
    out. *)

Lemma digits2_pos_bounds (m : positive) :
  2 ^ (Z.pos (digits2_pos m) - 1) <= Z.pos m < 2 ^ Z.pos (digits2_pos m).
Proof.
  induction m as [m IH | m IH |]; cbn [digits2_pos].
  - rewrite Pos2Z.inj_succ.
    replace (Z.succ (Z.pos (digits2_pos m)) - 1) with (Z.succ (Z.pos (digits2_pos m) - 1)) by lia.
    rewrite !Z.pow_succ_r by lia. lia.
  - rewrite Pos2Z.inj_succ.
    replace (Z.succ (Z.pos (digits2_pos m)) - 1) with (Z.succ (Z.pos (digits2_pos m) - 1)) by lia.
    rewrite !Z.pow_succ_r by lia. lia.
  - simpl. lia.
Qed.

Lemma iter_pos_nat {A} (f : A -> A) (p : positive) (x : A) :
  SpecFloat.iter_pos f p x = Nat.iter (Pos.to_nat p) f x.
Proof.
  revert x. induction p as [p IH | p IH |]; intros x; cbn [SpecFloat.iter_pos].
  - rewrite !IH, Pos2Nat.inj_xI. 
    replace (S (2 * Pos.to_nat p)) with (Pos.to_nat p + (Pos.to_nat p + 1))%nat by lia.
    rewrite !Nat.iter_add. simpl. done.
  - rewrite !IH, Pos2Nat.inj_xO.
    replace (2 * Pos.to_nat p)%nat with (Pos.to_nat p + Pos.to_nat p)%nat by lia.
    by rewrite Nat.iter_add.
  - done.
Qed.

Lemma shr_1_spec m r s :
  0 <= m -> shr_1 (Build_shr_record m r s) = Build_shr_record (m / 2) (Z.odd m) (r || s).
Proof.
  intros Hm. destruct m as [| [p | p |] |]; try lia; cbn [shr_1].
  - done.
  - f_equal. rewrite Pos2Z.inj_xI. 
    rewrite Z.add_comm, Z.mul_comm, Z.div_add by lia. done.
  - f_equal. rewrite Pos2Z.inj_xO, Z.mul_comm, Z.div_mul by lia. done.
  - done.
Qed.

Lemma iter_shr_1 (M : Z) (k : nat) :
  0 <= M ->
  exists s,
    Nat.iter (S k) shr_1 (Build_shr_record M false false)
    = Build_shr_record (M / 2 ^ Z.of_nat (S k)) (Z.odd (M / 2 ^ Z.of_nat k)) s.
Proof.
  intros HM. induction k as [| k [s IH]].
  - exists false. cbn [Nat.iter]. rewrite shr_1_spec by done.
    change (2 ^ Z.of_nat 1) with 2. change (2 ^ Z.of_nat 0) with 1. by rewrite Z.div_1_r.
  - eexists. rewrite Nat.iter_succ, IH. rewrite shr_1_spec by (apply Z.div_pos; lia).
    rewrite Z.div_div by lia.
    replace (2 ^ Z.of_nat (S k) * 2) with (2 ^ Z.of_nat (S (S k))); [reflexivity |].
    rewrite (Nat2Z.inj_succ (S k)). rewrite Z.pow_succ_r by lia. lia.
Qed.

Lemma odd_div_mod (M s : Z) :
  0 <= M -> 0 < s -> Z.odd (M / 2 ^ (s - 1)) = true -> 2 ^ (s - 1) <= M mod 2 ^ s.
Proof.
  intros HM Hs Hodd.
  replace (2 ^ s) with (2 ^ (s - 1) * 2).
  2: { rewrite Z.mul_comm, <- Z.pow_succ_r by lia. f_equal. lia. }
  rewrite Z.rem_mul_r by lia.
  rewrite Zmod_odd, Hodd.
  pose proof (Z.mod_pos_bound M (2 ^ (s - 1)) ltac:(lia)). lia.
Qed.

Lemma shr_nonpos mrs e n : n <= 0 -> shr mrs e n = (mrs, e).
Proof. destruct n; [done | lia | done]. Qed.

Lemma shr_pos (M e n : Z) :
  0 <= M -> 0 < n ->
  exists r s,
    shr (Build_shr_record M false false) e n
      = (Build_shr_record (M / 2 ^ n) r s, e + n) /\
    (r = true -> 2 ^ (n - 1) <= M mod 2 ^ n).
Proof.
  intros HM Hn. destruct n as [| p |]; [lia | | lia].
  cbn [shr]. rewrite iter_pos_nat.
  destruct (Pos2Nat.is_succ p) as [k Hk]. rewrite Hk.
  destruct (iter_shr_1 M k HM) as [s Hs]. rewrite Hs.
  assert (Hp : Z.of_nat (S k) = Z.pos p) by lia.
  exists (Z.odd (M / 2 ^ Z.of_nat k)), s. rewrite Hp. split; [done |].
  intros Hodd. apply odd_div_mod; [done | lia |].
  replace (Z.pos p - 1) with (Z.of_nat k) by lia. done.
Qed.

Lemma round_nearest_even_cases q r s :
  round_nearest_even q (loc_of_shr_record (Build_shr_record q r s)) = q \/
  (round_nearest_even q (loc_of_shr_record (Build_shr_record q r s)) = q + 1 /\
   r = true).
Proof.
  destruct r, s; cbn; try (by left); [by right |].
  destruct (Z.even q); [by left | by right].
Qed.

Lemma fexp_binary64 e : fexp 53 1024 e = Z.max (e - 53) (-1074).
Proof. reflexivity. Qed.

Lemma renormalize_floor (q fe N : Z) :
  0 <= q <= 2 ^ 53 -> -1074 <= fe <= 0 -> 1 <= N <= 2 ^ 53 ->
  q < N * 2 ^ (- fe) ->
  exists v, binary64_floor (renormalize q fe) = Some v /\ 0 <= v < N.
Proof.
  intros [Hq0 Hq1] [Hfe0 Hfe1] [HN0 HN1] Hlt.
  assert (HK : 0 < 2 ^ (- fe)) by (apply Z.pow_pos_nonneg; lia).
  unfold renormalize, shr_fexp. rewrite fexp_binary64.
  destruct q as [| p |]; [| | lia].
  - cbn [Zdigits2 shr_record_of_loc]. rewrite shr_nonpos by lia.
    cbn [shr_m]. exists 0. split; [done | lia].
  - cbn [Zdigits2 shr_record_of_loc].
    pose proof (digits2_pos_bounds p) as [Hd0 Hd1].
    set (d := Z.pos (digits2_pos p)) in *.
    destruct (Z_lt_le_dec (Z.pos p) (2 ^ 53)) as [Hsmall | Hbig].
    + assert (Hd : d <= 53).
      { assert (H : 2 ^ (d - 1) < 2 ^ 53) by lia.
        apply Z.pow_lt_mono_r_iff in H; lia. }
      rewrite shr_nonpos by lia. cbn [shr_m].
      replace (fe <=? 1024 - 53) with true by (symmetry; apply Z.leb_le; lia).
      cbn [binary64_floor]. eexists. split; [reflexivity |].
      destruct (Z.leb_spec 0 fe).
      * replace fe with 0 in * by lia. change (2 ^ (- 0)) with 1 in Hlt.
        change (2 ^ 0) with 1. lia.
      * split; [apply Z.div_pos; lia |].
        apply Z.div_lt_upper_bound; lia.
    + assert (Hp : Z.pos p = 2 ^ 53) by lia.
      assert (Hd : d = 54).
      { rewrite Hp in Hd0, Hd1.
        assert (H1 : d - 1 <= 53) by (apply (Z.pow_le_mono_r_iff 2); lia).
        assert (H2 : 53 < d) by (apply (Z.pow_lt_mono_r_iff 2); lia). lia. }
      rewrite Hd.
      destruct (shr_pos (Z.pos p) fe (Z.max (54 + fe - 53) (-1074) - fe))
        as (r & s & -> & _); [lia | lia |].
      replace (Z.max (54 + fe - 53) (-1074) - fe) with 1 by lia.
      rewrite Hp. cbn [shr_m].
      change (2 ^ 53 / 2 ^ 1) with (Z.pos 4503599627370496).
      cbv iota beta.
      replace (fe + 1 <=? 1024 - 53) with true by (symmetry; apply Z.leb_le; lia).
      cbn [binary64_floor]. eexists. split; [reflexivity |].
      rewrite Hp in Hlt.
      destruct (Z.leb_spec 0 (fe + 1)).
      * assert (fe = -1 \/ fe = 0) as [-> | ->] by lia.
        -- change (2 ^ (- -1)) with 2 in Hlt. change (2 ^ (-1 + 1)) with 1. lia.
        -- change (2 ^ (- 0)) with 1 in Hlt. lia.
      * assert (HK' : 0 < 2 ^ (- (fe + 1))) by (apply Z.pow_pos_nonneg; lia).
        split; [apply Z.div_pos; lia |].
        apply Z.div_lt_upper_bound; [lia |].
        assert (2 ^ (- fe) = 2 * 2 ^ (- (fe + 1))).
        { rewrite <- Z.pow_succ_r by lia. f_equal. lia. }
        change (2 ^ 53) with (2 * 4503599627370496) in Hlt. nia.
Qed.

Lemma binary_round_aux_renormalize M E :
  binary_round_aux 53 1024 false M E loc_Exact =
  let '(mrs, e) := shr_fexp 53 1024 M E loc_Exact in
  renormalize (round_nearest_even (shr_m mrs) (loc_of_shr_record mrs)) e.
Proof. reflexivity. Qed.

Lemma binary_round_aux_floor (M : positive) (E N : Z) :
  E <= 0 -> 1 <= N <= 2 ^ 53 ->
  Z.pos M < N * 2 ^ (- E) ->
  N * 2 ^ (- E) <= 2 ^ 53 * (N * 2 ^ (- E) - Z.pos M) ->
  exists v,
    binary64_floor (binary_round_aux 53 1024 false (Z.pos M) E loc_Exact) = Some v /\
    0 <= v < N.
Proof.
  intros HE [HN0 HN1] Hlt Hgap.
  rewrite binary_round_aux_renormalize. unfold shr_fexp. rewrite fexp_binary64.
  cbn [Zdigits2 shr_record_of_loc].
  pose proof (digits2_pos_bounds M) as [Hd0 Hd1].
  set (d := Z.pos (digits2_pos M)) in *.
  assert (Hdpos : 0 < d) by (unfold d; lia).
  assert (HD : 0 < 2 ^ (- E)) by (apply Z.pow_pos_nonneg; lia).
  assert (Hde : d + E <= 53).
  { assert (H : 2 ^ (d - 1) < 2 ^ (53 - E)).
    { replace (53 - E) with (53 + - E) by lia. rewrite Z.pow_add_r by lia. nia. }
    apply Z.pow_lt_mono_r_iff in H; lia. }
  set (fe := Z.max (d + E - 53) (-1074)).
  assert (Hfe : -1074 <= fe <= 0) by lia.
  destruct (Z_le_gt_dec (fe - E) 0) as [Hs | Hs].
  - rewrite shr_nonpos by done. cbn [shr_m loc_of_shr_record round_nearest_even].
    apply renormalize_floor; [| lia | lia | lia].
    split; [lia |].
    assert (H : 2 ^ d <= 2 ^ 53) by (apply Z.pow_le_mono_r; lia). lia.
  - destruct (shr_pos (Z.pos M) E (fe - E)) as (r & s & -> & Hr); [lia | lia |].
    cbn [shr_m]. replace (E + (fe - E)) with fe by lia.
    assert (HS : 0 < 2 ^ (fe - E)) by (apply Z.pow_pos_nonneg; lia).
    assert (HK : 0 < 2 ^ (- fe)) by (apply Z.pow_pos_nonneg; lia).
    assert (HDK : 2 ^ (- E) = 2 ^ (fe - E) * 2 ^ (- fe)).
    { rewrite <- Z.pow_add_r by lia. f_equal; lia. }
    assert (Hq0 : 0 <= Z.pos M / 2 ^ (fe - E)) by (apply Z.div_pos; lia).
    assert (Hqlt : Z.pos M / 2 ^ (fe - E) < N * 2 ^ (- fe)).
    { apply Z.div_lt_upper_bound; [lia |]. rewrite HDK in Hlt. lia. }
    assert (Hq53 : Z.pos M / 2 ^ (fe - E) < 2 ^ 53).
    { apply Z.div_lt_upper_bound; [lia |].
      assert (H : 2 ^ d <= 2 ^ (fe - E + 53)) by (apply Z.pow_le_mono_r; lia).
      rewrite Z.pow_add_r in H by lia. lia. }
    pose proof (Z.div_mod (Z.pos M) (2 ^ (fe - E)) ltac:(lia)) as Hdm.
    set (q := Z.pos M / 2 ^ (fe - E)) in *.
    destruct (round_nearest_even_cases q r s) as [-> | [-> Hrt]].
    + apply renormalize_floor; lia.
    + apply renormalize_floor; [lia | lia | lia |].
      destruct (Z_lt_le_dec (q + 1) (N * 2 ^ (- fe))) as [| Hbad]; [done | exfalso].
      specialize (Hr Hrt).
      assert (HS2 : 2 ^ (fe - E) = 2 * 2 ^ (fe - E - 1)).
      { rewrite <- Z.pow_succ_r by lia. f_equal; lia. }
      assert (HH : 0 < 2 ^ (fe - E - 1)) by (apply Z.pow_pos_nonneg; lia).
      revert Hdm Hr Hgap Hlt Hqlt Hbad HS2 HDK.
      generalize (Z.pos M mod 2 ^ (fe - E)).
      set (H := 2 ^ (fe - E - 1)) in *. set (K := 2 ^ (- fe)) in *.
      set (S := 2 ^ (fe - E)) in *. set (D := 2 ^ (- E)) in *.
      intros rem Hdm Hr Hgap Hlt Hqlt Hbad HS2 HDK.
      assert (HNK : N * K <= 2 ^ 52).
      { assert (Hq : q = N * K - 1) by lia.
        assert (Hgap' : N * D - Z.pos M <= H) by nia.
        assert (N * (2 * H * K) <= 2 ^ 53 * H) by nia.
        change (2 ^ 53) with (2 * 2 ^ 52) in *. nia. }
      destruct (Z.max_spec (d + E - 53) (-1074)) as [[_ Hmax] | [_ Hmax]];
        fold fe in Hmax.
      * assert (HK' : 2 ^ 52 < K).
        { unfold K. rewrite Hmax. apply Z.pow_lt_mono_r; lia. }
        nia.
      * assert (HSd : S * 2 ^ 52 = 2 ^ (d - 1)).
        { unfold S. rewrite <- Z.pow_add_r by lia. f_equal; lia. }
        nia.
Qed.

Lemma pos_iter_xO (p k : positive) :
  Z.pos (Pos.iter xO p k) = Z.pos p * 2 ^ Z.pos k.
Proof.
  induction k as [| k IH] using Pos.peano_ind.
  - cbn [Pos.iter]. rewrite Pos2Z.inj_xO. change (2 ^ 1) with 2. lia.
  - rewrite Pos.iter_succ, Pos2Z.inj_xO, IH, Pos2Z.inj_succ, Z.pow_succ_r by lia. lia.
Qed.

Lemma binary_round_aux_exact (M : positive) (E : Z) :
  Z.pos M < 2 ^ 53 -> -1074 <= E <= 0 ->
  binary_round_aux 53 1024 false (Z.pos M) E loc_Exact = S754_finite false M E.
Proof.
  intros HM HE.
  pose proof (digits2_pos_bounds M) as [Hd0 Hd1].
  assert (Hd : Z.pos (digits2_pos M) <= 53).
  { assert (H : 2 ^ (Z.pos (digits2_pos M) - 1) < 2 ^ 53) by lia.
    apply Z.pow_lt_mono_r_iff in H; lia. }
  rewrite binary_round_aux_renormalize. unfold shr_fexp. rewrite fexp_binary64.
  cbn [Zdigits2 shr_record_of_loc]. rewrite shr_nonpos by lia.
  cbn [shr_m loc_of_shr_record round_nearest_even].
  unfold renormalize, shr_fexp. rewrite fexp_binary64.
  cbn [Zdigits2 shr_record_of_loc]. rewrite shr_nonpos by lia. cbn [shr_m].
  by replace (E <=? 1024 - 53) with true by (symmetry; apply Z.leb_le; lia).
Qed.

Lemma binary64_of_nat_exact (n : nat) :
  (0 < n)%nat -> Z.of_nat n < 2 ^ 53 ->
  exists mz ez,
    binary64_of_nat n = S754_finite false mz ez /\
    -52 <= ez <= 0 /\ Z.pos mz = Z.of_nat n * 2 ^ (- ez).
Proof.
  intros Hn Hlt. unfold binary64_of_nat, binary_normalize.
  destruct (Z.of_nat n) as [| p |] eqn:Hp; [lia | | lia].
  unfold binary_round. rewrite fexp_binary64.
  pose proof (digits2_pos_bounds p) as [Hd0 Hd1].
  set (d := Z.pos (digits2_pos p)) in *.
  assert (Hd : 0 < d <= 53).
  { split; [unfold d; lia |].
    assert (H : 2 ^ (d - 1) < 2 ^ 53) by lia.
    apply Z.pow_lt_mono_r_iff in H; lia. }
  replace (Z.max (d + 0 - 53) (-1074)) with (d - 53) by lia.
  unfold shl_align.
  destruct (d - 53 - 0) as [| c | c] eqn:Hc; [| lia |].
  - rewrite binary_round_aux_exact by lia.
    exists p, 0. split; [done |]. change (2 ^ (- 0)) with 1. lia.
  - assert (Hshift : Z.pos (Pos.iter xO p c) = Z.pos p * 2 ^ Z.pos c)
      by apply pos_iter_xO.
    assert (Hdc : d + Z.pos c = 53) by lia.
    assert (Hpow : 2 ^ d * 2 ^ Z.pos c = 2 ^ 53).
    { rewrite <- Z.pow_add_r by lia. by rewrite Hdc. }
    assert (Hc0 : 0 < 2 ^ Z.pos c) by (apply Z.pow_pos_nonneg; lia).
    rewrite binary_round_aux_exact by nia.
    exists (Pos.iter xO p c), (d - 53). split; [done |]. split; [lia |].
    rewrite Hshift. do 2 f_equal. lia.
Qed.

Lemma random_index_in_range (r : spec_float) (n : nat) :
  is_draw r = true -> (0 < n)%nat -> Z.of_nat n < 2 ^ 53 ->
  exists i,
    binary64_floor (binary64_mul r (binary64_of_nat n)) = Some i /\
    0 <= i < Z.of_nat n.
Proof.
  intros Hr Hn Hlt.
  destruct (binary64_of_nat_exact n Hn Hlt) as (mz & ez & -> & Hez & Hmz).
  destruct r as [[] | | | [] m e]; try done.
  - exists 0. split; [done | lia].
  - cbn [is_draw] in Hr. apply andb_true_iff in Hr as [Hb Hm].
    apply Z.ltb_lt in Hm.
    unfold bounded, canonical_mantissa in Hb.
    apply andb_true_iff in Hb as [Hcanon _]. apply Z.eqb_eq in Hcanon.
    rewrite fexp_binary64 in Hcanon.
    pose proof (digits2_pos_bounds m) as [Hd0 Hd1].
    set (d := Z.pos (digits2_pos m)) in *.
    assert (Hd : d <= 53) by lia. assert (He : -1074 <= e) by lia.
    assert (He0 : e < 0).
    { destruct (Z_lt_le_dec e 0) as [| Hge]; [done | exfalso].
      destruct (Z.eq_dec e 0) as [-> | Hne].
      - change (2 ^ (- 0)) with 1 in Hm. lia.
      - rewrite Z.pow_neg_r in Hm by lia. lia. }
    assert (Hm53 : Z.pos m < 2 ^ 53).
    { assert (H : 2 ^ d <= 2 ^ 53) by (apply Z.pow_le_mono_r; lia). lia. }
    unfold binary64_mul. cbn [SFmul xorb].
    assert (HA : 0 < 2 ^ (- e)) by (apply Z.pow_pos_nonneg; lia).
    assert (HB : 0 < 2 ^ (- ez)) by (apply Z.pow_pos_nonneg; lia).
    assert (HAB : 2 ^ (- (e + ez)) = 2 ^ (- e) * 2 ^ (- ez)).
    { rewrite <- Z.pow_add_r by lia. f_equal; lia. }
    assert (Hgap : 2 ^ (- e) <= 2 ^ 53 * (2 ^ (- e) - Z.pos m)).
    { destruct (Z_le_gt_dec (- e) 53) as [Hle | Hgt].
      - assert (H : 2 ^ (- e) <= 2 ^ 53) by (apply Z.pow_le_mono_r; lia). nia.
      - assert (H : 2 ^ 54 <= 2 ^ (- e)) by (apply Z.pow_le_mono_r; lia).
        change (2 ^ 54) with (2 * 2 ^ 53) in H. nia. }
    apply binary_round_aux_floor; [lia | lia | |].
    + rewrite Pos2Z.inj_mul, HAB, Hmz. nia.
    + rewrite Pos2Z.inj_mul, HAB, Hmz.
      revert Hgap Hm HA HB. generalize (2 ^ (- e)) (2 ^ (- ez)) (Z.pos m).
      intros A B m0 Hgap Hm HA HB.
      replace (Z.of_nat n * (A * B) - m0 * (Z.of_nat n * B))
        with (Z.of_nat n * B * (A - m0)) by ring.
      replace (Z.of_nat n * (A * B)) with (Z.of_nat n * B * A) by ring.
      assert (0 < Z.of_nat n * B) by nia.
      replace (2 ^ 53 * (Z.of_nat n * B * (A - m0)))
        with (Z.of_nat n * B * (2 ^ 53 * (A - m0))) by ring.
      apply Z.mul_le_mono_nonneg_l; lia.
Qed.


(** X8. [getRandomTopLiker]. An empty ranking gives [null]. For a
    non-empty ranking (of fewer than 2^53 entries, as every array is) and a
    draw of [Math.random()], a binary64 number in [0, 1), it returns the
    entry at position
    [Math.floor(draw * length)], where the product is the exact product
    rounded to the nearest binary64; that position is always inside the
    ranking, because the rounding never carries the product up to the
    length. So the function never answers [undefined] for a non-empty
    ranking and never invents an entry. *)
Theorem getRandomTopLiker_picks_a_member
    (topLikers : list TopLiker.t) (r : spec_float) :
  getRandomTopLiker [] r = None /\
  (topLikers ≠ [] -> is_draw r = true ->
   Z.of_nat (length topLikers) < 2 ^ 53 ->
   exists i x,
     randomIndex r topLikers = Some (Z.of_nat i) /\
     topLikers !! i = Some x /\
     getRandomTopLiker topLikers r = Some x).
Proof.
  split; [done |]. intros Hne Hr Hlen.
  assert (Hpos : (0 < length topLikers)%nat)
    by (destruct topLikers; [done | simpl; lia]).
  destruct (random_index_in_range r (length topLikers) Hr Hpos Hlen)
    as (k & Hk & Hlo & Hhi).
  assert (Hlt : (Z.to_nat k < length topLikers)%nat) by lia.
  destruct (lookup_lt_is_Some_2 topLikers (Z.to_nat k) Hlt) as [x Hx].
  exists (Z.to_nat k), x. unfold getRandomTopLiker, randomIndex.
  rewrite Hk, Z2Nat.id by done. split_and!; [done | done |].
  destruct topLikers as [| y ys]; [done |].
  destruct (Z.ltb_spec k 0); [lia | done].
Qed.

(** The draw 0.7 and a ranking of ten: the exact product is just below 7
    and is rounded to 7, so the entry at position 7 is returned. *)
Lemma getRandomTopLiker_picks_a_member_witness :
  randomIndex seven_tenths ten_likers = Some 7 /\
  getRandomTopLiker ten_likers seven_tenths = Some (TopLiker.mk "fan" 7 None None).
Proof.
  split; [reflexivity |].
  destruct (proj2 (getRandomTopLiker_picks_a_member ten_likers seven_tenths)
              ltac:(discriminate) ltac:(reflexivity) ltac:(reflexivity))
    as (i & x & Hi & Hx & Hpick).
  rewrite Hpick. f_equal.
  assert (i = 7%nat) as ->.
  { change (Some 7 = Some (Z.of_nat i)) in Hi. injection Hi as Hi. lia. }
  by simplify_eq/=.
Defined.

(** ** The gift job *)

(** Case analysis over everything [processGift] awaits, in program order;
    a case is split only where the goal still depends on it. *)
Ltac split_if_present x :=
  lazymatch goal with
  | |- context [x] => destruct x as [? | ?]; cbn
  | _ => idtac
  end.

Ltac gift_cases parse gift w :=
  unfold trace_of, result_of, final_client, processGift, generateSpeech,
    markGiftsAsRead;
  let cm := fresh "cm" in let cs := fresh "cs" in let gt := fresh "gt" in
  let rnd := fresh "rnd" in let sp := fresh "sp" in let po := fresh "po" in
  let mr := fresh "mr" in
  destruct w as [cm cs gt rnd sp po mr]; cbn in *;
  split_if_present cm; split_if_present cs; split_if_present gt;
  try lazymatch goal with
      | |- context [parse ?t] => destruct (parse t) as [? |]; cbn
      end;
  try lazymatch goal with
      | |- context [truthy (shouldTranscribe gift rnd)] =>
          destruct (truthy (shouldTranscribe gift rnd)); cbn
      end;
  split_if_present sp; split_if_present po;
  try lazymatch goal with
      | |- context [if ?b then _ else _] => destruct b; cbn
      end;
  split_if_present mr.

(** X9. A gift is marked read exactly when its response was accepted.
    [processGift] answers [true] precisely when it gets as far as the post
    (the state is composed, the thank-you text is generated and parsed, and
    the speech is synthesized where it is wanted) and the gateway answers
    the post with ok; exactly then it asks the gateway to mark that one
    gift read, after the post. Whenever it does not answer [true]
    (unparseable text, an exception before the post, a rejected or failed
    post) no mark-read request is made, and at most one response is
    published per gift. *)
Theorem gift_marked_read_iff_response_accepted
    (parse : string -> option Parsed.t) (gift : Gift.t) (w : GiftWorld)
    (c : AikoClient) :
  let tr := trace_of (processGift parse gift w) c in
  let result := result_of (processGift parse gift w) c in
  let reaches_the_post :=
    gw_composeState w = Returned tt /\
    exists responseText parsedResponse,
      gw_generateText w = Returned responseText /\
      parse responseText = Some parsedResponse /\
      (truthy (shouldTranscribe gift (gw_random w)) = true ->
       exists url, gw_speech w = Returned url) in
  (result = Returned true <-> reaches_the_post /\ gw_post w = Returned true) /\
  (result = Returned true ->
   exists body,
     filter (fun e => is_publish e || is_markGiftsAsRead e = true) tr
       = [EPostAIResponse body; EMarkGiftsAsRead [Gift._id gift]] /\
     giftId body = Some (Gift._id gift)) /\
  (result ≠ Returned true ->
   filter (fun e => is_markGiftsAsRead e = true) tr = [] /\
   (length (filter (fun e => is_publish e = true) tr) <= 1)%nat).
Proof.
  intros tr result reaches_the_post. subst tr result reaches_the_post.
  unfold trace_of, result_of, processGift, generateSpeech, markGiftsAsRead.
  destruct w as [cm cs gt rnd sp po mr]. cbn [gw_composeState gw_generateText
    gw_random gw_speech gw_post gw_createMemory gw_markRead].
  destruct cm as [[] | ?], cs as [[] | ?], gt as [responseText | ?]; cbn;
    try (destruct (parse responseText) as [parsedResponse |] eqn:Hparse; cbn);
    try (destruct (truthy (shouldTranscribe gift rnd)) eqn:Htruthy; cbn;
         [destruct sp as [url | ?]; cbn |]);
    try (destruct po as [[] | ?]; cbn; try destruct mr as [[] | ?]; cbn).
  all: split_and!;
    [ split;
      [ intros Hr; try done;
        (split; [| done]); (split; [done |]);
        exists responseText, parsedResponse;
        (split_and!; [done | done | first [done | by eexists]])
      | intros [[Hcs (rt & pr & Hgt & Hp & Hsp)] Hpo]; simplify_eq; try done;
        by destruct (Hsp eq_refl) ]
    | intros Hr; try done; by eexists
    | intros Hr; try done; (split; [done | simpl; lia]) ].
Qed.

(** The ['Ice Cream'] gift meeting collaborators that all succeed: the
    response is accepted and [processGift] answers [true]. *)
Lemma gift_marked_read_iff_response_accepted_witness :
  result_of (processGift sample_parse sample_gift calm_gift)
    (new_AikoClient sample_runtime 0) = Returned true.
Proof.
  apply (proj1 (gift_marked_read_iff_response_accepted sample_parse sample_gift
                  calm_gift (new_AikoClient sample_runtime 0))).
  split; [| reflexivity]. split; [reflexivity |].
  exists "thank you", (Parsed.mk (Some "thank you") (Some "idle")).
  split_and!; [reflexivity | reflexivity |]. intros _. by eexists.
Defined.

(** X10. A gift whose thank-you text cannot be parsed is skipped quietly.
    When [parseJSONObjectFromText] finds no object in the generated text,
    [processGift] logs the failure and answers [false] without throwing: no
    speech is requested, nothing is published and the gift is not marked
    read, so it stays unread at the gateway and the batch goes on. *)
Theorem unparseable_gift_response_is_skipped
    (parse : string -> option Parsed.t) (gift : Gift.t) (w : GiftWorld)
    (c : AikoClient) (responseText : string) :
  gw_composeState w = Returned tt ->
  gw_generateText w = Returned responseText ->
  parse responseText = None ->
  let tr := trace_of (processGift parse gift w) c in
  result_of (processGift parse gift w) c = Returned false /\
  last tr = Some (EConsoleError "Failed to parse gift response:") /\
  Forall (fun e => is_speech e = false /\ is_publish e = false /\
                   is_markGiftsAsRead e = false) tr.
Proof.
  intros Hcs Hgen Hparse tr. subst tr.
  unfold trace_of, result_of, processGift.
  destruct w as [cm cs gt rnd sp po mr]. cbn in *. subst cs gt.
  destruct cm as [[] | ?]; cbn; rewrite Hparse; cbn;
    split_and!; try done; by repeat constructor.
Qed.

Lemma unparseable_gift_response_is_skipped_witness :
  result_of
    (processGift sample_parse sample_rose
       (mkGiftWorld (Returned tt) (Returned tt) (Returned "not json") (1 # 4)
          (Returned "u") (Returned true) (Returned true)))
    (new_AikoClient sample_runtime 0)
  = Returned false.
Proof.
  exact (proj1 (unparseable_gift_response_is_skipped sample_parse sample_rose
                  (mkGiftWorld (Returned tt) (Returned tt) (Returned "not json")
                     (1 # 4) (Returned "u") (Returned true) (Returned true))
                  (new_AikoClient sample_runtime 0) "not json"
                  eq_refl eq_refl eq_refl)).
Defined.

Lemma lt_half_spec (r : Q) : lt_half r = true <-> (r < 1 # 2)%Q.
Proof.
  unfold lt_half. rewrite negb_true_iff, <- not_true_iff_false, Qle_bool_iff.
  split; [apply Qnot_le_lt | apply Qlt_not_le].
Qed.

(** X11. For every gift that is not named ['Ice Cream'] the draw decides:
    once the thank-you text is generated and parsed, speech is requested
    exactly when [Math.random()] fell below 0.5, and when it did not, the
    response is published without [audioUrl]. *)
Theorem ordinary_gift_speaks_on_a_low_draw
    (parse : string -> option Parsed.t) (gift : Gift.t) (w : GiftWorld)
    (c : AikoClient) (responseText : string) (parsedResponse : Parsed.t) :
  Gift.giftName gift ≠ "Ice Cream" ->
  gw_composeState w = Returned tt ->
  gw_generateText w = Returned responseText ->
  parse responseText = Some parsedResponse ->
  let tr := trace_of (processGift parse gift w) c in
  ((gw_random w < 1 # 2)%Q ->
   filter (fun e => is_speech e = true) tr
     = [EGenerateSpeech (Parsed.text parsedResponse)]) /\
  (~ (gw_random w < 1 # 2)%Q ->
   filter (fun e => is_speech e = true) tr = [] /\
   exists body,
     filter (fun e => is_publish e = true) tr = [EPostAIResponse body] /\
     audioUrl body = None /\ text body = Parsed.text parsedResponse).
Proof.
  intros Hname Hcs Hgen Hparse tr. subst tr.
  assert (Hdraw : truthy (shouldTranscribe gift (gw_random w)) = lt_half (gw_random w)).
  { unfold shouldTranscribe. destruct (String.eqb_spec (Gift.giftName gift) "Ice Cream"); done. }
  unfold trace_of, processGift, generateSpeech, markGiftsAsRead.
  rewrite Hdraw. clear Hdraw.
  destruct w as [cm cs gt rnd sp po mr]. cbn in *. subst cs gt.
  split.
  - intros Hlow. apply lt_half_spec in Hlow. rewrite Hlow.
    destruct cm as [[] | ?]; cbn; rewrite Hparse; cbn;
      destruct sp as [? | ?]; cbn; try done;
      destruct po as [[] | ?]; cbn; try done; by destruct mr.
  - intros Hhigh. rewrite <- lt_half_spec in Hhigh.
    apply not_true_is_false in Hhigh. rewrite Hhigh.
    destruct cm as [[] | ?]; cbn; rewrite Hparse; cbn;
      destruct po as [[] | ?]; cbn; try destruct mr; cbn;
      (split; [done |]); by eexists.
Qed.

Lemma ordinary_gift_speaks_on_a_low_draw_witness :
  filter (fun e => is_speech e = true)
    (trace_of (processGift sample_parse sample_rose calm_gift)
       (new_AikoClient sample_runtime 0)) = [].
Proof.
  refine (proj1 (proj2 (ordinary_gift_speaks_on_a_low_draw sample_parse sample_rose
                          calm_gift (new_AikoClient sample_runtime 0) "thank you"
                          (Parsed.mk (Some "thank you") (Some "idle"))
                          _ eq_refl eq_refl eq_refl) _)).
  - discriminate.
  - discriminate.
Defined.

Lemma processGift_giftMemory parse gift w c :
  filter (fun e => is_giftMemory e = true) (trace_of (processGift parse gift w) c)
  = [ECreateGiftMemory gift].
Proof. gift_cases parse gift w; done. Qed.

Lemma processGifts_in_order parse gifts : forall ws i c,
  filter (fun e => is_giftMemory e = true)
    (trace_of (processGifts parse gifts ws i) c)
    `prefix_of` (ECreateGiftMemory <$> gifts) /\
  (forall u, result_of (processGifts parse gifts ws i) c = Returned u ->
     filter (fun e => is_giftMemory e = true)
       (trace_of (processGifts parse gifts ws i) c)
     = ECreateGiftMemory <$> gifts).
Proof.
  induction gifts as [| g rest IH]; intros ws i c; [by split |].
  cbn [processGifts]. unfold mbind, M_bind, trace_of, result_of.
  rewrite run_bind.
  pose proof (processGift_giftMemory parse g (ws i) c) as Hg. unfold trace_of in Hg.
  destruct (run (processGift parse g (ws i)) c) as [[tr1 c1] [b | e]]; cbn [fst snd] in *.
  - destruct (IH ws (S i) c1) as [Hpre Hall]. unfold trace_of, result_of in *.
    destruct (run (processGifts parse rest ws (S i)) c1) as [[tr2 c2] r2];
      cbn [fst snd] in *.
    rewrite filter_app, Hg. csimpl. split.
    + by apply prefix_cons.
    + intros u ->. by rewrite (Hall u).
  - rewrite Hg. csimpl. split; [| done].
    apply prefix_cons, prefix_nil.
Qed.

Lemma processGifts_stop_at_the_first_exception parse gifts : forall ws i c n gift e,
  gifts !! n = Some gift ->
  (forall j earlier, (j < n)%nat -> gifts !! j = Some earlier ->
     exists ok, result_of (processGift parse earlier (ws (i + j)%nat)) c = Returned ok) ->
  result_of (processGift parse gift (ws (i + n)%nat)) c = Threw e ->
  result_of (processGifts parse gifts ws i) c = Threw e /\
  filter (fun e => is_giftMemory e = true)
    (trace_of (processGifts parse gifts ws i) c)
  = ECreateGiftMemory <$> take (S n) gifts.
Proof.
  induction gifts as [| g rest IH]; intros ws i c n gift e Hn Hearlier Hthrow;
    [done |].
  cbn [processGifts]. unfold mbind, M_bind, trace_of, result_of in *.
  rewrite run_bind.
  pose proof (processGift_giftMemory parse g (ws i) c) as Hg. unfold trace_of in Hg.
  pose proof (processGift_preserves eq parse g (ws i) c) as Hc.
  unfold final_client in Hc.
  destruct n as [| n].
  - injection Hn as ->. rewrite Nat.add_0_r in Hthrow.
    destruct (run (processGift parse gift (ws i)) c) as [[tr1 c1] r1];
      cbn [fst snd] in *. simplify_eq. cbn [fst snd]. by rewrite Hg.
  - destruct (Hearlier 0%nat g ltac:(lia) eq_refl) as [ok Hok].
    rewrite Nat.add_0_r in Hok.
    destruct (run (processGift parse g (ws i)) c) as [[tr1 c1] r1];
      cbn [fst snd] in *. subst c1 r1.
    destruct (IH ws (S i) c n gift e Hn) as [Hres Htrace].
    { intros j earlier Hj Hlook. replace (S i + j)%nat with (i + S j)%nat by lia.
      apply Hearlier; [lia | done]. }
    { by replace (S i + n)%nat with (i + S n)%nat by lia. }
    destruct (run (processGifts parse rest ws (S i)) c) as [[tr2 c2] r2];
      cbn [fst snd] in *. simplify_eq. cbn [fst snd].
    split; [done |]. rewrite filter_app, Hg, Htrace. done.
Qed.

(** X12. Gifts are handled one after the other, in the order the gateway
    listed them. The gifts [readGifts] has started on always form an initial
    segment of the fetched batch, in batch order; they are the whole batch
    whenever [readGifts] fulfils; and an exception in one gift ends the
    job: when the gifts before position [n] are handled without an
    exception and the gift at position [n] throws, [readGifts] rejects with
    that exception and has started on the gifts up to position [n] and on
    none of the later ones. *)
Theorem gifts_are_handled_in_batch_order
    (parse : string -> option Parsed.t) (w : GiftsWorld) (c : AikoClient)
    (gifts : list Gift.t) :
  rg_fetch w = Returned (true, Some gifts) ->
  let started :=
    filter (fun e => is_giftMemory e = true) (trace_of (readGifts parse w) c) in
  started `prefix_of` (ECreateGiftMemory <$> gifts) /\
  (result_of (readGifts parse w) c = Returned tt ->
   started = ECreateGiftMemory <$> gifts) /\
  (forall n gift e,
     gifts !! n = Some gift ->
     (forall j earlier, (j < n)%nat -> gifts !! j = Some earlier ->
        exists ok,
          result_of (processGift parse earlier (rg_gift w j)) c = Returned ok) ->
     result_of (processGift parse gift (rg_gift w n)) c = Threw e ->
     result_of (readGifts parse w) c = Threw e /\
     started = ECreateGiftMemory <$> take (S n) gifts).
Proof.
  intros Hfetch started. subst started.
  unfold readGifts, fetchUnreadGifts, trace_of, result_of.
  rewrite run_bind, run_try_catch, run_bind. rewrite Hfetch. cbn [call run].
  cbv iota beta. cbn [mret M_ret ret run app]. cbv iota beta.
  destruct gifts as [| g rest]; [by cbn |].
  destruct (processGifts_in_order parse (g :: rest) (rg_gift w) 0%nat c) as [Hpre Hall].
  pose proof (processGifts_stop_at_the_first_exception parse (g :: rest)
                (rg_gift w) 0%nat c) as Hstop.
  unfold trace_of, result_of in *.
  destruct (run (processGifts parse (g :: rest) (rg_gift w) 0%nat) c)
    as [[tr2 c2] r2]; cbn [fst snd app] in *.
  rewrite filter_cons_False by done. split_and!; [done | |].
  - intros ->. by apply (Hall tt).
  - intros n gift e Hn Hearlier Hthrow. by apply (Hstop n gift e).
Qed.

(** With the speech service down, the first gift of the batch (an
    ['Ice Cream']) throws: [readGifts] rejects and the second gift is never
    started. *)
Lemma gifts_are_handled_in_batch_order_witness :
  result_of (readGifts sample_parse (w_readGifts mute_world))
    (new_AikoClient sample_runtime 0) = Threw "speech service unavailable" /\
  filter (fun e => is_giftMemory e = true)
    (trace_of (readGifts sample_parse (w_readGifts mute_world))
       (new_AikoClient sample_runtime 0))
  = [ECreateGiftMemory sample_gift].
Proof.
  refine (proj2 (proj2 (gifts_are_handled_in_batch_order sample_parse
                          (w_readGifts mute_world)
                          (new_AikoClient sample_runtime 0)
                          [sample_gift; sample_rose] eq_refl))
            0%nat sample_gift "speech service unavailable" eq_refl _ eq_refl).
  intros j earlier Hj. lia.
Defined.

(** ** The top-liker job *)

Lemma getRandomTopLiker_elem_of topLikers r x :
  getRandomTopLiker topLikers r = Some x -> x ∈ topLikers.
Proof.
  unfold getRandomTopLiker. destruct topLikers as [| y ys]; [done |].
  destruct (randomIndex r (y :: ys)) as [i |]; [| done].
  destruct (i <? 0); [done |]. apply list_elem_of_lookup_2.
Qed.

(** X13. The top-liker job. It asks for the ["5m"] ranking when the first
    draw fell below 0.5 and for the ["all"] ranking otherwise, never touches
    the client, never requests speech and never records a memory. It
    publishes at most one response, and a published response thanks a
    supporter of the fetched ranking: it carries that supporter's handle and
    picture, is flagged [isTopLikerResponse] and has no audio. *)
Theorem top_liker_job_thanks_one_ranked_supporter
    (parse : string -> option Parsed.t) (w : TopLikersWorld) (c : AikoClient) :
  let job := readAndRespondToTopLikers parse w in
  final_client job c = c /\
  head (trace_of job c)
    = Some (EFetchTopLikers (if lt_half (tl_random_window w) then "5m" else "all")) /\
  Forall (fun e => is_speech e = false /\ is_createMemory e = false)
    (trace_of job c) /\
  (filter (fun e => is_publish e = true) (trace_of job c) = [] \/
   exists topLikers liker body,
     tl_fetch w = Returned (true, Some topLikers) /\ liker ∈ topLikers /\
     filter (fun e => is_publish e = true) (trace_of job c) = [EPostAIResponse body] /\
     replyToHandle body = TopLiker.handle liker /\
     replyToPfp body = TopLiker.pfp liker /\
     isTopLikerResponse body = Some true /\ audioUrl body = None).
Proof.
  intros job. subst job.
  unfold readAndRespondToTopLikers, fetchTopLikers, final_client, trace_of.
  destruct w as [rw fe ri cs gt po]. cbn.
  destruct fe as [[[] [topLikers |]] | ?]; cbn;
    try (split_and!; [done | done | by repeat constructor | by left]).
  destruct (getRandomTopLiker topLikers ri) as [liker |] eqn:Hpick; cbn;
    try (split_and!; [done | done | by repeat constructor | by left]).
  apply getRandomTopLiker_elem_of in Hpick.
  destruct cs as [[] | ?]; cbn;
    try (split_and!; [done | done | by repeat constructor | by left]).
  destruct gt as [responseText | ?]; cbn;
    try (split_and!; [done | done | by repeat constructor | by left]).
  destruct (parse responseText) as [parsedResponse |]; cbn;
    try (split_and!; [done | done | by repeat constructor | by left]).
  destruct po as [[] | ?]; cbn;
    (split_and!; [done | done | by repeat constructor |]);
    right; exists topLikers, liker; eexists; by split_and!.
Qed.

(** ** The peer-room job *)

(** X14. When the peer-room job does nothing. With the persona's
    [isInChat] flag unset the job has no effect at all, not even a fetch.
    With the flag set it only fetches, and publishes nothing, when the fetch
    is unsuccessful or brings no message, when the latest message is the
    one already processed, and when the latest message was written by this
    agent; in that last case it records the message as processed. *)
Theorem peer_room_job_skips
    (parse : string -> option Parsed.t) (w : AgentChatWorld) (c : AikoClient) :
  let job := readAgentChatAndReply parse w in
  (isInChat (runtime c) = false -> run job c = ([], c, Returned tt)) /\
  (isInChat (runtime c) = true ->
   (forall success messages,
      ac_fetch w = Returned (success, messages) ->
      success = false \/ last (default [] messages) = None ->
      run job c = ([EFetchRoomMessages], c, Returned tt)) /\
   (forall messages latestMessage,
      ac_fetch w = Returned (true, Some messages) ->
      last messages = Some latestMessage ->
      (lastAgentChatMessageId c = Some (RoomMessage.id latestMessage) ->
       run job c = ([EFetchRoomMessages], c, Returned tt)) /\
      (lastAgentChatMessageId c ≠ Some (RoomMessage.id latestMessage) ->
       RoomMessage.agentId latestMessage = agentId (runtime c) ->
       run job c =
         ([EFetchRoomMessages],
          set_lastAgentChatMessageId (Some (RoomMessage.id latestMessage)) c,
          Returned tt)))).
Proof.
  intros job. subst job. unfold readAgentChatAndReply. split.
  - intros Hflag. cbn. by rewrite Hflag.
  - intros Hflag. split.
    + intros success messages Hfetch Hnone. cbn -[last]. rewrite Hflag, Hfetch.
      cbn -[last]. destruct success; [| done].
      destruct Hnone as [? | Hlast]; [done |]. by rewrite Hlast.
    + intros messages latestMessage Hfetch Hlast. split.
      * intros Hseen. cbn -[last]. rewrite Hflag, Hfetch. cbn -[last].
        rewrite Hlast. cbn. by rewrite bool_decide_eq_true_2.
      * intros Hnew Hself. cbn -[last]. rewrite Hflag, Hfetch. cbn -[last].
        rewrite Hlast. cbn. rewrite bool_decide_eq_false_2 by done.
        apply String.eqb_eq in Hself. by rewrite Hself.
Qed.

Lemma peer_room_job_skips_witness :
  run (readAgentChatAndReply sample_parse own_message_chat)
      (new_AikoClient sample_runtime 1000)
  = ([EFetchRoomMessages],
     set_lastAgentChatMessageId (Some "m-2") (new_AikoClient sample_runtime 1000),
     Returned tt).
Proof.
  refine (proj2 (proj2 (proj2 (peer_room_job_skips sample_parse own_message_chat
                                 (new_AikoClient sample_runtime 1000)) eq_refl)
                  [sample_message; own_message] own_message eq_refl eq_refl)
            _ eq_refl).
  discriminate.
Defined.

(** X15. The last-processed peer message advances only on success. After
    the peer-room job the recorded id is either what it was or the id of
    the latest fetched message, and it moves only when that message was
    written by this agent or when a reply to it was posted to the room and
    the post returned. A reply that could not be generated, parsed or posted
    leaves the id alone, so the same message is taken up again at the next
    run. The job publishes to the room only, never to the response
    endpoint. *)
Theorem peer_message_id_advances_only_on_success
    (parse : string -> option Parsed.t) (w : AgentChatWorld) (c : AikoClient) :
  let job := readAgentChatAndReply parse w in
  (lastAgentChatMessageId (final_client job c) = lastAgentChatMessageId c \/
   exists messages latestMessage,
     ac_fetch w = Returned (true, Some messages) /\
     last messages = Some latestMessage /\
     lastAgentChatMessageId (final_client job c)
       = Some (RoomMessage.id latestMessage) /\
     (RoomMessage.agentId latestMessage = agentId (runtime c) \/
      (ac_post w = Returned tt /\
       exists msg audio,
         filter (fun e => is_publish e = true) (trace_of job c)
           = [EPostRoomMessage msg audio]))) /\
  Forall (fun e => forall body, e ≠ EPostAIResponse body) (trace_of job c).
Proof.
  intros job. subst job.
  unfold readAgentChatAndReply, final_client, trace_of, generateSpeech.
  destruct w as [fe cs gt sp po now0]. cbn -[last].
  destruct (isInChat (runtime c)); cbn -[last];
    [| by split; [left | constructor]].
  destruct fe as [[[] [[| m0 ms] |]] | ?]; cbn -[last];
    try (by split; [left | repeat constructor]).
  destruct (last (m0 :: ms)) as [latest |] eqn:Hlast; cbn;
    [| by split; [left | repeat constructor]].
  case_bool_decide; cbn; [by split; [left | repeat constructor] |].
  destruct (String.eqb_spec (RoomMessage.agentId latest) (agentId (runtime c)));
    cbn.
  { split; [| by repeat constructor]. right. exists (m0 :: ms), latest.
    split_and!; try done. by left. }
  destruct cs as [[] | ?]; cbn; [| by split; [left | repeat constructor]].
  destruct gt as [responseText | ?]; cbn; [| by split; [left | repeat constructor]].
  destruct (parse responseText) as [[txt anim] |]; cbn;
    [| by split; [left | repeat constructor]].
  destruct (truthy_str txt); cbn; [| by split; [left | repeat constructor]].
  destruct sp as [url | ?], po as [[] | ?]; cbn;
    try (by split; [left | repeat constructor]);
    (split; [| by repeat constructor]); right; exists (m0 :: ms), latest;
    (split_and!; try done); right; (split; [done |]); by do 2 eexists.
Qed.

(** ** The fresh thought *)

(** X16. The fresh thought. An empty thought ends the job after the
    generation call: no speech, no publish. A non-empty thought is sent to
    the speech service once and published exactly once, flagged [thought],
    with the synthesized URL as [audioUrl] when synthesis succeeded and
    without audio when it failed. *)
Theorem fresh_thought_is_published_once
    (w : ThoughtWorld) (c : AikoClient) (thoughtText : string) :
  th_composeState w = Returned tt ->
  th_generateText w = Returned thoughtText ->
  let job := generateAndShareFreshThought w in
  (thoughtText = "" ->
   run job c = ([EComposeState; EGenerateText GFreshThought], c, Returned tt)) /\
  (thoughtText ≠ "" ->
   filter (fun e => is_speech e = true) (trace_of job c)
     = [EGenerateSpeech (Some thoughtText)] /\
   filter (fun e => is_publish e = true) (trace_of job c)
     = [EPostAIResponse
          (mkResponse (Some thoughtText) None None None None None (Some true)
             None None None None
             match th_speech w with
             | Returned url => Some url
             | Threw _ => None
             end)]).
Proof.
  intros Hcs Hgen job. subst job.
  unfold generateAndShareFreshThought, generateFreshThought, generateSpeech, trace_of.
  destruct w as [cs gt sp po]. cbn in *. subst cs gt. split.
  - intros ->. reflexivity.
  - intros Hne. destruct thoughtText as [| ch rest]; [done |]. cbn.
    destruct sp as [url | ?], po as [[] | ?]; by cbn.
Qed.

Lemma fresh_thought_is_published_once_witness :
  filter (fun e => is_publish e = true)
    (trace_of (generateAndShareFreshThought mute_thought)
       (new_AikoClient sample_runtime 0))
  = [EPostAIResponse
       (mkResponse (Some "a thought") None None None None None (Some true)
          None None None None None)].
Proof.
  refine (proj2 (proj2 (fresh_thought_is_published_once mute_thought
                          (new_AikoClient sample_runtime 0) "a thought"
                          eq_refl eq_refl) _)).
  discriminate.
Defined.

(** ** The chat job *)

Lemma chooseCommentId_quiet comments w :
  emits (fun e => is_markCommentsAsRead e = false /\ is_publish e = false)
    (chooseCommentId comments w).
Proof.
  unfold chooseCommentId, selectCommentToRespondTo.
  destruct comments as [| x [| y rest]]; emits_tac.
Qed.

Lemma respondToSelected_marks_nothing trim selectedComment w :
  emits (fun e => is_markCommentsAsRead e = false)
    (respondToSelected trim selectedComment w).
Proof. unfold respondToSelected, _generateResponse. emits_tac. Qed.

(** X17. The whole batch is marked read before anything else. For every
    non-empty batch the first thing [processComments] does is one mark-read
    request listing the id of every comment of the batch, in order; no
    further mark-read request follows, whichever comment is selected,
    whether or not a reply is published, and even when a later step
    throws. *)
Theorem batch_is_marked_read_first_and_once
    (trim : string -> string)
    (x : IComment.t) (xs : list IComment.t) (w : CommentsWorld) (c : AikoClient) :
  exists rest,
    trace_of (processComments trim (x :: xs) w) c
      = EMarkCommentsAsRead (IComment.id <$> x :: xs) :: rest /\
    Forall (fun e => is_markCommentsAsRead e = false) rest.
Proof.
  unfold trace_of. rewrite run_processComments. cbv zeta.
  pose proof (chooseCommentId_quiet (x :: xs) w c) as Hsel.
  unfold trace_of in Hsel.
  assert (Hmark : exists tail,
    mark_trace (map IComment.id (x :: xs)) (cw_markRead w)
      = EMarkCommentsAsRead (IComment.id <$> x :: xs) :: tail /\
    Forall (fun e => is_markCommentsAsRead e = false) tail).
  { unfold mark_trace. destruct (cw_markRead w); eexists; split; try done;
      by repeat constructor. }
  destruct Hmark as (tail & -> & Htail).
  destruct (run (chooseCommentId (x :: xs) w) c) as [[tr_sel c1] [sel | e]];
    cbn [fst snd] in Hsel.
  2: { eexists. split; [reflexivity |]. apply Forall_app. split; [done |].
       eapply Forall_impl; [exact Hsel |]. by intros ? [? _]. }
  assert (Hsel' : Forall (fun e => is_markCommentsAsRead e = false) tr_sel).
  { eapply Forall_impl; [exact Hsel |]. by intros ? [? _]. }
  destruct (negb (truthy_str sel)).
  { eexists. split; [reflexivity |]. by apply Forall_app. }
  destruct (find _ (x :: xs)) as [sc |].
  - pose proof (respondToSelected_marks_nothing trim sc w c1) as Hr. unfold trace_of in Hr.
    destruct (run (respondToSelected trim sc w) c1) as [[tr_r c2] [[] | e]];
      cbn [fst snd] in *; eexists; (split; [reflexivity |]);
      repeat (apply Forall_app; split); done.
  - eexists. split; [reflexivity |].
    repeat (apply Forall_app; split); try done. by repeat constructor.
Qed.

Lemma respondToSelected_publishes trim selectedComment w c :
  filter (fun e => is_publish e = true)
    (trace_of (respondToSelected trim selectedComment w) c) = [] \/
  exists responseContent animationResponse posted,
    cw_generateMessageResponse w = Returned (Some responseContent) /\
    cw_animation w = Returned animationResponse /\
    filter (fun e => is_publish e = true)
      (trace_of (respondToSelected trim selectedComment w) c)
      = [EPostAIResponse posted] /\
    text posted = trim <$> Content.text responseContent /\
    replyToMessageId posted
      = default (Some (IComment.id selectedComment))
          (Content.replyToMessageId responseContent) /\
    replyToMessage posted
      = default (Some (IComment.message selectedComment))
          (Content.replyToMessage responseContent) /\
    replyToUser posted
      = default (Some (IComment.user selectedComment))
          (Content.replyToUser responseContent) /\
    isGiftResponse posted
      = default (Some false) (Content.isGiftResponse responseContent) /\
    animation posted
      = default (Some animationResponse) (Content.animation responseContent).
Proof.
  unfold respondToSelected, _generateResponse, generateSpeech, trace_of.
  destruct w as [mr lcm scs sgt ec cm cs gmr dl an sp po]. cbn.
  destruct ec as [[] | ?]; [| by left].
  destruct (IComment.message selectedComment) as [| ch msg]; cbn.
  - destruct cs as [[] | ?]; [| by left].
    destruct gmr as [[rc |] | ?]; cbn; [| by left | by left].
    destruct dl as [[] | ?]; [| by left].
    destruct an as [a | ?]; [| by left].
    destruct sp as [u | ?], po as [st | ?]; cbn; try destruct (st =? 200); cbn;
      right; exists rc, a; eexists; by split_and!.
  - destruct cm as [[] | ?]; [| by left].
    destruct cs as [[] | ?]; [| by left].
    destruct gmr as [[rc |] | ?]; cbn; [| by left | by left].
    destruct dl as [[] | ?]; [| by left].
    destruct an as [a | ?]; [| by left].
    destruct sp as [u | ?], po as [st | ?]; cbn; try destruct (st =? 200); cbn;
      right; exists rc, a; eexists; by split_and!.
Qed.

(** X18. A chat reply answers the selected comment, unless the generated
    content says otherwise. [processComments] publishes at most one
    response. The reply is built to quote a comment of the batch, the one
    whose id was chosen ([replyToMessageId], [replyToMessage] and
    [replyToUser] are that comment's id, text and author), not to be a gift
    response, and to carry the animation generated for it; the generated
    content is then spread over it, last. So each of these fields of the
    posted body is the content's when the content carries a key of that
    name, and the built one otherwise; a content with an [animation] key
    decides the animation. The [text] is the trimmed text of the content. *)
Theorem chat_reply_quotes_the_selected_comment_unless_overridden
    (trim : string -> string)
    (comments : list IComment.t) (w : CommentsWorld) (c : AikoClient) :
  let published :=
    filter (fun e => is_publish e = true)
      (trace_of (processComments trim comments w) c) in
  published = [] \/
  exists selectedComment responseContent animationResponse posted,
    selectedComment ∈ comments /\
    result_of (chooseCommentId comments w) c
      = Returned (Some (IComment.id selectedComment)) /\
    cw_generateMessageResponse w = Returned (Some responseContent) /\
    cw_animation w = Returned animationResponse /\
    published = [EPostAIResponse posted] /\
    text posted = trim <$> Content.text responseContent /\
    replyToMessageId posted
      = default (Some (IComment.id selectedComment))
          (Content.replyToMessageId responseContent) /\
    replyToMessage posted
      = default (Some (IComment.message selectedComment))
          (Content.replyToMessage responseContent) /\
    replyToUser posted
      = default (Some (IComment.user selectedComment))
          (Content.replyToUser responseContent) /\
    isGiftResponse posted
      = default (Some false) (Content.isGiftResponse responseContent) /\
    animation posted
      = default (Some animationResponse) (Content.animation responseContent).
Proof.
  intros published. subst published.
  destruct comments as [| x xs]; [by left |].
  unfold trace_of, result_of. rewrite run_processComments. cbv zeta.
  pose proof (chooseCommentId_quiet (x :: xs) w c) as Hsel.
  pose proof (chooseCommentId_same_client (x :: xs) w c) as Hsame.
  unfold trace_of, final_client in *.
  assert (Hmark : filter (fun e => is_publish e = true)
                    (mark_trace (map IComment.id (x :: xs)) (cw_markRead w)) = []).
  { unfold mark_trace. by destruct (cw_markRead w). }
  destruct (run (chooseCommentId (x :: xs) w) c) as [[tr_sel c1] [sel | e]];
    cbn [fst snd] in *; subst c1.
  2: { left. rewrite filter_app, Hmark. apply (filter_none is_publish).
       eapply Forall_impl; [exact Hsel |]. by intros ? [_ ?]. }
  assert (Hsel' : filter (fun e => is_publish e = true) tr_sel = []).
  { apply (filter_none is_publish). eapply Forall_impl; [exact Hsel |]. by intros ? [_ ?]. }
  destruct (negb (truthy_str sel)).
  { left. cbn [fst snd]. by rewrite filter_app, Hmark, Hsel'. }
  destruct (find _ (x :: xs)) as [sc |] eqn:Hfind.
  - apply find_comment_Some in Hfind as [Hin ->].
    pose proof (respondToSelected_publishes trim sc w c) as Hpub. unfold trace_of in Hpub.
    assert (Htrace : forall tr_r,
      filter (fun e => is_publish e = true)
        (mark_trace (map IComment.id (x :: xs)) (cw_markRead w) ++ tr_sel ++ tr_r)
      = filter (fun e => is_publish e = true) tr_r).
    { intros tr_r. by rewrite !filter_app, Hmark, Hsel'. }
    destruct (run (respondToSelected trim sc w) c) as [[tr_r c2] [[] | e]];
      cbn [fst snd] in *; rewrite Htrace;
      (destruct Hpub as [Hnone | (rc & a & posted & Hrc & Ha & Hposted
            & H1 & H2 & H3 & H4 & H5 & H6)];
         [by left |]);
      right; exists sc, rc, a, posted; by split_and!.
  - left. cbn [fst snd]. rewrite !filter_app, Hmark, Hsel'. done.
Qed.

(** The content of the sample reply, carrying an [animation] key of its
    own: the posted animation is the content's, not the generated one. *)
Lemma content_animation_overrides_the_generated_one :
  filter (fun e => is_publish e = true)
    (trace_of (processComments ascii_trim [sample_comment_a] dancing_comments)
       (new_AikoClient sample_runtime 0))
  = [EPostAIResponse
       (mkResponse (Some "fine, thanks") (Some "user-a") (Some "c-1")
          (Some "hello") (Some "a") None None (Some false) None None
          (Some "silly_dancing") (Some "https://cdn/audio.mp3"))] /\
  cw_animation dancing_comments = Returned "idle".
Proof. by vm_compute. Qed.

(** X19. No response, no reply. When the generation service fulfils without
    a response, [_generateResponse] logs that and hands back [undefined],
    and the rest of the reply is abandoned on reading its [text]: the reply
    step rejects, nothing is written to the database log, no animation or
    speech is requested and nothing is published. *)
Theorem reply_is_abandoned_without_a_response
    (trim : string -> string)
    (selectedComment : IComment.t) (w : CommentsWorld) (c : AikoClient) :
  cw_generateMessageResponse w = Returned None ->
  let tr := trace_of (respondToSelected trim selectedComment w) c in
  (exists e, result_of (respondToSelected trim selectedComment w) c = Threw e) /\
  Forall (fun e => is_databaseLog e = false /\ is_animationRequest e = false /\
                   is_speech e = false /\ is_publish e = false) tr /\
  (cw_ensureConnection w = Returned tt -> cw_createMemory w = Returned tt ->
   cw_composeState w = Returned tt ->
   last tr = Some (EConsoleError "No response from generateMessageResponse") /\
   result_of (respondToSelected trim selectedComment w) c
     = Threw "TypeError: Cannot read properties of undefined (reading 'text')").
Proof.
  intros Hnone tr. subst tr.
  unfold respondToSelected, _generateResponse, trace_of, result_of.
  destruct w as [mr lcm scs sgt ec cm cs gmr dl an sp po]. cbn in *. subst gmr.
  destruct ec as [[] | ?]; cbn;
    [| by split_and!; [eexists | repeat constructor |]].
  destruct (IComment.message selectedComment) as [| ch msg]; cbn.
  - destruct cs as [[] | ?]; cbn;
      by split_and!; [eexists | repeat constructor |].
  - destruct cm as [[] | ?]; cbn;
      [| by split_and!; [eexists | repeat constructor |]].
    destruct cs as [[] | ?]; cbn;
      by split_and!; [eexists | repeat constructor |].
Qed.

Lemma reply_is_abandoned_without_a_response_witness :
  exists e,
    result_of (respondToSelected ascii_trim sample_comment_a failing_selection)
      (new_AikoClient sample_runtime 0) = Threw e.
Proof.
  exact (proj1 (reply_is_abandoned_without_a_response ascii_trim sample_comment_a
                  failing_selection (new_AikoClient sample_runtime 0) eq_refl)).
Defined.

(** ** Cleaning and validating the generated animation *)

Lemma trimStart_whitespace pre s :
  all_whitespace pre = true -> ascii_trimStart (pre +:+ s) = ascii_trimStart s.
Proof.
  induction pre as [| c pre IH]; [done |]. simpl.
  intros [Hc Hpre]%andb_true_iff. rewrite Hc. by apply IH.
Qed.

Lemma trimEnd_all_whitespace post :
  all_whitespace post = true -> ascii_trimEnd post = "".
Proof.
  induction post as [| c post IH]; [done |]. simpl.
  intros [Hc Hpost]%andb_true_iff. by rewrite IH, Hc.
Qed.

Lemma trimEnd_whitespace s post :
  all_whitespace post = true -> ascii_trimEnd (s +:+ post) = ascii_trimEnd s.
Proof.
  intros Hpost. induction s as [| c s IH]; simpl.
  - by apply trimEnd_all_whitespace.
  - by rewrite IH.
Qed.

Lemma trimStart_all_whitespace post :
  all_whitespace post = true -> ascii_trimStart post = "".
Proof.
  induction post as [| c post IH]; [done |]. simpl.
  intros [Hc Hpost]%andb_true_iff. rewrite Hc. by apply IH.
Qed.

Lemma trim_trailing_whitespace s post :
  all_whitespace post = true -> ascii_trim (s +:+ post) = ascii_trim s.
Proof.
  intros Hpost. unfold ascii_trim. induction s as [| c s IH].
  - simpl. by rewrite trimStart_all_whitespace.
  - change (String c s +:+ post) with (String c (s +:+ post)).
    cbn [ascii_trimStart]. destruct (is_whitespace c); [exact IH |].
    change (String c (s +:+ post)) with (String c s +:+ post).
    by rewrite trimEnd_whitespace.
Qed.

Lemma trim_padding pre s post :
  all_whitespace pre = true -> all_whitespace post = true ->
  ascii_trim (pre +:+ s +:+ post) = ascii_trim s.
Proof.
  intros Hpre Hpost. unfold ascii_trim at 1. rewrite trimStart_whitespace by done.
  by apply trim_trailing_whitespace.
Qed.

Lemma is_whitespace_lower c : is_whitespace (lower_ascii c) = is_whitespace c.
Proof. by destruct c as [[] [] [] [] [] [] [] []]. Qed.

Lemma trimStart_toLowerCase s :
  ascii_trimStart (ascii_toLowerCase s) = ascii_toLowerCase (ascii_trimStart s).
Proof.
  induction s as [| c s IH]; [done |]. simpl.
  rewrite is_whitespace_lower. by destruct (is_whitespace c).
Qed.

Lemma trimEnd_toLowerCase s :
  ascii_trimEnd (ascii_toLowerCase s) = ascii_toLowerCase (ascii_trimEnd s).
Proof.
  induction s as [| c s IH]; [done |]. simpl. rewrite IH, is_whitespace_lower.
  destruct (ascii_trimEnd s); simpl; [by destruct (is_whitespace c) | done].
Qed.

Lemma trim_toLowerCase s :
  ascii_trim (ascii_toLowerCase s) = ascii_toLowerCase (ascii_trim s).
Proof. unfold ascii_trim. by rewrite trimStart_toLowerCase, trimEnd_toLowerCase. Qed.

(** X20. Validation ignores letter case and surrounding whitespace. Two
    generated texts that differ only in the case of their ASCII letters, or
    only by ASCII whitespace around them, are cleaned to the same value, so
    the periodic-animation job treats them alike: same trace, same outcome.
    The job runs here with [ascii_trim] and [ascii_toLowerCase], which is
    what the engine's [trim] and [toLowerCase] do to ASCII letters and ASCII
    whitespace. *)
Theorem animation_validation_ignores_case_and_padding
    (cs : outcome unit) (po : outcome bool) (c : AikoClient)
    (generated generated' : string) :
  (ascii_toLowerCase generated = ascii_toLowerCase generated' \/
   exists pre post,
     all_whitespace pre = true /\ all_whitespace post = true /\
     generated' = pre +:+ generated +:+ post) ->
  clean_animation generated = clean_animation generated' /\
  run (generateAndSharePeriodicAnimation ascii_trim ascii_toLowerCase
         (mkAnimationWorld cs (Returned generated) po)) c
  = run (generateAndSharePeriodicAnimation ascii_trim ascii_toLowerCase
           (mkAnimationWorld cs (Returned generated') po)) c.
Proof.
  intros Hsame.
  assert (Hclean : ascii_toLowerCase (ascii_trim generated)
                   = ascii_toLowerCase (ascii_trim generated')).
  { destruct Hsame as [Hcase | (pre & post & Hpre & Hpost & ->)].
    - by rewrite <- !trim_toLowerCase, Hcase.
    - by rewrite trim_padding. }
  split; [exact Hclean |].
  unfold generateAndSharePeriodicAnimation.
  destruct cs as [[] | ?]; [| done].
  cbn -[includes getAllAnimations ascii_toLowerCase ascii_trim]. by rewrite Hclean.
Qed.

Lemma animation_validation_ignores_case_and_padding_witness :
  clean_animation "floating" = clean_animation "FLOATing".
Proof.
  refine (proj1 (animation_validation_ignores_case_and_padding (Returned tt)
                   (Returned true) (new_AikoClient sample_runtime 0)
                   "floating" "FLOATing" _)).
  left. reflexivity.
Defined.

Ltac in_catalog H :=
  repeat (apply elem_of_cons in H as [-> | H]; [| ]);
  [.. | by apply elem_of_nil in H].

(** X21. What the validator accepts. Every animation of the catalog, and so
    every animation the prompt offers (the dancing and the special ones), is
    its own cleaned form and is published unchanged when the generation
    service answers with it. The sitting poses are declared in
    [ANIMATION_OPTIONS] but left out of [getAllAnimations]: answering with
    one of them only earns the warning. The names of the animations are
    ASCII, so the job runs here with [ascii_trim] and [ascii_toLowerCase]. *)
Theorem catalog_entries_are_published_sitting_poses_are_not
    (w : AnimationWorld) (c : AikoClient) (generated : string) :
  an_composeState w = Returned tt ->
  an_generateText w = Returned generated ->
  let job := generateAndSharePeriodicAnimation ascii_trim ascii_toLowerCase w in
  Forall (fun a => a ∈ getAllAnimations)
    (ANIMATION_OPTIONS.DANCING ++ ANIMATION_OPTIONS.SPECIAL) /\
  (generated ∈ getAllAnimations ->
   filter (fun e => is_postAnimation e = true) (trace_of job c)
     = [EPostAnimation generated]) /\
  (generated ∈ ANIMATION_OPTIONS.SITTING ->
   filter (fun e => is_postAnimation e = true) (trace_of job c) = [] /\
   last (trace_of job c)
     = Some (EConsoleWarn ("Invalid animation generated: " +:+ generated +:+
                           ", defaulting to 'idle'"))).
Proof.
  intros Hcs Hgen job. subst job. split_and!.
  - apply Forall_forall. intros a Ha. apply includes_elem_of.
    cbn in Ha. in_catalog Ha; reflexivity.
  - intros Hin. unfold generateAndSharePeriodicAnimation, trace_of.
    destruct w as [cs gt po]. cbn in Hcs, Hgen. subst cs gt.
    unfold getAllAnimations, ANIMATION_OPTIONS.IDLE, ANIMATION_OPTIONS.HEAD,
      ANIMATION_OPTIONS.GESTURES, ANIMATION_OPTIONS.DANCING,
      ANIMATION_OPTIONS.SPECIAL in Hin. cbn in Hin.
    in_catalog Hin; destruct po as [[] | ?]; reflexivity.
  - intros Hin. unfold generateAndSharePeriodicAnimation, trace_of.
    destruct w as [cs gt po]. cbn in Hcs, Hgen. subst cs gt.
    unfold ANIMATION_OPTIONS.SITTING in Hin.
    in_catalog Hin; split; reflexivity.
Qed.

Lemma catalog_entries_are_published_sitting_poses_are_not_witness :
  filter (fun e => is_postAnimation e = true)
    (trace_of
       (generateAndSharePeriodicAnimation ascii_trim ascii_toLowerCase
          (mkAnimationWorld (Returned tt) (Returned "sitting") (Returned true)))
       (new_AikoClient sample_runtime 0)) = [].
Proof.
  refine (proj1 (proj2 (proj2 (catalog_entries_are_published_sitting_poses_are_not
                                 (mkAnimationWorld (Returned tt) (Returned "sitting")
                                    (Returned true))
                                 (new_AikoClient sample_runtime 0) "sitting"
                                 eq_refl eq_refl)) _)).
  apply list_elem_of_here.
Defined.

(** ** The identifier of the status update *)

Lemma word_char_lower_is_slug c :
  is_word_char (lower_ascii c) = true -> is_slug_char (lower_ascii c) = true.
Proof. by destruct c as [[] [] [] [] [] [] [] []]. Qed.

Lemma slug_char_facts c :
  is_slug_char c = true ->
  lower_ascii c = c /\ is_word_char c = true /\ is_whitespace c = false.
Proof. by destruct c as [[] [] [] [] [] [] [] []]. Qed.

Lemma stream_identifier_all_slug s : forall in_run,
  all_slug (collapse_whitespace in_run (strip_non_word (ascii_toLowerCase s))) = true.
Proof.
  induction s as [| c s IH]; intros in_run; [done |].
  cbn [ascii_toLowerCase strip_non_word].
  destruct (is_word_char (lower_ascii c)) eqn:Hword; cbn [orb].
  - pose proof (word_char_lower_is_slug c Hword) as Hslug.
    destruct (slug_char_facts _ Hslug) as (_ & _ & Hws).
    cbn [collapse_whitespace]. rewrite Hws. cbn [all_slug]. by rewrite Hslug, IH.
  - destruct (is_whitespace (lower_ascii c)) eqn:Hws; [| apply IH].
    cbn [collapse_whitespace]. rewrite Hws.
    destruct in_run; [apply IH |]. cbn [all_slug]. by rewrite IH.
Qed.

Lemma all_slug_fixed s :
  all_slug s = true ->
  ascii_toLowerCase s = s /\ strip_non_word s = s /\
  forall in_run, collapse_whitespace in_run s = s.
Proof.
  induction s as [| c s IH]; [done |]. cbn [all_slug].
  intros [Hc Hs]%andb_true_iff.
  destruct (slug_char_facts c Hc) as (Hlow & Hword & Hws).
  destruct (IH Hs) as (IH1 & IH2 & IH3).
  cbn [ascii_toLowerCase strip_non_word collapse_whitespace].
  rewrite Hlow, Hword, Hws, IH1, IH2. cbn [orb].
  split_and!; try done. intros in_run. by rewrite IH3.
Qed.

(** X22. The stream identifier is a slug. Whatever the character's name,
    the [identifier] sent with the status update consists of lowercase
    letters, digits and underscores only: it holds no space, no capital and
    no punctuation, every run of whitespace of the name has become a single
    underscore, and deriving the identifier of an identifier changes
    nothing. *)
Theorem stream_identifier_is_a_slug (characterName : string) :
  all_slug (stream_identifier characterName) = true /\
  stream_identifier (stream_identifier characterName)
    = stream_identifier characterName /\
  stream_identifier "Aiko  the Great!" = "aiko_the_great".
Proof.
  split_and!.
  - apply stream_identifier_all_slug.
  - pose proof (stream_identifier_all_slug characterName false) as Hslug.
    fold (stream_identifier characterName) in Hslug.
    destruct (all_slug_fixed _ Hslug) as (H1 & H2 & H3).
    unfold stream_identifier at 1. by rewrite H1, H2, H3.
  - reflexivity.
Qed.

(** ** The comment watermark through the jobs *)

Lemma readChatAndReply_watermark_defined trim w c :
  is_Some (lastProcessedTimestamp c) ->
  is_Some (lastProcessedTimestamp (final_client (readChatAndReply trim w) c)).
Proof.
  intros Hsome. unfold final_client.
  destruct (run_readChatAndReply trim w c) as (tr & body & _ & _ & _ & ->).
  pose proof (processComments_same_client trim) as Hsame. unfold final_client in Hsame.
  destruct body as [| [[| x xs] |]]; try done.
  specialize (Hsame (x :: xs) (rc_comments w) c).
  destruct (run (processComments trim (x :: xs) (rc_comments w)) c)
    as [[tr_p c1] [ids | e]]; cbn in Hsame; subst c1; by cbn.
Qed.

(** X23. The comment watermark is always defined. The constructor sets it,
    and no job body ever clears it: through every tick, whichever task it
    runs and whatever the collaborators do, a defined watermark stays
    defined. The comment job therefore always issues its fetch, and asks
    for the comments since the watermark. *)
Theorem watermark_stays_defined
    (parse : string -> option Parsed.t)
    (trim toLowerCase : string -> string) (now done : Z) (w : World) (c : AikoClient) :
  (forall rt t0, lastProcessedTimestamp (new_AikoClient rt t0) = Some t0) /\
  (is_Some (lastProcessedTimestamp c) ->
   (forall task_name,
      is_Some (lastProcessedTimestamp (final_client (dispatch parse trim toLowerCase
            task_name w) c))) /\
   is_Some (lastProcessedTimestamp (final_client (processNextTask parse trim toLowerCase
         now w done) c))) /\
  (forall t, lastProcessedTimestamp c = Some t ->
     head (trace_of (readChatAndReply trim (w_readChatAndReply w)) c)
       = Some (EFetchUnreadComments t)).
Proof.
  assert (Hdispatch : forall task_name c0,
    is_Some (lastProcessedTimestamp c0) ->
    is_Some (lastProcessedTimestamp (final_client (dispatch parse trim toLowerCase
          task_name w) c0))).
  { intros task_name c0 Hsome. unfold dispatch.
    repeat lazymatch goal with
           | |- context [String.eqb task_name ?s] =>
               destruct (String.eqb_spec task_name s); [subst |]
           end; try done.
    - by rewrite (readGifts_preserves same_lastProcessedTimestamp parse _ c0).
    - by apply readChatAndReply_watermark_defined.
    - by rewrite (readAndRespondToTopLikers_preserves same_lastProcessedTimestamp parse _ c0).
    - by rewrite (generateAndShareFreshThought_preserves same_lastProcessedTimestamp _ c0).
    - destruct (readAgentChatAndReply_watermark parse (w_readAgentChatAndReply w) c0)
        as [-> | [-> _]]; [done | by eexists].
    - by rewrite (generateAndSharePeriodicAnimation_preserves same_lastProcessedTimestamp
                  _ _ _ c0).
    - by rewrite (heartbeat_preserves same_lastProcessedTimestamp _ c0). }
  split_and!.
  - done.
  - intros Hsome. split; [intros task_name; by apply Hdispatch |].
    destruct (find_eligible now (taskQueue c)) as [[i t] |] eqn:Hfind.
    + unfold final_client.
      rewrite (run_processNextTask_started _ _ _ _ _ _ _ _ _ Hfind). cbn -[dispatch].
      by apply Hdispatch.
    + unfold final_client. by rewrite run_processNextTask_idle.
  - intros t Ht. unfold trace_of.
    destruct (run_readChatAndReply trim (w_readChatAndReply w) c)
      as (tr & body & _ & _ & Hhead & ->).
    specialize (Hhead t Ht). destruct tr as [| e0 tr]; [done |].
    destruct body as [| [[| x xs] |]]; try done.
    by destruct (run (processComments trim _ _) c) as [[tr_p c1] [ids | e]].
Qed.

Lemma watermark_stays_defined_witness :
  head (trace_of (readChatAndReply ascii_trim (w_readChatAndReply calm_world))
          (new_AikoClient sample_runtime 1000))
  = Some (EFetchUnreadComments 1000).
Proof.
  exact (proj2 (proj2 (watermark_stays_defined sample_parse ascii_trim
                    ascii_toLowerCase 0 0 calm_world
                         (new_AikoClient sample_runtime 1000))) 1000 eq_refl).
Defined.

(** ** Selecting among several comments *)

Lemma find_first_comment (before after : list IComment.t) sc s :
  IComment.id sc = s ->
  Forall (fun comment => IComment.id comment ≠ s) before ->
  find (fun comment => bool_decide (Some (IComment.id comment) = Some s))
    (before ++ sc :: after) = Some sc.
Proof.
  intros Hid. induction 1 as [| b before Hb _ IH]; simpl.
  - by rewrite bool_decide_eq_true_2 by congruence.
  - rewrite bool_decide_eq_false_2 by congruence. exact IH.
Qed.

(** X24. A returned id selects the first comment that carries it. For a
    batch of two or more comments, when the generation service answers with
    a non-empty text other than ["NONE"] that is the id of a comment of the
    batch, the reply is made to the first comment with that id: after the
    mark-read request and the selection request, [processComments] does
    exactly what answering that comment does. The answer is compared as it
    is, without trimming. *)
Theorem returned_id_selects_the_first_matching_comment
    (trim : string -> string)
    (w : CommentsWorld) (c : AikoClient) (comments before after : list IComment.t)
    (selectedComment : IComment.t) (s : string) :
  (2 <= length comments)%nat ->
  cw_select_composeState w = Returned tt ->
  cw_select_generateText w = Returned s ->
  s ≠ "NONE" -> s ≠ "" ->
  comments = before ++ selectedComment :: after ->
  IComment.id selectedComment = s ->
  Forall (fun comment => IComment.id comment ≠ s) before ->
  trace_of (processComments trim comments w) c =
    mark_trace (IComment.id <$> comments) (cw_markRead w) ++
    [EComposeState; EGenerateText GSelectComment] ++
    trace_of (respondToSelected trim selectedComment w) c.
Proof.
  intros Hlen Hcs Hgen Hnone Hempty Hsplit Hid Hbefore.
  pose proof (find_first_comment before after selectedComment s Hid Hbefore) as Hfind.
  rewrite <- Hsplit in Hfind. clear Hsplit.
  destruct comments as [| x [| y rest]]; [simpl in Hlen; lia | simpl in Hlen; lia |].
  unfold trace_of. rewrite run_processComments,
    (run_chooseCommentId_many _ _ _ _ _ _ Hcs Hgen).
  destruct (String.eqb_spec s "NONE"); [done |].
  assert (Htruthy : truthy_str (Some s) = true) by (by destruct s).
  rewrite Htruthy. cbn [negb]. rewrite Hfind.
  by destruct (run (respondToSelected trim selectedComment w) c) as [[tr_r c2] [[] | e]].
Qed.

Lemma returned_id_selects_the_first_matching_comment_witness :
  trace_of (processComments ascii_trim [sample_comment_a; sample_comment_b] calm_comments)
    (new_AikoClient sample_runtime 0)
  = mark_trace ["c-1"; "c-2"] (Returned true) ++
    [EComposeState; EGenerateText GSelectComment] ++
    trace_of (respondToSelected ascii_trim sample_comment_b calm_comments)
      (new_AikoClient sample_runtime 0).
Proof.
  refine (returned_id_selects_the_first_matching_comment ascii_trim calm_comments
            (new_AikoClient sample_runtime 0)
            [sample_comment_a; sample_comment_b] [sample_comment_a] []
            sample_comment_b "c-2" _ eq_refl eq_refl _ _ eq_refl eq_refl _).
  - simpl. lia.
  - discriminate.
  - discriminate.
  - repeat constructor. discriminate.
Defined.

(** ** The footprint of each job *)

Lemma processGifts_footprint parse gifts : forall ws i,
  emits (fun e => job_footprint "readGifts" e = true)
    (processGifts parse gifts ws i).
Proof.
  induction gifts as [| g rest IH]; intros ws i; cbn [processGifts].
  - emits_tac.
  - unfold processGift, markGiftsAsRead. emits_tac.
Qed.

#[local] Hint Resolve processGifts_footprint : emits.

(** X25. Every job keeps to its own footprint. Whatever the collaborators
    answer, a job body only reaches the endpoints and services of its own
    flow: gifts are fetched and marked read by the gift job alone, comments
    are fetched, marked read and remembered by the chat job alone, only the
    peer-room job reads and posts to the room, only the animation job posts
    an animation, only the heartbeat sends the status, and the top-liker,
    animation and heartbeat jobs never request speech. *)
Theorem jobs_keep_to_their_footprint
    (parse : string -> option Parsed.t)
    (trim toLowerCase : string -> string) (task_name : string) (w : World)
    (c : AikoClient) :
  Forall (fun e => job_footprint task_name e = true)
    (trace_of (dispatch parse trim toLowerCase task_name w) c).
Proof.
  revert c. change (emits (fun e => job_footprint task_name e = true)
                      (dispatch parse trim toLowerCase task_name w)).
  unfold dispatch.
  repeat lazymatch goal with
         | |- context [String.eqb task_name ?s] =>
             destruct (String.eqb_spec task_name s); [subst |]
         end.
  - unfold readGifts, fetchUnreadGifts. emits_tac.
  - unfold readChatAndReply, fetchUnreadComments, destructure_comments,
      processComments, markCommentsAsRead, chooseCommentId,
      selectCommentToRespondTo, respondToSelected, _generateResponse.
    emits_tac.
  - unfold readAndRespondToTopLikers, fetchTopLikers. emits_tac.
  - unfold generateAndShareFreshThought, generateFreshThought. emits_tac.
  - unfold readAgentChatAndReply. emits_tac.
  - unfold generateAndSharePeriodicAnimation. emits_tac.
  - unfold heartbeat, updateStreamingStatus. emits_tac.
  - emits_tac.
Qed.
